(** * pyFG: the FortiOS commit / rollback engine

  A shallow embedding of [pyFG/fortios.py] (class [FortiOS]) and the
  properties of its batch-commit protocol: the lastlog parser, the
  batch framing, the bounded retry loop, the failure handling and the
  rollback controller.

  Conventions.
  - A Python [str] is a [string]; a character is read as the code point
    of the same number (the range U+0000..U+00FF).  The lastlog parser
    is given on texts of arbitrary code points as well (module
    [Unicode]).
  - Objects of class [FortiConfig] live in a store and are named by
    references, as [self.original_config = self.running_config] shares
    the object instead of copying it.
  - A method of [FortiOS] is a function from the state of the session
    object to a result (a value or a raised exception) and a new state. *)

From Stdlib Require Import ZArith Ascii String List Bool Lia.
From stdpp Require Import base list.
Import ListNotations.

Local Open Scope string_scope.
Local Open Scope Z_scope.

(** ** Characters and strings *)

Module Str.

Definition LF : ascii := "010"%char.
Definition nl : string := String LF EmptyString.

Definition code (c : ascii) : N := N_of_ascii c.

Definition in_range (lo hi : N) (c : ascii) : bool :=
  ((lo <=? code c) && (code c <=? hi))%N.

(** [[0-9]] *)
Definition is_ascii_digit (c : ascii) : bool := in_range 48 57 c.

(** [\d]: the decimal digits; below U+0100 these are ['0'..'9']. *)
Definition is_digit (c : ascii) : bool := in_range 48 57 c.

(** [\w]: alphanumeric characters and the underscore.  Below U+0100 the
    alphanumerics are the ASCII letters and digits, the ordinal
    indicators, the micro sign, the superscript digits, the vulgar
    fractions and the accented letters. *)
Definition is_word (c : ascii) : bool :=
  in_range 48 57 c || in_range 65 90 c || in_range 97 122 c
  || (code c =? 95)%N
  || (code c =? 170)%N || (code c =? 178)%N || (code c =? 179)%N
  || (code c =? 181)%N || (code c =? 185)%N || (code c =? 186)%N
  || in_range 188 190 c || in_range 192 214 c || in_range 216 246 c
  || in_range 248 255 c.

(** [\W] *)
Definition is_nonword (c : ascii) : bool := negb (is_word c).

(** [.] without DOTALL: anything but a line feed. *)
Definition is_dot (c : ascii) : bool := negb (code c =? 10)%N.

(** The line boundaries of [str.splitlines] below U+0100:
    LF, VT, FF, CR, FS, GS, RS and NEL. *)
Definition is_linebreak (c : ascii) : bool :=
  in_range 10 13 c || in_range 28 30 c || (code c =? 133)%N.

Definition is_CR (c : ascii) : bool := (code c =? 13)%N.
Definition is_LF (c : ascii) : bool := (code c =? 10)%N.

Definition is_empty (s : string) : bool :=
  match s with EmptyString => true | String _ _ => false end.

(** The longest prefix whose characters satisfy [p], and what follows. *)
Fixpoint span (p : ascii -> bool) (s : string) : string * string :=
  match s with
  | EmptyString => (EmptyString, EmptyString)
  | String c r =>
      if p c then let (a, b) := span p r in (String c a, b)
      else (EmptyString, s)
  end.

Fixpoint forallb (p : ascii -> bool) (s : string) : bool :=
  match s with
  | EmptyString => true
  | String c r => p c && forallb p r
  end.

(** The first character of [s], if any, satisfies [p]. *)
Definition head_is (p : ascii -> bool) (s : string) : bool :=
  match s with
  | EmptyString => false
  | String c _ => p c
  end.

Definition tail (s : string) : string :=
  match s with
  | EmptyString => EmptyString
  | String _ r => r
  end.

(** [s.startswith(pre)] *)
Fixpoint starts_with (pre s : string) : bool :=
  match pre with
  | EmptyString => true
  | String a pre' =>
      match s with
      | EmptyString => false
      | String b s' => Ascii.eqb a b && starts_with pre' s'
      end
  end.

(** [sub in s] on strings. *)
Fixpoint contains (sub s : string) : bool :=
  starts_with sub s ||
  match s with
  | EmptyString => false
  | String _ r => contains sub r
  end.

(** [s.splitlines()]: [cur] is the line being read. *)
Fixpoint splitlines_from (cur s : string) : list string :=
  match s with
  | EmptyString => if is_empty cur then [] else [cur]
  | String c r =>
      if is_linebreak c then
        match r with
        | String d r' =>
            if is_CR c && is_LF d then cur :: splitlines_from EmptyString r'
            else cur :: splitlines_from EmptyString r
        | EmptyString => [cur]
        end
      else splitlines_from (cur ++ String c EmptyString) r
  end.

Definition splitlines (s : string) : list string :=
  splitlines_from EmptyString s.

(** ['\n'.join(l)] *)
Fixpoint join_lines (l : list string) : string :=
  match l with
  | [] => EmptyString
  | [x] => x
  | x :: r => x ++ nl ++ join_lines r
  end.

(** The value of a run of ASCII digits read in base ten. *)
Fixpoint digits_value (acc : Z) (s : string) : option Z :=
  match s with
  | EmptyString => Some acc
  | String c r =>
      if is_ascii_digit c
      then digits_value (10 * acc + (Z.of_N (code c) - 48)) r
      else None
  end.

End Str.

(** ** Python values, exceptions and name resolution *)

Module Py.

(** The values the engine handles: a status code is kept as the text the
    pattern matched (a [str]), and [int] turns it into a number. *)
Inductive value : Type :=
| PyNone
| PyInt (z : Z)
| PyStr (s : string)
| PyObject (qualname : string).

(** An entry of the list of failed commands: [(status_code, command)]. *)
Definition wrong_command : Type := value * string.

Inductive exn : Type :=
| NameError (name : string)
| AttributeError (attribute : string)
| ValueError (text : string)
| RecursionError
| ChannelError (what : string)
| CommandExecutionException (msg : string)
| FailedCommit (wrong_commands : list wrong_command).

Inductive result (A : Type) : Type :=
| Ok (a : A)
| Raise (e : exn).

Arguments Ok {A} a.
Arguments Raise {A} e.

(** The names bound at module level by [pyFG/fortios.py]: its imports,
    [logger] and the class. *)
Definition module_globals : list (string * value) :=
  [ ("unicode_literals", PyObject "__future__.unicode_literals");
    ("FortiConfig", PyObject "pyFG.forticonfig.FortiConfig");
    ("ConnectHandler", PyObject "netmiko.ConnectHandler");
    ("re", PyObject "re");
    ("os", PyObject "os");
    ("io", PyObject "io");
    ("Differ", PyObject "difflib.Differ");
    ("logging", PyObject "logging");
    ("logger", PyObject "logging.Logger");
    ("FortiOS", PyObject "pyFG.fortios.FortiOS") ].

(** The names of the [builtins] module. *)
Definition builtin_names : list string :=
  [ "ArithmeticError"; "AssertionError"; "AttributeError"; "BaseException";
    "BaseExceptionGroup"; "BlockingIOError"; "BrokenPipeError"; "BufferError";
    "BytesWarning"; "ChildProcessError"; "ConnectionAbortedError";
    "ConnectionError"; "ConnectionRefusedError"; "ConnectionResetError";
    "DeprecationWarning"; "EOFError"; "Ellipsis"; "EncodingWarning";
    "EnvironmentError"; "Exception"; "ExceptionGroup"; "False";
    "FileExistsError"; "FileNotFoundError"; "FloatingPointError";
    "FutureWarning"; "GeneratorExit"; "IOError"; "ImportError"; "ImportWarning";
    "IndentationError"; "IndexError"; "InterruptedError"; "IsADirectoryError";
    "KeyError"; "KeyboardInterrupt"; "LookupError"; "MemoryError";
    "ModuleNotFoundError"; "NameError"; "None"; "NotADirectoryError";
    "NotImplemented"; "NotImplementedError"; "OSError"; "OverflowError";
    "PendingDeprecationWarning"; "PermissionError"; "ProcessLookupError";
    "RecursionError"; "ReferenceError"; "ResourceWarning"; "RuntimeError";
    "RuntimeWarning"; "StopAsyncIteration"; "StopIteration"; "SyntaxError";
    "SyntaxWarning"; "SystemError"; "SystemExit"; "TabError"; "TimeoutError";
    "True"; "TypeError"; "UnboundLocalError"; "UnicodeDecodeError";
    "UnicodeEncodeError"; "UnicodeError"; "UnicodeTranslateError";
    "UnicodeWarning"; "UserWarning"; "ValueError"; "Warning";
    "ZeroDivisionError"; "__build_class__"; "__debug__"; "__doc__";
    "__import__"; "__loader__"; "__name__"; "__package__"; "__spec__"; "abs";
    "aiter"; "all"; "anext"; "any"; "ascii"; "bin"; "bool"; "breakpoint";
    "bytearray"; "bytes"; "callable"; "chr"; "classmethod"; "compile";
    "complex"; "copyright"; "credits"; "delattr"; "dict"; "dir"; "divmod";
    "enumerate"; "eval"; "exec"; "exit"; "filter"; "float"; "format";
    "frozenset"; "getattr"; "globals"; "hasattr"; "hash"; "help"; "hex"; "id";
    "input"; "int"; "isinstance"; "issubclass"; "iter"; "len"; "license";
    "list"; "locals"; "map"; "max"; "memoryview"; "min"; "next"; "object";
    "oct"; "open"; "ord"; "pow"; "print"; "property"; "quit"; "range"; "repr";
    "reversed"; "round"; "set"; "setattr"; "slice"; "sorted"; "staticmethod";
    "str"; "sum"; "super"; "tuple"; "type"; "vars"; "zip" ].

Definition builtins : list (string * value) :=
  map (fun n => (n, PyObject ("builtins." ++ n))) builtin_names.

Fixpoint assoc (name : string) (env : list (string * value)) : option value :=
  match env with
  | [] => None
  | (n, v) :: rest => if String.eqb n name then Some v else assoc name rest
  end.

(** Reading a name inside a function of the module: the local scope, then
    the module's globals, then the builtins; an unbound name raises. *)
Definition lookup (locals : list (string * value)) (name : string)
  : result value :=
  match assoc name (locals ++ module_globals ++ builtins) with
  | Some v => Ok v
  | None => Raise (NameError name)
  end.

(** [sys.int_info.default_max_str_digits]: the longest run of digits
    that [int] converts from a text. *)
Definition int_max_str_digits : Z := 4300.

(** The digits of a text: its characters, a leading minus apart. *)
Definition digit_count (s : string) : Z :=
  match s with
  | String c r =>
      if Ascii.eqb c "-" then Z.of_nat (String.length r)
      else Z.of_nat (String.length s)
  | EmptyString => 0
  end.

(** [int(v)] on an integer and on the texts [-?[0-9]+], the ones group 1
    of the lastlog pattern yields below U+0100; a text of more than
    [int_max_str_digits] digits raises [ValueError] (the limit CPython
    sets on the conversion, which does not count the sign).  Any other
    text is outside this model of [int] and is answered with
    [ValueError]. *)
Definition int (v : value) : result Z :=
  match v with
  | PyInt z => Ok z
  | PyStr s =>
      if int_max_str_digits <? digit_count s then Raise (ValueError s)
      else
        match s with
        | String c r =>
            if Ascii.eqb c "-" then
              match r, Str.digits_value 0 r with
              | String _ _, Some n => Ok (- n)
              | _, _ => Raise (ValueError s)
              end
            else
              match Str.digits_value 0 s with
              | Some n => Ok n
              | None => Raise (ValueError s)
              end
        | EmptyString => Raise (ValueError s)
        end
  | _ => Raise (ValueError EmptyString)
  end.

End Py.

Import Py.

(** ** The lastlog parser *)

(** *** Regular expressions, as [re] matches them

    The fragment the pattern of the parser needs: character classes with
    the greedy quantifiers [?], [*] and [+], concatenation and capturing
    groups.  Matching backtracks as [re] does: a greedy quantifier first
    takes all it can and gives characters back one at a time while what
    follows fails. *)
Inductive regex : Type :=
| Class (p : ascii -> bool)
| Optional (p : ascii -> bool)
| Many (p : ascii -> bool)
| Many1 (p : ascii -> bool)
| Cat (r1 r2 : regex)
| Capture (r : regex).

(** [p*] on [s]: the continuation [k] gets the text consumed, the rest
    and the groups closed so far; the longest run is tried first. *)
Fixpoint many {R : Type} (p : ascii -> bool) (s : string)
  (groups : list string)
  (k : string -> string -> list string -> option R) : option R :=
  match s with
  | String c s' =>
      if p c then
        match many p s' groups (fun t rest g => k (String c t) rest g) with
        | Some x => Some x
        | None => k EmptyString s groups
        end
      else k EmptyString s groups
  | EmptyString => k EmptyString s groups
  end.

Fixpoint run {R : Type} (r : regex) (s : string) (groups : list string)
  (k : string -> string -> list string -> option R) : option R :=
  match r with
  | Class p =>
      match s with
      | String c s' =>
          if p c then k (String c EmptyString) s' groups else None
      | EmptyString => None
      end
  | Optional p =>
      match s with
      | String c s' =>
          if p c then
            match k (String c EmptyString) s' groups with
            | Some x => Some x
            | None => k EmptyString s groups
            end
          else k EmptyString s groups
      | EmptyString => k EmptyString s groups
      end
  | Many p => many p s groups k
  | Many1 p =>
      match s with
      | String c s' =>
          if p c
          then many p s' groups (fun t rest g => k (String c t) rest g)
          else None
      | EmptyString => None
      end
  | Cat r1 r2 =>
      run r1 s groups
        (fun t1 rest g =>
           run r2 rest g (fun t2 rest' g' => k (t1 ++ t2) rest' g'))
  | Capture r0 =>
      run r0 s groups (fun t rest g => k t rest (g ++ [t])%list)
  end.

(** [r.match(s)]: the groups of the first match of [r] at the start of
    [s], if there is one. *)
Definition re_match (r : regex) (s : string) : option (list string) :=
  run r s [] (fun _ _ groups => Some groups).

(** The pattern of [_parse_batch_lastlog], written in [re] syntax as
    [( -? [0-9] \d* ) : \W+ ( .* )] without the spaces. *)
Definition regexp : regex :=
  Cat (Capture (Cat (Optional (Ascii.eqb "-"))
                 (Cat (Class Str.is_ascii_digit) (Many Str.is_digit))))
    (Cat (Class (Ascii.eqb ":"))
       (Cat (Many1 Str.is_nonword) (Capture (Many Str.is_dot)))).

(** [result = regexp.match(line)] with [result.group(1)] and
    [result.group(2)]. *)
Definition regexp_match (line : string) : option (string * string) :=
  match re_match regexp line with
  | Some [status_code; command] => Some (status_code, command)
  | _ => None
  end.

(** The same match computed in one pass: no quantifier of the pattern
    has to give characters back, since the run of digits must stop at
    the colon and the last group accepts whatever the run of [\W]
    leaves (lemma [regexp_match_scan]). *)
Definition scan_line (line : string) : option (string * string) :=
  let (sign, r0) :=                                  (* optional minus *)
    if Str.head_is (Ascii.eqb "-") line
    then ("-", Str.tail line)
    else (EmptyString, line) in
  match r0 with
  | String c r1 =>
      if Str.is_ascii_digit c then                   (* one ASCII digit *)
        let (ds, r2) := Str.span Str.is_digit r1 in  (* more digits *)
        if Str.head_is (Ascii.eqb ":") r2 then       (* colon *)
          let (sep, r4) :=                           (* non-word run *)
            Str.span Str.is_nonword (Str.tail r2) in
          if Str.is_empty sep then None
          else
            let (command, _) := Str.span Str.is_dot r4 in (* rest of the line *)
            Some (sign ++ String c ds, command)
        else None
      else None
  | EmptyString => None
  end.

(** The loop of [_parse_batch_lastlog] over the remaining lines, with the
    list built so far. *)
Fixpoint parse_lines (wrong_commands : list wrong_command)
  (last_log : list string) : result (list wrong_command) :=
  match last_log with
  | [] => Ok wrong_commands
  | line :: rest =>
      match regexp_match line with
      | Some (status_code, command) =>
          match int (PyStr status_code) with
          | Ok n =>
              if n <? 0
              then parse_lines
                     (wrong_commands ++ [(PyStr status_code, command)]) rest
              else parse_lines wrong_commands rest
          | Raise e => Raise e
          end
      | None => parse_lines wrong_commands rest
      end
  end.

Definition _parse_batch_lastlog (last_log : list string)
  : result (list wrong_command) :=
  parse_lines [] last_log.

(** *** The grammar as the specification words it

    Optional [-], digits, [:], whitespace, then the remaining line is the
    command text; the status code is an integer. *)

(** [\s] below U+0100. *)
Definition is_space (c : ascii) : bool :=
  Str.in_range 9 13 c || Str.in_range 28 32 c
  || (Str.code c =? 133)%N || (Str.code c =? 160)%N.

Definition spec_grammar_match (line : string) : option (Z * string) :=
  let (negative, r0) :=
    if Str.head_is (Ascii.eqb "-") line
    then (true, Str.tail line)
    else (false, line) in
  let (ds, r1) := Str.span Str.is_ascii_digit r0 in
  match Str.digits_value 0 ds with
  | Some n =>
      if Str.head_is (Ascii.eqb ":") r1 then
        let (ws, command) := Str.span is_space (Str.tail r1) in
        if Str.is_empty ds || Str.is_empty ws then None
        else Some (if negative then - n else n, command)
      else None
  | None => None
  end.

Fixpoint spec_parse_lastlog (lines : list string) : list (Z * string) :=
  match lines with
  | [] => []
  | line :: rest =>
      match spec_grammar_match line with
      | Some (n, command) =>
          if n <? 0 then (n, command) :: spec_parse_lastlog rest
          else spec_parse_lastlog rest
      | None => spec_parse_lastlog rest
      end
  end.

(** The result the specification announces for a log: the entries of its
    grammar, the status codes being integers. *)
Definition announced_parse (last_log : list string)
  : result (list wrong_command) :=
  Ok (map (fun e : Z * string => (PyInt (fst e), snd e))
          (spec_parse_lastlog last_log)).

(** *** What the pattern accepts, declaratively

    [line] is [sign ds ":" sep command rest] where [sign] is empty or a
    minus, [ds] is a non-empty run of digits, [sep] is a non-empty run of
    non-word characters that the next character does not extend, and
    [command] runs to the end of the line or to its first line feed. *)
Definition lastlog_entry (line status_code command : string) : Prop :=
  exists sign ds sep rest,
    line = sign ++ ds ++ String ":" (sep ++ command ++ rest)
    /\ status_code = sign ++ ds
    /\ (sign = EmptyString \/ sign = "-")
    /\ ds <> EmptyString /\ Str.forallb Str.is_digit ds = true
    /\ sep <> EmptyString /\ Str.forallb Str.is_nonword sep = true
    /\ Str.head_is Str.is_nonword (command ++ rest) = false
    /\ Str.forallb Str.is_dot command = true
    /\ Str.head_is Str.is_dot rest = false.

(** The failed commands of a log: one entry, in order, for each line that
    is a [lastlog_entry] with a negative code. *)
Inductive failed_entries : list string -> list wrong_command -> Prop :=
| failed_nil : failed_entries [] []
| failed_cons line status_code command n rest wrong_commands :
    lastlog_entry line status_code command ->
    int (PyStr status_code) = Ok n -> n < 0 ->
    failed_entries rest wrong_commands ->
    failed_entries (line :: rest) ((PyStr status_code, command) :: wrong_commands)
| failed_skip_success line status_code command n rest wrong_commands :
    lastlog_entry line status_code command ->
    int (PyStr status_code) = Ok n -> 0 <= n ->
    failed_entries rest wrong_commands ->
    failed_entries (line :: rest) wrong_commands
| failed_skip_other line rest wrong_commands :
    (forall status_code command, ~ lastlog_entry line status_code command) ->
    failed_entries rest wrong_commands ->
    failed_entries (line :: rest) wrong_commands.

(** A log whose matched status codes are all within the limit of
    [int]. *)
Definition short_codes (last_log : list string) : Prop :=
  Forall (fun line =>
            forall status_code command,
              lastlog_entry line status_code command ->
              digit_count status_code <= int_max_str_digits)
    last_log.

(** A line whose status code has one digit more than [int] converts. *)
Definition overlong_code : string :=
  String "-" (string_of_list_ascii (repeat "1"%char 4301)).

Definition overlong_line : string := overlong_code ++ ": set a 2".

(** ** The lastlog parser on any text

    [_parse_batch_lastlog] is a static method of the class and reads
    whatever lines it is given.  Here it is once more on texts of
    arbitrary code points; on the range U+0000..U+00FF it is the parser
    above (lemma [parse_lines_latin1]). *)

Module Unicode.

Local Open Scope list_scope.

(** A Python [str] as the list of its code points. *)
Definition text : Type := list N.

Fixpoint of_string (s : string) : text :=
  match s with
  | EmptyString => []
  | String c r => Str.code c :: of_string r
  end.

(** The character database of the interpreter ([unicodedata]) from U+0100
    on, where it depends on the version of Unicode: the value of a
    decimal digit (the characters [\d] matches and [int] reads), and
    whether a character is alphanumeric ([str.isalnum]). *)
Record database : Type := {
  decimal : N -> option Z;
  alnum : N -> bool
}.

Definition minus : N := Str.code "-".
Definition colon : N := Str.code ":".

Definition in_range (lo hi c : N) : bool := ((lo <=? c) && (c <=? hi))%N.

(** [[0-9]] *)
Definition is_ascii_digit (c : N) : bool := in_range 48 57 c.

(** [.] without DOTALL *)
Definition is_dot (c : N) : bool := negb (c =? 10)%N.

(** The longest prefix whose characters satisfy [p], and what follows. *)
Fixpoint span (p : N -> bool) (t : text) : text * text :=
  match t with
  | [] => ([], [])
  | c :: r =>
      if p c then let (a, b) := span p r in (c :: a, b)
      else ([], t)
  end.

Definition head_is (p : N -> bool) (t : text) : bool :=
  match t with
  | [] => false
  | c :: _ => p c
  end.

Definition is_empty (t : text) : bool :=
  match t with [] => true | _ :: _ => false end.

(** Regular expressions on texts, matched as above. *)
Inductive regex : Type :=
| Class (p : N -> bool)
| Optional (p : N -> bool)
| Many (p : N -> bool)
| Many1 (p : N -> bool)
| Cat (r1 r2 : regex)
| Capture (r : regex).

Fixpoint many {R : Type} (p : N -> bool) (t : text) (groups : list text)
  (k : text -> text -> list text -> option R) : option R :=
  match t with
  | c :: t' =>
      if p c then
        match many p t' groups (fun m rest g => k (c :: m) rest g) with
        | Some x => Some x
        | None => k [] t groups
        end
      else k [] t groups
  | [] => k [] t groups
  end.

Fixpoint run {R : Type} (r : regex) (t : text) (groups : list text)
  (k : text -> text -> list text -> option R) : option R :=
  match r with
  | Class p =>
      match t with
      | c :: t' => if p c then k [c] t' groups else None
      | [] => None
      end
  | Optional p =>
      match t with
      | c :: t' =>
          if p c then
            match k [c] t' groups with
            | Some x => Some x
            | None => k [] t groups
            end
          else k [] t groups
      | [] => k [] t groups
      end
  | Many p => many p t groups k
  | Many1 p =>
      match t with
      | c :: t' =>
          if p c
          then many p t' groups (fun m rest g => k (c :: m) rest g)
          else None
      | [] => None
      end
  | Cat r1 r2 =>
      run r1 t groups
        (fun m1 rest g =>
           run r2 rest g (fun m2 rest' g' => k (m1 ++ m2) rest' g'))
  | Capture r0 =>
      run r0 t groups (fun m rest g => k m rest (g ++ [m]))
  end.

Definition re_match (r : regex) (t : text) : option (list text) :=
  run r t [] (fun _ _ groups => Some groups).

(** The limit of [int] counts the digits of a text: its characters, a
    leading minus apart. *)
Definition digit_count (t : text) : Z :=
  match t with
  | c :: r =>
      if (c =? minus)%N then Z.of_nat (length r) else Z.of_nat (length t)
  | [] => 0
  end.

(** What the parser does with a log: it returns, or the [int] of a
    status code raises [ValueError]. *)
Inductive outcome (A : Type) : Type :=
| Returns (a : A)
| Raises_ValueError (status_code : text).

Arguments Returns {A} a.
Arguments Raises_ValueError {A} status_code.

(** An entry of the list of failed commands: [(status_code, command)]. *)
Definition wrong_command : Type := text * text.

(** The texts of an entry of the parser above. *)
Definition of_wrong_command (w : Py.wrong_command) : wrong_command :=
  (match fst w with PyStr status_code => of_string status_code | _ => [] end,
   of_string (snd w)).

(** The outcome of the parser above, as texts. *)
Definition of_result (r : result (list Py.wrong_command))
  : outcome (list wrong_command) :=
  match r with
  | Ok wrong_commands => Returns (map of_wrong_command wrong_commands)
  | Raise e =>
      Raises_ValueError
        (match e with Py.ValueError t => of_string t | _ => [] end)
  end.

Section Parser.

Variable db : database.

(** The value [int] gives a decimal digit. *)
Definition digit_value (c : N) : option Z :=
  if (c <? 256)%N then
    if is_ascii_digit c then Some (Z.of_N c - 48) else None
  else decimal db c.

(** [\d]: the decimal digits. *)
Definition is_digit (c : N) : bool :=
  match digit_value c with
  | Some _ => true
  | None => false
  end.

(** [\w]: alphanumeric characters and the underscore. *)
Definition is_word (c : N) : bool :=
  if (c <? 256)%N then
    in_range 48 57 c || in_range 65 90 c || in_range 97 122 c
    || (c =? 95)%N
    || (c =? 170)%N || (c =? 178)%N || (c =? 179)%N
    || (c =? 181)%N || (c =? 185)%N || (c =? 186)%N
    || in_range 188 190 c || in_range 192 214 c || in_range 216 246 c
    || in_range 248 255 c
  else alnum db c.

(** [\W] *)
Definition is_nonword (c : N) : bool := negb (is_word c).

(** The pattern of [_parse_batch_lastlog]: [( -? [0-9] \d* ) : \W+ ( .* )]
    without the spaces. *)
Definition regexp : regex :=
  Cat (Capture (Cat (Optional (N.eqb minus))
                 (Cat (Class is_ascii_digit) (Many is_digit))))
    (Cat (Class (N.eqb colon))
       (Cat (Many1 is_nonword) (Capture (Many is_dot)))).

Definition regexp_match (line : text) : option (text * text) :=
  match re_match regexp line with
  | Some [status_code; command] => Some (status_code, command)
  | _ => None
  end.

(** The same match in one pass (lemma [text_regexp_match_scan]). *)
Definition scan_line (line : text) : option (text * text) :=
  let (sign, r0) :=
    if head_is (N.eqb minus) line then ([minus], tl line) else ([], line) in
  match r0 with
  | c :: r1 =>
      if is_ascii_digit c then
        let (ds, r2) := span is_digit r1 in
        if head_is (N.eqb colon) r2 then
          let (sep, r4) := span is_nonword (tl r2) in
          if is_empty sep then None
          else
            let (command, _) := span is_dot r4 in
            Some (sign ++ c :: ds, command)
        else None
      else None
  | [] => None
  end.

(** The value of a run of decimal digits read in base ten. *)
Fixpoint digits_value (acc : Z) (t : text) : option Z :=
  match t with
  | [] => Some acc
  | c :: r =>
      match digit_value c with
      | Some d => digits_value (10 * acc + d) r
      | None => None
      end
  end.

(** [int(t)] on the texts group 1 of the pattern yields: an optional
    minus and decimal digits, at most [int_max_str_digits] of them. *)
Definition int (t : text) : outcome Z :=
  if int_max_str_digits <? digit_count t then Raises_ValueError t
  else
    match t with
    | c :: r =>
        if (c =? minus)%N then
          match r, digits_value 0 r with
          | _ :: _, Some n => Returns (- n)
          | _, _ => Raises_ValueError t
          end
        else
          match digits_value 0 t with
          | Some n => Returns n
          | None => Raises_ValueError t
          end
    | [] => Raises_ValueError t
    end.

Fixpoint parse_lines (wrong_commands : list wrong_command)
  (last_log : list text) : outcome (list wrong_command) :=
  match last_log with
  | [] => Returns wrong_commands
  | line :: rest =>
      match regexp_match line with
      | Some (status_code, command) =>
          match int status_code with
          | Returns n =>
              if n <? 0
              then parse_lines (wrong_commands ++ [(status_code, command)]) rest
              else parse_lines wrong_commands rest
          | Raises_ValueError t => Raises_ValueError t
          end
      | None => parse_lines wrong_commands rest
      end
  end.

Definition _parse_batch_lastlog (last_log : list text)
  : outcome (list wrong_command) :=
  parse_lines [] last_log.

(** What the pattern accepts: [line] is [sign d ds ":" sep command rest]
    where [sign] is empty or a minus, [d] is one of [0] to [9], [ds] is a
    run of decimal digits of any script, [sep] is a non-empty run of
    non-word characters that the next character does not extend, and
    [command] runs to the end of the line or to its first line feed. *)
Definition lastlog_entry (line status_code command : text) : Prop :=
  exists sign d ds sep rest,
    line = sign ++ d :: ds ++ colon :: sep ++ command ++ rest
    /\ status_code = sign ++ d :: ds
    /\ (sign = [] \/ sign = [minus])
    /\ is_ascii_digit d = true
    /\ forallb is_digit ds = true
    /\ sep <> [] /\ forallb is_nonword sep = true
    /\ head_is is_nonword (command ++ rest) = false
    /\ forallb is_dot command = true
    /\ head_is is_dot rest = false.

(** The failed commands of a log: one entry, in order, for each line that
    is a [lastlog_entry] with a negative code. *)
Inductive failed_entries : list text -> list wrong_command -> Prop :=
| failed_nil : failed_entries [] []
| failed_cons line status_code command n rest wrong_commands :
    lastlog_entry line status_code command ->
    int status_code = Returns n -> n < 0 ->
    failed_entries rest wrong_commands ->
    failed_entries (line :: rest) ((status_code, command) :: wrong_commands)
| failed_skip_success line status_code command n rest wrong_commands :
    lastlog_entry line status_code command ->
    int status_code = Returns n -> 0 <= n ->
    failed_entries rest wrong_commands ->
    failed_entries (line :: rest) wrong_commands
| failed_skip_other line rest wrong_commands :
    (forall status_code command, ~ lastlog_entry line status_code command) ->
    failed_entries rest wrong_commands ->
    failed_entries (line :: rest) wrong_commands.

(** A log whose matched status codes are all within the limit of
    [int]. *)
Definition short_codes (last_log : list text) : Prop :=
  Forall (fun line =>
            forall status_code command,
              lastlog_entry line status_code command ->
              digit_count status_code <= int_max_str_digits)
    last_log.

End Parser.

End Unicode.

(** ** The external collaborators *)

(** What the session answers to a command: the full text of the reply, or
    a failure of the transport (a timeout, a closed connection). *)
Inductive reply : Type :=
| Output (text : string)
| Broken (what : string).

(** The interactive session ([netmiko]'s connection object). *)
Class CommandChannel (Dev : Type) : Type := {
  send_command : Dev -> string -> reply * Dev
}.

(** The configuration tree and its parsing, diffing and rendering; [differ]
    is [difflib.Differ().compare]. *)
Class ConfigTree (Tree : Type) : Type := {
  empty_tree : Tree;
  parse : Tree -> list string -> Tree;
  diff : Tree -> Tree -> string;
  render : Tree -> string;
  differ : list string -> list string -> list string
}.

(** Modelled from the spec: class [FortiConfig] of [pyFG/forticonfig.py],
    which is not among the sources.  A configuration state has a name, a
    scope, a tree and the set of paths it was populated from. *)
Record FortiConfig (Tree : Type) : Type := {
  cfg_name : string;
  cfg_vdom : option string;
  cfg_tree : Tree;
  cfg_paths : list string
}.

Arguments cfg_name {Tree} _.
Arguments cfg_vdom {Tree} _.
Arguments cfg_tree {Tree} _.
Arguments cfg_paths {Tree} _.

(** A reference to a [FortiConfig] object: its index in the store. *)
Definition ref : Type := nat.

(** The session object: the attributes [__init__] assigns, the store of
    the [FortiConfig] objects it refers to, and the commands sent over the
    session so far, oldest first. *)
Record FortiOS (Dev Tree : Type) : Type := {
  host : value;
  vdom : option string;
  original_config : option ref;
  running_config : ref;
  candidate_config : ref;
  ssh : option Dev;
  username : string;
  password : string;
  device_type : string;
  timeout : Z;
  store : list (FortiConfig Tree);
  sent : list string
}.

Arguments host {Dev Tree} _.
Arguments vdom {Dev Tree} _.
Arguments original_config {Dev Tree} _.
Arguments running_config {Dev Tree} _.
Arguments candidate_config {Dev Tree} _.
Arguments ssh {Dev Tree} _.
Arguments username {Dev Tree} _.
Arguments password {Dev Tree} _.
Arguments device_type {Dev Tree} _.
Arguments timeout {Dev Tree} _.
Arguments store {Dev Tree} _.
Arguments sent {Dev Tree} _.

Section Engine.

Context {Dev : Type} {channel : CommandChannel Dev}.
Context {Tree : Type} {tree_ops : ConfigTree Tree}.

Abbreviation Config := (FortiConfig Tree).
Abbreviation Session := (FortiOS Dev Tree).

(** *** [FortiConfig] operations (modelled from the spec) *)

(** Modelled from the spec: [FortiConfig(name, vdom=vdom)], an empty tree
    with no path loaded. *)
Definition new_config (name : string) (vd : option string) : Config :=
  {| cfg_name := name; cfg_vdom := vd;
     cfg_tree := empty_tree; cfg_paths := [] |}.

(** Modelled from the spec: [set_name]. *)
Definition set_name (name : string) (c : Config) : Config :=
  {| cfg_name := name; cfg_vdom := cfg_vdom c;
     cfg_tree := cfg_tree c; cfg_paths := cfg_paths c |}.

(** Modelled from the spec: [parse_config_output], the tree's [parse]
    merging the text into the state. *)
Definition parse_config_output (text : list string) (c : Config) : Config :=
  {| cfg_name := cfg_name c; cfg_vdom := cfg_vdom c;
     cfg_tree := parse (cfg_tree c) text; cfg_paths := cfg_paths c |}.

(** Modelled from the spec: [add_path] records the path in the set of
    loaded paths. *)
Definition add_path (path : string) (c : Config) : Config :=
  {| cfg_name := cfg_name c; cfg_vdom := cfg_vdom c;
     cfg_tree := cfg_tree c;
     cfg_paths := if existsb (String.eqb path) (cfg_paths c)
                  then cfg_paths c else cfg_paths c ++ [path] |}.

(** Modelled from the spec: [a.compare_config(b)] is [a.tree.diff(b.tree)]. *)
Definition config_compare (a b : Config) : string :=
  diff (cfg_tree a) (cfg_tree b).

(** Modelled from the spec: [to_text] renders the tree. *)
Definition to_text (c : Config) : string := render (cfg_tree c).

(** *** The monad of methods *)

Definition M (A : Type) : Type := Session -> result A * Session.

Definition ret {A : Type} (a : A) : M A := fun s => (Ok a, s).

Definition raise {A : Type} (e : exn) : M A := fun s => (Raise e, s).

Definition bind {A B : Type} (m : M A) (k : A -> M B) : M B :=
  fun s =>
    match m s with
    | (Ok a, s') => k a s'
    | (Raise e, s') => (Raise e, s')
    end.

Notation "'let*' x ':=' m 'in' k" := (bind m (fun x => k))
  (at level 10, x name, m at level 100, k at level 200).
Notation "m '>>' k" := (bind m (fun _ => k))
  (at level 100, k at level 200, right associativity).

Definition gets {A : Type} (f : Session -> A) : M A := fun s => (Ok (f s), s).

Definition lift {A : Type} (r : result A) : M A := fun s => (r, s).

Definition when (b : bool) (m : M unit) : M unit :=
  if b then m else ret tt.

Fixpoint for_each {A : Type} (l : list A) (body : A -> M unit) : M unit :=
  match l with
  | [] => ret tt
  | x :: rest => body x >> for_each rest body
  end.

(** *** Attribute assignment *)

Definition with_store (h : list Config) (s : Session) : Session :=
  {| host := host s; vdom := vdom s; original_config := original_config s;
     running_config := running_config s;
     candidate_config := candidate_config s; ssh := ssh s;
     username := username s; password := password s;
     device_type := device_type s; timeout := timeout s;
     store := h; sent := sent s |}.

Definition with_original_config (o : option ref) (s : Session) : Session :=
  {| host := host s; vdom := vdom s; original_config := o;
     running_config := running_config s;
     candidate_config := candidate_config s; ssh := ssh s;
     username := username s; password := password s;
     device_type := device_type s; timeout := timeout s;
     store := store s; sent := sent s |}.

Definition with_running_config (r : ref) (s : Session) : Session :=
  {| host := host s; vdom := vdom s; original_config := original_config s;
     running_config := r;
     candidate_config := candidate_config s; ssh := ssh s;
     username := username s; password := password s;
     device_type := device_type s; timeout := timeout s;
     store := store s; sent := sent s |}.

(** The session after [command] went over it. *)
Definition with_channel (d : Dev) (command : string) (s : Session) : Session :=
  {| host := host s; vdom := vdom s; original_config := original_config s;
     running_config := running_config s;
     candidate_config := candidate_config s; ssh := Some d;
     username := username s; password := password s;
     device_type := device_type s; timeout := timeout s;
     store := store s; sent := sent s ++ [command] |}.

(** The object a reference names.  References held by a session always
    name an object of its store; outside it the answer is an empty
    configuration. *)
Definition deref (h : list Config) (r : ref) : Config :=
  default (new_config EmptyString None) (h !! r).

(** A method call on the object [r] names that changes it in place. *)
Definition update_config (r : ref) (f : Config -> Config) : M unit :=
  fun s => (Ok tt, with_store (alter f r (store s)) s).

(** A new object, stored at the next free reference. *)
Definition alloc (c : Config) : M ref :=
  fun s => (Ok (length (store s)), with_store (store s ++ [c]) s).

Definition set_original_config (o : option ref) : M unit :=
  fun s => (Ok tt, with_original_config o s).

Definition set_running_config (r : ref) : M unit :=
  fun s => (Ok tt, with_running_config r s).

(** Reading the global name [exceptions] inside a method: [self] and the
    method's own variables are the local scope. *)
Definition exceptions_module (locals : list string) : M value :=
  lift (lookup (map (fun n => (n, PyNone)) locals) "exceptions").

(** *** [FortiOS.__init__] *)

Definition __init__ (hostname username_ password_ : string)
  (vdom_ : option string) (device_type_ : string) (timeout_ : Z)
  : result Session :=
  let locals :=
    [ ("self", PyObject "FortiOS");
      ("hostname", PyStr hostname);
      ("username", PyStr username_);
      ("password", PyStr password_);
      ("vdom", match vdom_ with Some v => PyStr v | None => PyNone end);
      ("device_type", PyStr device_type_);
      ("timeout", PyInt timeout_) ] in
  match lookup locals "host" with
  | Raise e => Raise e
  | Ok host_ =>
      Ok {| host := host_;
            vdom := vdom_;
            original_config := None;
            running_config := 0%nat;
            candidate_config := 1%nat;
            ssh := None;
            username := username_;
            password := password_;
            device_type := device_type_;
            timeout := timeout_;
            store := [new_config "running" vdom_;
                      new_config "candidate" vdom_];
            sent := [] |}
  end.

(** *** [execute_command] *)

Definition execute_command (command : string) : M (list string) :=
  fun s =>
    let err_msg := "Something happened when executing some commands on device" in
    match ssh s with
    | None => (Raise (AttributeError "send_command"), s)
    | Some d =>
        let (answer, d') := send_command d command in
        let s' := with_channel d' command s in
        match answer with
        | Broken what => (Raise (ChannelError what), s')
        | Output output =>
            if Str.contains "Command fail" output then
              let msg := err_msg ++ ":" ++ Str.nl ++ command ++ Str.nl ++ output in
              (exceptions_module
                 ["self"; "command"; "err_msg"; "output"; "regex"; "msg"] >>
               raise (CommandExecutionException msg)) s'
            else (Ok (Str.splitlines output), s')
        end
    end.

(** *** [load_config] *)

(** The read command for [path] under the session's scope. *)
Definition show_command (vd : option string) (path : string) : string :=
  match vd with
  | Some v =>
      if String.eqb v "global"
      then "conf global" ++ Str.nl ++ "show " ++ path ++ Str.nl ++ "end"
      else "conf vdom" ++ Str.nl ++ "edit " ++ v ++ Str.nl
           ++ "show " ++ path ++ Str.nl ++ "end"
  | None => "show " ++ path
  end.

Definition load_config (path : string) (in_candidate empty_candidate : bool)
  (config_text : option (list string)) : M unit :=
  let* config_text :=
    match config_text with
    | None =>
        let* vd := gets vdom in
        execute_command (show_command vd path)
    | Some text => ret text
    end in
  when (negb in_candidate)
    (let* running := gets running_config in
     update_config running (parse_config_output config_text) >>
     update_config running (add_path path)) >>
  when (negb empty_candidate || in_candidate)
    (let* candidate := gets candidate_config in
     update_config candidate (parse_config_output config_text) >>
     update_config candidate (add_path path)).

(** *** [compare_config] *)

Definition compare_config (other : option ref) (text : bool) : M string :=
  let* candidate := gets candidate_config in
  let other := match other with None => candidate | Some o => o end in
  let* running := gets running_config in
  let* h := gets store in
  if negb text then ret (config_compare (deref h running) (deref h other))
  else
    ret (Str.join_lines
           (differ (Str.splitlines (to_text (deref h running)))
                   (Str.splitlines (to_text (deref h other))))).

(** *** [_reload_config] *)

Definition _reload_config (reload_original_config : bool) : M unit :=
  when reload_original_config
    (let* running := gets running_config in
     set_original_config (Some running) >>
     update_config running (set_name "original")) >>
  let* running := gets running_config in
  let* h := gets store in
  let paths := cfg_paths (deref h running) in
  let* vd := gets vdom in
  let* fresh := alloc (new_config "running" vd) in
  set_running_config fresh >>
  for_each paths (fun path => load_config path false true None).

(** *** [_commit] and [rollback] *)

(** The scope prefix [pre] of [_execute]. *)
Definition batch_pre (vd : option string) : string :=
  match vd with
  | None => EmptyString
  | Some v => "conf global" ++ Str.nl ++ "    "
  end.

(** The line [config_vdom] of [_execute]. *)
Definition batch_config_vdom (vd : option string) : string :=
  match vd with
  | None => EmptyString
  | Some v =>
      if negb (Str.contains "global" v)
      then "conf vdom" ++ Str.nl ++ "  edit " ++ v ++ Str.nl
      else EmptyString
  end.

(** The batch script [cmd] of [_execute]. *)
Definition batch_cmd (vd : option string) (config_text : string) : string :=
  batch_pre vd ++ "execute batch start" ++ Str.nl
  ++ batch_config_vdom vd
  ++ config_text
  ++ Str.nl ++ "execute batch end" ++ Str.nl.

Definition lastlog_cmd (vd : option string) : string :=
  batch_pre vd ++ "execute batch lastlog".

(** The local function [_execute] of [_commit]. *)
Definition _execute (config_text : option string)
  : M (list wrong_command) :=
  let* config_text :=
    match config_text with
    | None => compare_config None false
    | Some text => ret text
    end in
  let* vd := gets vdom in
  execute_command (batch_cmd vd config_text) >>
  let* last_log := execute_command (lastlog_cmd vd) in
  lift (_parse_batch_lastlog last_log).

Definition retry_codes : list Z := [-3; -23].

(** The scan [for wc in wrong_commands: if int(wc[0]) in retry_codes]:
    whether some entry is retryable, reading the codes in order up to the
    first retryable one. *)
Fixpoint find_retryable (wrong_commands : list wrong_command) : result bool :=
  match wrong_commands with
  | [] => Ok false
  | wc :: rest =>
      match int (fst wc) with
      | Raise e => Raise e
      | Ok n =>
          if existsb (Z.eqb n) retry_codes then Ok true
          else find_retryable rest
      end
  end.

(** The loop [while retries > 0] of [_commit]; [config_text] and
    [wrong_commands] are the variables of [_commit] it assigns. *)
Fixpoint retry_loop (retries : nat) (config_text : option string)
  (wrong_commands : list wrong_command) : M (list wrong_command) :=
  match retries with
  | O => ret wrong_commands
  | S retries' =>
      let* retryable := lift (find_retryable wrong_commands) in
      if (retryable : bool) then
        let* text :=
          match config_text with
          | None => compare_config None false
          | Some text => ret text
          end in
        let* wrong_commands' := _execute (Some text) in
        _reload_config false >>
        retry_loop retries' (Some text) wrong_commands'
      else retry_loop retries' config_text wrong_commands
  end.

(** The first attempt, the reload and the retries: everything [_commit]
    does before it looks at the failures that remain. *)
Definition commit_attempts (config_text : option string)
  (reload_original_config : bool) : M (list wrong_command) :=
  let* wrong_commands := _execute config_text in
  _reload_config reload_original_config >>
  retry_loop 5 config_text wrong_commands.

(** The branch [if len(wrong_commands) > 0] of [_commit]: the rollback
    unless the commit is forced, then the error. *)
Definition commit_failed (rollback : M unit) (force : bool)
  (wrong_commands : list wrong_command) : M unit :=
  let* exit_code :=
    (if negb force then rollback >> ret (-1) else ret (-2)) in
  when (exit_code <? 0)
    (exceptions_module
       ["self"; "config_text"; "force"; "reload_original_config";
        "_execute"; "wrong_commands"; "retry_codes"; "retries";
        "wc"; "exit_code"] >>
     raise (FailedCommit wrong_commands)).

(** The end of [_commit]: what happens with the failures that remain. *)
Definition failure_handling (rollback : M unit) (force : bool)
  (wrong_commands : list wrong_command) : M unit :=
  when (0 <? Z.of_nat (length wrong_commands))
    (commit_failed rollback force wrong_commands).

Definition commit_body (rollback : M unit) (config_text : option string)
  (force reload_original_config : bool) : M unit :=
  let* wrong_commands := commit_attempts config_text reload_original_config in
  failure_handling rollback force wrong_commands.

Definition rollback_body (_commit : option string -> bool -> bool -> M unit)
  : M unit :=
  let* original := gets original_config in
  let* config_text := compare_config original false in
  when (0 <? Z.of_nat (String.length config_text))
    (_commit (Some config_text) true false).

(** [_commit] and [rollback] call each other; [depth] bounds the nesting
    of the calls, as the interpreter's recursion limit does. *)
Fixpoint _commit_at (depth : nat) (config_text : option string)
  (force reload_original_config : bool) : M unit :=
  match depth with
  | O => raise RecursionError
  | S depth' =>
      commit_body (rollback_body (_commit_at depth'))
        config_text force reload_original_config
  end.

(** A commit started by [commit] nests at most two calls of [_commit]: its
    own and the one of the rollback, which is forced and rolls back no
    further (lemma [_commit_at_depth]). *)
Definition _commit : option string -> bool -> bool -> M unit :=
  _commit_at 2.

Definition rollback : M unit := rollback_body _commit.

Definition commit (config_text : option string) (force : bool) : M unit :=
  _commit config_text force true.

(** *** Observations *)

(** A batch script: what [_execute] sends first. *)
Definition is_batch_start (command : string) : bool :=
  Str.starts_with ("execute batch start" ++ Str.nl) command
  || Str.starts_with
       ("conf global" ++ Str.nl ++ "    execute batch start" ++ Str.nl)
       command.

(** The number of batch executions among the commands sent. *)
Definition batch_executions (s : Session) : nat :=
  length (filter (fun c => is_batch_start c = true) (sent s)).

(** Tree and recorded paths of the object a reference names. *)
Definition content (h : list Config) (r : ref) : Tree * list string :=
  (cfg_tree (deref h r), cfg_paths (deref h r)).

(** What a method may do to the session between [s] and [s']: the scope
    and the candidate reference stay, the objects of the store keep their
    tree and paths and new ones are only added, an open session stays
    open, and at most [k] batch scripts are sent.  When [strict], the
    snapshot reference and every object of the store stay as they are. *)
Record frame (strict : bool) (k : nat) (s s' : Session) : Prop := {
  frame_vdom : vdom s' = vdom s;
  frame_candidate : candidate_config s' = candidate_config s;
  frame_length : (length (store s) <= length (store s'))%nat;
  frame_content : forall r : ref,
    (r < length (store s))%nat ->
    content (store s') r = content (store s) r;
  frame_strict : strict = true ->
    original_config s' = original_config s
    /\ forall r : ref, (r < length (store s))%nat ->
         store s' !! r = store s !! r;
  frame_open : is_Some (ssh s) -> is_Some (ssh s');
  frame_batches :
    (batch_executions s <= batch_executions s'
     /\ batch_executions s' <= batch_executions s + k)%nat
}.

(** The snapshot step of [_reload_config]: the running object becomes the
    original one and is renamed. *)
Definition take_snapshot (s : Session) : Session :=
  with_store (alter (set_name "original") (running_config s) (store s))
    (with_original_config (Some (running_config s)) s).

(** What the reads of [_reload_config] do: they fill the object that
    [running_config] names and nothing else. *)
Record loads_into (s s' : Session) : Prop := {
  loads_vdom : vdom s' = vdom s;
  loads_candidate : candidate_config s' = candidate_config s;
  loads_original : original_config s' = original_config s;
  loads_running : running_config s' = running_config s;
  loads_length : length (store s') = length (store s);
  loads_others : forall r : ref,
    r <> running_config s -> store s' !! r = store s !! r;
  loads_open : is_Some (ssh s) -> is_Some (ssh s');
  loads_batches : batch_executions s' = batch_executions s
}.

(** Every run of [m] stays within [frame strict k]. *)
Definition respects {A : Type} (strict : bool) (k : nat) (m : M A) : Prop :=
  forall s r s', m s = (r, s') -> frame strict k s s'.

(** The states the device can be in once the commands of a session
    that found it in the state [d0] have gone over it. *)
Inductive reachable (d0 : Dev) : Dev -> Prop :=
| reachable_refl : reachable d0 d0
| reachable_step d command :
    reachable d0 d -> reachable d0 (snd (send_command d command)).

(** The session is open on a device whose state satisfies [inv]. *)
Definition connected (inv : Dev -> Prop) (s : Session) : Prop :=
  exists d, ssh s = Some d /\ inv d.

(** In the states that satisfy [inv] the device answers every command,
    and never with [Command fail]. *)
Definition quiet_on (inv : Dev -> Prop) : Prop :=
  forall (d : Dev) (command : string),
    inv d ->
    exists output d',
      send_command d command = (Output output, d')
      /\ Str.contains "Command fail" output = false.

(** In the states that satisfy [inv] every batch lastlog of the device
    has exactly one failing entry, and that one with status code
    [code]. *)
Definition lastlog_on (inv : Dev -> Prop) (code : Z) : Prop :=
  forall (d : Dev) (vd : option string) (output : string) (d' : Dev),
    inv d ->
    send_command d (lastlog_cmd vd) = (Output output, d') ->
    exists status_code command,
      _parse_batch_lastlog (Str.splitlines output)
        = Ok [(PyStr status_code, command)]
      /\ int (PyStr status_code) = Ok code.

(** A device that answers every command, and never with [Command fail]. *)
Definition quiet_device : Prop :=
  forall (d : Dev) (command : string),
    exists output d',
      send_command d command = (Output output, d')
      /\ Str.contains "Command fail" output = false.

End Engine.

(** ** A scripted device and a small tree, to run the engine *)

(** The replies a scripted device still has to give: to the lastlog
    queries and to the reads, in order. *)
Record scripted : Type := {
  lastlogs : list string;
  shows : list string
}.

Definition scripted_send (d : scripted) (command : string)
  : reply * scripted :=
  if Str.contains "execute batch lastlog" command then
    match lastlogs d with
    | r :: rest => (Output r, {| lastlogs := rest; shows := shows d |})
    | [] => (Output EmptyString, d)
    end
  else if Str.contains "execute batch start" command then
    (Output EmptyString, d)
  else
    match shows d with
    | r :: rest => (Output r, {| lastlogs := lastlogs d; shows := rest |})
    | [] => (Output EmptyString, d)
    end.

#[export] Instance scripted_channel : CommandChannel scripted :=
  {| send_command := scripted_send |}.

(** A device that answers every lastlog query with the same text and
    everything else with nothing. *)
Definition stubborn_send (answer : string) (d : unit) (command : string)
  : reply * unit :=
  if String.eqb command "execute batch lastlog"
     || String.eqb command
          ("conf global" ++ Str.nl ++ "    execute batch lastlog")
  then (Output answer, d)
  else (Output EmptyString, d).

Definition stubborn_channel (answer : string) : CommandChannel unit :=
  {| send_command := stubborn_send answer |}.

(** Trees as lists of configuration lines; the diff names both sides. *)
Definition lines_diff (a b : list string) : string :=
  if List.list_eq_dec string_dec a b then EmptyString
  else "replace [" ++ String.concat "," a
       ++ "] by [" ++ String.concat "," b ++ "]".

#[export] Instance lines_tree : ConfigTree (list string) := {|
  empty_tree := [];
  parse := fun t text => app t text;
  diff := lines_diff;
  render := fun t => String.concat Str.nl t;
  differ := fun a b => app a b
|}.

(** A session with running configuration [set a 1] and candidate
    [set a 2], both loaded from the path [system]. *)
Definition example_session {Dev : Type} (vd : option string) (d : Dev)
  : FortiOS Dev (list string) :=
  {| host := PyStr "fw1"; vdom := vd; original_config := None;
     running_config := 0%nat; candidate_config := 1%nat;
     ssh := Some d; username := "admin"; password := "secret";
     device_type := "fortinet"; timeout := 60;
     store := [ {| cfg_name := "running"; cfg_vdom := vd;
                   cfg_tree := ["set a 1"]; cfg_paths := ["system"] |};
                {| cfg_name := "candidate"; cfg_vdom := vd;
                   cfg_tree := ["set a 2"]; cfg_paths := ["system"] |} ];
     sent := [] |}.

(** The session of scenario C: the batch fails with the permanent code
    [-5]; the device then shows [set a 3], and accepts the rollback. *)
Definition scenario_C : FortiOS scripted (list string) :=
  example_session None
    {| lastlogs := ["-5: set a 2"; "0: set a 1"];
       shows := ["set a 3"; "set a 1"] |}.

(** Scenario C after a forced commit: the snapshot is taken and the
    running configuration differs from it. *)
Definition after_failed_commit : FortiOS scripted (list string) :=
  snd (commit None true scenario_C).

(** A device that fails twice with the transient code [-3] and shows a
    different running configuration after each attempt. *)
Definition scenario_two_retries : FortiOS scripted (list string) :=
  example_session None
    {| lastlogs := ["-3: set a 2"; "-3: set a 2"; "0: set a 2"];
       shows := ["set a 3"; "set a 4"; "set a 5"] |}.

(** The session [scenario_two_retries] after the first attempt, its reload
    and one retry with its reload. *)
Definition after_first_retry : FortiOS scripted (list string) :=
  snd (bind (_execute None)
         (fun wrong_commands =>
            bind (_reload_config true)
              (fun _ => retry_loop 1 None wrong_commands))
         scenario_two_retries).

(** A session scoped to a vdom whose name contains the text [global]. *)
Definition scenario_named_vdom : FortiOS scripted (list string) :=
  example_session (Some "global-dmz")
    {| lastlogs := ["0: set a 2"]; shows := [] |}.

(** A session on the device that always answers the lastlog query with
    one [-3] failure. *)
Definition stubborn_session : FortiOS unit (list string) :=
  example_session (Some "root") tt.

(** The batch script as the specification frames it: the scope is global
    for the vdom [global], and the vdom is entered for any other name. *)
Definition announced_batch_script (vd : option string) (config_text : string)
  : string :=
  match vd with
  | None =>
      "execute batch start" ++ Str.nl ++ config_text
      ++ Str.nl ++ "execute batch end" ++ Str.nl
  | Some v =>
      if String.eqb v "global" then
        "conf global" ++ Str.nl ++ "    execute batch start" ++ Str.nl
        ++ config_text ++ Str.nl ++ "execute batch end" ++ Str.nl
      else
        "conf global" ++ Str.nl ++ "    execute batch start" ++ Str.nl
        ++ "conf vdom" ++ Str.nl ++ "  edit " ++ v ++ Str.nl
        ++ config_text ++ Str.nl ++ "execute batch end" ++ Str.nl
  end.

(** ** Further observations and scenarios *)

Section Observations.

Context {Dev : Type} {channel : CommandChannel Dev}.
Context {Tree : Type} {tree_ops : ConfigTree Tree}.

(** Two sessions that differ at most in the state of the connection and
    in what has been sent over it. *)
Definition same_configs (s s' : FortiOS Dev Tree) : Prop :=
  vdom s' = vdom s
  /\ original_config s' = original_config s
  /\ running_config s' = running_config s
  /\ candidate_config s' = candidate_config s
  /\ store s' = store s.

(** What [load_config] does to an object it loads [text] into. *)
Definition loaded (path : string) (text : list string)
  (c : FortiConfig Tree) : FortiConfig Tree :=
  add_path path (parse_config_output text c).

(** The text the specification announces for a rollback: the diff from
    the running configuration to the snapshot; without a snapshot there
    is none. *)
Definition announced_rollback_text (s : FortiOS Dev Tree) : option string :=
  match original_config s with
  | Some snap =>
      Some (config_compare (deref (store s) (running_config s))
                           (deref (store s) snap))
  | None => None
  end.

(** The text a rollback works with: the diff from the running
    configuration to the snapshot, or to the candidate while no snapshot
    has been taken. *)
Definition rollback_text (s : FortiOS Dev Tree) : string :=
  config_compare (deref (store s) (running_config s))
    (deref (store s)
       (match original_config s with
        | Some snap => snap
        | None => candidate_config s
        end)).

(** The text a retry sends: the caller's, or the diff from the running
    configuration to the candidate at the time of the retry. *)
Definition retry_text (config_text : option string) (s : FortiOS Dev Tree)
  : string :=
  match config_text with
  | Some text => text
  | None =>
      config_compare (deref (store s) (running_config s))
                     (deref (store s) (candidate_config s))
  end.

(** A command that is either no batch script or the batch script of
    [text] under the scope [vd]. *)
Definition script_of (vd : option string) (text : string)
  (command : string) : Prop :=
  is_batch_start command = true -> command = batch_cmd vd text.

(** Between [s] and [s'] the scope stays and every batch script sent is
    the one of [text]. *)
Definition sends_only (text : string) (s s' : FortiOS Dev Tree) : Prop :=
  vdom s' = vdom s
  /\ exists new,
       sent s' = (sent s ++ new)%list
       /\ Forall (script_of (vdom s) text) new.

(** The exceptions the engine is seen to raise: the unbound name
    [exceptions], the missing connection, what the transport raises, and
    the [ValueError] of [int] on a status code of more digits than it
    converts. *)
Definition expected_failure (e : exn) : Prop :=
  e = NameError "exceptions"
  \/ e = AttributeError "send_command"
  \/ (exists what, e = ChannelError what)
  \/ exists status_code,
       e = ValueError status_code
       /\ int_max_str_digits < digit_count status_code.

(** Every run of [m] either returns a value that satisfies [Q] or raises
    one of the expected exceptions. *)
Definition returns_or_fails {A : Type} (m : @M Dev Tree A) (Q : A -> Prop)
  : Prop :=
  forall s,
    match fst (m s) with
    | Ok a => Q a
    | Raise e => expected_failure e
    end.

End Observations.

(** The codes of a list of failures can all be read, and are negative. *)
Definition readable (wrong_commands : list wrong_command) : Prop :=
  Forall (fun w => exists n, int (fst w) = Ok n /\ n < 0) wrong_commands.

(** A line without any of the line boundaries of [str.splitlines]. *)
Definition no_linebreak (line : string) : bool :=
  Str.forallb (fun c => negb (Str.is_linebreak c)) line.

(** *** [setup.py] *)

(** The condition of the list comprehension of [setup.py]:
    [len(r) > 0 and not (r.startswith("#") or r.startswith("git+"))]. *)
Definition keep_requirement (r : string) : bool :=
  (0 <? Z.of_nat (String.length r))
  && negb (Str.starts_with "#" r || Str.starts_with "git+" r).

(** [reqs], from the text of [requirements.txt]. *)
Definition reqs (contents : string) : list string :=
  List.filter keep_requirement (Str.splitlines contents).

(** *** More scenarios *)

(** Scenario A: the batch succeeds and the device then shows [set a 2]. *)
Definition scenario_A : FortiOS scripted (list string) :=
  example_session None
    {| lastlogs := ["0: set a 2"]; shows := ["set a 2"] |}.

(** Scenario B: one transient failure, then success. *)
Definition scenario_B : FortiOS scripted (list string) :=
  example_session None
    {| lastlogs := ["-3: set a 2"; "0: set a 2"];
       shows := ["set a 1"; "set a 2"] |}.

(** A session that was never opened. *)
Definition closed_session : FortiOS scripted (list string) :=
  {| host := PyStr "fw1"; vdom := None; original_config := None;
     running_config := 0%nat; candidate_config := 1%nat;
     ssh := None; username := "admin"; password := "secret";
     device_type := "fortinet"; timeout := 60;
     store := [ {| cfg_name := "running"; cfg_vdom := None;
                   cfg_tree := ["set a 1"]; cfg_paths := ["system"] |};
                {| cfg_name := "candidate"; cfg_vdom := None;
                   cfg_tree := ["set a 2"]; cfg_paths := ["system"] |} ];
     sent := [] |}.

(** * Properties *)

(** ** Strings *)

Lemma append_assoc (a b c : string) : (a ++ b) ++ c = a ++ b ++ c.
Proof.
  induction a as [|x a IH]; simpl; [reflexivity|]. f_equal. exact IH.
Qed.

Lemma span_app (p : ascii -> bool) (s a b : string) :
  Str.span p s = (a, b) -> s = a ++ b.
Proof.
  revert a b. induction s as [|c r IH]; intros a b; simpl.
  - intros [= <- <-]. reflexivity.
  - destruct (p c).
    + destruct (Str.span p r) as [a' b'] eqn:E. intros [= <- <-].
      simpl. f_equal. apply IH. reflexivity.
    + intros [= <- <-]. reflexivity.
Qed.

Lemma span_forallb (p : ascii -> bool) (s a b : string) :
  Str.span p s = (a, b) -> Str.forallb p a = true.
Proof.
  revert a b. induction s as [|c r IH]; intros a b; simpl.
  - intros [= <- <-]. reflexivity.
  - destruct (p c) eqn:Hc.
    + destruct (Str.span p r) as [a' b'] eqn:E. intros [= <- <-].
      simpl. rewrite Hc. simpl. eapply IH. reflexivity.
    + intros [= <- <-]. reflexivity.
Qed.

Lemma span_head (p : ascii -> bool) (s a b : string) :
  Str.span p s = (a, b) -> Str.head_is p b = false.
Proof.
  revert a b. induction s as [|c r IH]; intros a b; simpl.
  - intros [= <- <-]. reflexivity.
  - destruct (p c) eqn:Hc.
    + destruct (Str.span p r) as [a' b'] eqn:E. intros [= <- <-].
      eapply IH. reflexivity.
    + intros [= <- <-]. simpl. exact Hc.
Qed.

Lemma span_unique (p : ascii -> bool) (a b : string) :
  Str.forallb p a = true -> Str.head_is p b = false ->
  Str.span p (a ++ b) = (a, b).
Proof.
  intros Ha Hb. induction a as [|c a IH]; simpl in *.
  - destruct b as [|c b]; simpl in *; [reflexivity|]. rewrite Hb. reflexivity.
  - apply andb_prop in Ha as [Hc Ha]. rewrite Hc, (IH Ha). reflexivity.
Qed.

Lemma head_is_eqb (c : ascii) (s : string) :
  Str.head_is (Ascii.eqb c) s = true -> s = String c (Str.tail s).
Proof.
  destruct s as [|d r]; simpl; [discriminate|].
  intros H. apply Ascii.eqb_eq in H. subst. reflexivity.
Qed.

Lemma digit_not_minus (c : ascii) :
  Str.is_ascii_digit c = true -> Ascii.eqb "-" c = false.
Proof.
  intros H. destruct (Ascii.eqb_spec "-" c) as [<-|]; [|reflexivity].
  discriminate H.
Qed.

Lemma digits_value_total (ds : string) (acc : Z) :
  Str.forallb Str.is_digit ds = true ->
  exists n, Str.digits_value acc ds = Some n /\ (0 <= acc -> 0 <= n).
Proof.
  revert acc. induction ds as [|c r IH]; intros acc; simpl.
  - intros _. exists acc. split; [reflexivity | auto].
  - intros H. apply andb_prop in H as [Hc Hr].
    change (Str.is_ascii_digit c) with (Str.is_digit c). rewrite Hc.
    destruct (IH (10 * acc + (Z.of_N (Str.code c) - 48)) Hr) as (n & Hn & Hpos).
    exists n. split; [exact Hn|]. intros Hacc. apply Hpos.
    unfold Str.is_digit, Str.in_range in Hc. apply andb_prop in Hc as [Hlo _].
    apply N.leb_le in Hlo. lia.
Qed.

(** ** The lastlog parser *)

Lemma many_total {R : Type} (p : ascii -> bool) (s : string)
  (groups : list string) (k : string -> string -> list string -> option R) :
  (forall t rest g, k t rest g <> None) ->
  many p s groups k = k (fst (Str.span p s)) (snd (Str.span p s)) groups.
Proof.
  revert k. induction s as [|c s IH]; intros k Hk; cbn [many Str.span].
  - reflexivity.
  - destruct (p c); [|reflexivity].
    rewrite IH by (intros; apply Hk).
    destruct (Str.span p s) as [a b]. cbn [fst snd].
    destruct (k (String c a) b groups) eqn:E; [reflexivity|].
    exfalso. exact (Hk _ _ _ E).
Qed.

Lemma many_stop {R : Type} (p : ascii -> bool) (s : string)
  (groups : list string) (k : string -> string -> list string -> option R) :
  (forall t c rest g, p c = true -> k t (String c rest) g = None) ->
  many p s groups k = k (fst (Str.span p s)) (snd (Str.span p s)) groups.
Proof.
  revert k. induction s as [|c s IH]; intros k Hk; cbn [many Str.span].
  - reflexivity.
  - destruct (p c) eqn:Hc; [|reflexivity].
    rewrite IH by (intros; apply Hk; assumption).
    destruct (Str.span p s) as [a b]. cbn [fst snd].
    destruct (k (String c a) b groups) eqn:E; [reflexivity|].
    apply Hk. exact Hc.
Qed.


Lemma colon_not_digit (c : ascii) :
  Str.is_digit c = true -> Ascii.eqb ":" c = false.
Proof.
  intros H. destruct (Ascii.eqb_spec ":" c) as [<-|]; [|reflexivity].
  discriminate H.
Qed.


(** The part of the pattern after the first digit, once the quantifiers
    are replaced by the longest runs. *)
Ltac longest_runs :=
  match goal with
  | |- context [many Str.is_digit ?s ?g ?k] =>
      rewrite (many_stop Str.is_digit s g k);
      [ cbv beta; destruct (Str.span Str.is_digit s) as [ds r2];
        cbn [fst snd];
        destruct r2 as [|c1 s1]; [reflexivity|]; cbn [Str.head_is Str.tail];
        destruct (Ascii.eqb ":" c1); [|reflexivity];
        destruct s1 as [|c2 s2]; [reflexivity|]; cbn [Str.span];
        destruct (Str.is_nonword c2); [|reflexivity]
      | let t := fresh "t" in let c := fresh "c" in
        let rest := fresh "rest" in let g := fresh "g" in
        let Hc := fresh "Hc" in
        intros t c rest g Hc; rewrite (colon_not_digit c Hc); reflexivity ]
  end;
  match goal with
  | |- context [many Str.is_nonword ?s ?g ?k] =>
      rewrite (many_total Str.is_nonword s g k);
      [ cbv beta
      | intros; rewrite many_total by discriminate; discriminate ]
  end;
  match goal with
  | |- context [many Str.is_dot ?s ?g ?k] =>
      rewrite (many_total Str.is_dot s g k) by discriminate
  end;
  match goal with
  | |- context [Str.span Str.is_nonword ?x] =>
      destruct (Str.span Str.is_nonword x) as [sep r4]
  end;
  cbn [fst snd Str.is_empty];
  match goal with
  | |- context [Str.span Str.is_dot ?x] =>
      destruct (Str.span Str.is_dot x) as [command r5]
  end;
  reflexivity.

(** The backtracking match of the pattern is the one-pass scan. *)
Lemma regexp_match_scan (line : string) : regexp_match line = scan_line line.
Proof.
  unfold regexp_match, re_match, regexp, scan_line. cbn [run].
  destruct line as [|c s]; [reflexivity|]. cbn [Str.head_is Str.tail].
  destruct (Ascii.eqb_spec "-" c) as [<-|Hc].
  - change (Str.is_ascii_digit "-") with false. cbv iota.
    destruct s as [|c0 s0]; [reflexivity|].
    destruct (Str.is_ascii_digit c0); [|reflexivity].
    longest_runs.
  - destruct (Str.is_ascii_digit c); [|reflexivity].
    longest_runs.
Qed.

Lemma regexp_match_sound (line status_code command : string) :
  regexp_match line = Some (status_code, command) ->
  lastlog_entry line status_code command.
Proof.
  rewrite regexp_match_scan. unfold scan_line.
  destruct (Str.head_is (Ascii.eqb "-") line) eqn:Hsign.
  - apply head_is_eqb in Hsign. destruct (Str.tail line) as [|c r1] eqn:Ht;
      [discriminate|].
    destruct (Str.is_ascii_digit c) eqn:Hc; [|discriminate].
    destruct (Str.span Str.is_digit r1) as [ds r2] eqn:Hds.
    destruct (Str.head_is (Ascii.eqb ":") r2) eqn:Hcolon; [|discriminate].
    destruct (Str.span Str.is_nonword (Str.tail r2)) as [sep r4] eqn:Hsep.
    destruct (Str.is_empty sep) eqn:Hne; [discriminate|].
    destruct (Str.span Str.is_dot r4) as [cmd rest] eqn:Hcmd.
    intros [= <- <-].
    exists "-", (String c ds), sep, rest. repeat split.
    + rewrite Hsign. simpl. do 2 f_equal.
      rewrite (span_app _ _ _ _ Hds). f_equal.
      rewrite (head_is_eqb _ _ Hcolon). f_equal.
      rewrite (span_app _ _ _ _ Hsep). f_equal. exact (span_app _ _ _ _ Hcmd).
    + right. reflexivity.
    + discriminate.
    + simpl. change (Str.is_digit c) with (Str.is_ascii_digit c). rewrite Hc.
      exact (span_forallb _ _ _ _ Hds).
    + intros ->. discriminate.
    + exact (span_forallb _ _ _ _ Hsep).
    + rewrite <- (span_app _ _ _ _ Hcmd). exact (span_head _ _ _ _ Hsep).
    + exact (span_forallb _ _ _ _ Hcmd).
    + exact (span_head _ _ _ _ Hcmd).
  - destruct line as [|c r1]; [discriminate|].
    destruct (Str.is_ascii_digit c) eqn:Hc; [|discriminate].
    destruct (Str.span Str.is_digit r1) as [ds r2] eqn:Hds.
    destruct (Str.head_is (Ascii.eqb ":") r2) eqn:Hcolon; [|discriminate].
    destruct (Str.span Str.is_nonword (Str.tail r2)) as [sep r4] eqn:Hsep.
    destruct (Str.is_empty sep) eqn:Hne; [discriminate|].
    destruct (Str.span Str.is_dot r4) as [cmd rest] eqn:Hcmd.
    intros [= <- <-].
    exists EmptyString, (String c ds), sep, rest. repeat split.
    + simpl. f_equal.
      rewrite (span_app _ _ _ _ Hds). f_equal.
      rewrite (head_is_eqb _ _ Hcolon). f_equal.
      rewrite (span_app _ _ _ _ Hsep). f_equal. exact (span_app _ _ _ _ Hcmd).
    + left. reflexivity.
    + discriminate.
    + simpl. change (Str.is_digit c) with (Str.is_ascii_digit c). rewrite Hc.
      exact (span_forallb _ _ _ _ Hds).
    + intros ->. discriminate.
    + exact (span_forallb _ _ _ _ Hsep).
    + rewrite <- (span_app _ _ _ _ Hcmd). exact (span_head _ _ _ _ Hsep).
    + exact (span_forallb _ _ _ _ Hcmd).
    + exact (span_head _ _ _ _ Hcmd).
Qed.

Lemma regexp_match_tail (c : ascii) (ds r : string) :
  Str.is_ascii_digit c = true ->
  Str.forallb Str.is_digit ds = true ->
  forall sep command rest,
    r = ds ++ String ":" (sep ++ command ++ rest) ->
    sep <> EmptyString -> Str.forallb Str.is_nonword sep = true ->
    Str.head_is Str.is_nonword (command ++ rest) = false ->
    Str.forallb Str.is_dot command = true ->
    Str.head_is Str.is_dot rest = false ->
    forall sign,
      match String c r with
      | String c r1 =>
          if Str.is_ascii_digit c then
            let (ds, r2) := Str.span Str.is_digit r1 in
            if Str.head_is (Ascii.eqb ":") r2 then
              let (sep, r4) := Str.span Str.is_nonword (Str.tail r2) in
              if Str.is_empty sep then None
              else
                let (command, _) := Str.span Str.is_dot r4 in
                Some (sign ++ String c ds, command)
            else None
          else None
      | EmptyString => None
      end = Some (sign ++ String c ds, command).
Proof.
  intros Hc Hds sep command rest -> Hsep Hnw Hmax Hdot Hrest sign.
  rewrite Hc.
  rewrite (span_unique Str.is_digit ds (String ":" (sep ++ command ++ rest)) Hds)
    by reflexivity.
  simpl Str.head_is. simpl Str.tail.
  change (Ascii.eqb ":" ":") with true. cbv iota.
  rewrite (span_unique Str.is_nonword sep (command ++ rest) Hnw Hmax).
  destruct sep as [|x sep]; [congruence|]. simpl Str.is_empty. cbv iota.
  rewrite (span_unique Str.is_dot command rest Hdot Hrest). reflexivity.
Qed.

Lemma regexp_match_complete (line status_code command : string) :
  lastlog_entry line status_code command ->
  regexp_match line = Some (status_code, command).
Proof.
  intros (sign & ds & sep & rest & -> & -> & Hsign & Hne & Hds & Hsep & Hnw
          & Hmax & Hdot & Hrest).
  destruct ds as [|c ds]; [congruence|]. simpl in Hds.
  apply andb_prop in Hds as [Hc Hds].
  rewrite regexp_match_scan. unfold scan_line. destruct Hsign as [-> | ->].
  - change (EmptyString ++ String c ds ++ ?x) with (String c (ds ++ x)).
    unfold Str.head_is at 1. rewrite (digit_not_minus c Hc).
    exact (regexp_match_tail c ds _ Hc Hds sep command rest eq_refl
             Hsep Hnw Hmax Hdot Hrest EmptyString).
  - change ("-" ++ String c ds ++ ?x) with (String "-" (String c (ds ++ x))).
    unfold Str.head_is at 1. change (Ascii.eqb "-" "-") with true.
    unfold Str.tail at 1.
    exact (regexp_match_tail c ds _ Hc Hds sep command rest eq_refl
             Hsep Hnw Hmax Hdot Hrest "-").
Qed.

Lemma digit_count_code (sign ds : string) :
  sign = EmptyString \/ sign = "-" ->
  Str.forallb Str.is_digit ds = true ->
  digit_count (sign ++ ds) = Z.of_nat (String.length ds).
Proof.
  intros [-> | ->] Hds; [|reflexivity].
  destruct ds as [|c ds]; [reflexivity|]. simpl in Hds.
  apply andb_prop in Hds as [Hc _]. cbn [append digit_count].
  rewrite Ascii.eqb_sym, (digit_not_minus c Hc). reflexivity.
Qed.

(** [int] on a status code the pattern matched: it raises when the code
    has more digits than the limit, and returns otherwise. *)
Lemma int_of_match (line status_code command : string) :
  regexp_match line = Some (status_code, command) ->
  if int_max_str_digits <? digit_count status_code
  then int (PyStr status_code) = Raise (ValueError status_code)
  else exists n, int (PyStr status_code) = Ok n.
Proof.
  intros H. apply regexp_match_sound in H.
  destruct H as (sign & ds & sep & rest & _ & -> & Hsign & Hne & Hds & _).
  destruct (digits_value_total ds 0 Hds) as (n & Hn & _).
  destruct ds as [|c ds]; [congruence|].
  pose proof Hds as Hds'. simpl in Hds'. apply andb_prop in Hds' as [Hc _].
  destruct Hsign as [-> | ->].
  - change (EmptyString ++ String c ds) with (String c ds).
    unfold int.
    destruct (int_max_str_digits <? digit_count (String c ds));
      [reflexivity|].
    rewrite Ascii.eqb_sym, (digit_not_minus c Hc), Hn. eauto.
  - change ("-" ++ String c ds) with (String "-" (String c ds)).
    unfold int.
    destruct (int_max_str_digits <? digit_count (String "-" (String c ds)));
      [reflexivity|].
    change (Ascii.eqb "-" "-") with true. cbv iota.
    rewrite Hn. eauto.
Qed.

(** What the parser returns is the list of the failed entries. *)
Lemma parse_lines_sound (last_log : list string) :
  forall acc result,
    parse_lines acc last_log = Ok result ->
    exists wrong_commands,
      result = (acc ++ wrong_commands)%list
      /\ failed_entries last_log wrong_commands.
Proof.
  induction last_log as [|line rest IH]; intros acc result; cbn [parse_lines].
  - intros [= <-]. exists []. rewrite app_nil_r. split; [reflexivity | constructor].
  - destruct (regexp_match line) as [[status_code command]|] eqn:Hm.
    + pose proof (regexp_match_sound _ _ _ Hm) as Hentry.
      destruct (int (PyStr status_code)) as [n|e] eqn:Hn; [|discriminate].
      destruct (n <? 0) eqn:Hneg; intros H.
      * destruct (IH _ _ H) as (wc & -> & Hfe).
        exists ((PyStr status_code, command) :: wc). split.
        -- rewrite <- app_assoc. reflexivity.
        -- apply Z.ltb_lt in Hneg. econstructor; eassumption.
      * destruct (IH _ _ H) as (wc & -> & Hfe). exists wc.
        split; [reflexivity|].
        apply Z.ltb_ge in Hneg. eapply failed_skip_success; eassumption.
    + intros H. destruct (IH _ _ H) as (wc & -> & Hfe). exists wc.
      split; [reflexivity|].
      apply failed_skip_other; [|exact Hfe].
      intros status_code command Hentry.
      apply regexp_match_complete in Hentry. congruence.
Qed.

(** The list of the failed entries of a log is what the parser returns. *)
Lemma parse_lines_complete (last_log : list string)
  (wrong_commands : list wrong_command) :
  failed_entries last_log wrong_commands ->
  forall acc, parse_lines acc last_log = Ok (acc ++ wrong_commands)%list.
Proof.
  induction 1 as [| line c k n rest w He Hn Hneg _ IH
                  | line c k n rest w He Hn Hpos _ IH
                  | line rest w Hnone _ IH ]; intros acc; cbn [parse_lines].
  - rewrite app_nil_r. reflexivity.
  - rewrite (regexp_match_complete _ _ _ He), Hn.
    apply Z.ltb_lt in Hneg. rewrite Hneg, IH, <- app_assoc. reflexivity.
  - rewrite (regexp_match_complete _ _ _ He), Hn.
    apply Z.ltb_ge in Hpos. rewrite Hpos. apply IH.
  - destruct (regexp_match line) as [[c k]|] eqn:Hm; [|apply IH].
    exfalso. exact (Hnone _ _ (regexp_match_sound _ _ _ Hm)).
Qed.

(** A log without an overlong status code has its list of failed
    entries. *)
Lemma short_codes_failed_entries (last_log : list string) :
  short_codes last_log -> exists wrong_commands,
    failed_entries last_log wrong_commands.
Proof.
  induction 1 as [|line rest Hline _ [wc IH]]; [exists []; constructor|].
  destruct (regexp_match line) as [[c k]|] eqn:Hm.
  - pose proof (regexp_match_sound _ _ _ Hm) as He.
    pose proof (int_of_match _ _ _ Hm) as Hint.
    specialize (Hline _ _ He). apply Z.ltb_ge in Hline. rewrite Hline in Hint.
    destruct Hint as [n Hn]. destruct (Z.ltb_spec n 0).
    + eexists. eapply failed_cons; eassumption.
    + exists wc. eapply failed_skip_success; eassumption.
  - exists wc. apply failed_skip_other; [|exact IH].
    intros c k He. apply regexp_match_complete in He. congruence.
Qed.

(** The first overlong status code of a log stops the parser. *)
Lemma parse_lines_overlong (before : list string)
  (line status_code command : string) (after : list string) :
  short_codes before ->
  lastlog_entry line status_code command ->
  int_max_str_digits < digit_count status_code ->
  forall acc,
    parse_lines acc (before ++ line :: after)%list
    = Raise (ValueError status_code).
Proof.
  intros Hshort He Hlong acc.
  destruct (short_codes_failed_entries _ Hshort) as [wc Hwc].
  revert acc. induction Hwc as [| l c k n rest w Hl Hn Hneg _ IH
                                | l c k n rest w Hl Hn Hpos _ IH
                                | l rest w Hnone _ IH ]; intros acc.
  - cbn [app parse_lines]. apply regexp_match_complete in He.
    pose proof (int_of_match _ _ _ He) as Hint. rewrite He.
    apply Z.ltb_lt in Hlong. rewrite Hlong in Hint. rewrite Hint. reflexivity.
  - rewrite <- app_comm_cons. cbn [parse_lines].
    rewrite (regexp_match_complete _ _ _ Hl), Hn.
    inversion Hshort; subst. destruct (n <? 0); apply IH; assumption.
  - rewrite <- app_comm_cons. cbn [parse_lines].
    rewrite (regexp_match_complete _ _ _ Hl), Hn.
    inversion Hshort; subst. destruct (n <? 0); apply IH; assumption.
  - rewrite <- app_comm_cons. cbn [parse_lines].
    inversion Hshort; subst.
    destruct (regexp_match l) as [[c k]|] eqn:Hm; [|apply IH; assumption].
    exfalso. exact (Hnone _ _ (regexp_match_sound _ _ _ Hm)).
Qed.

(** When the parser raises, it is the [ValueError] of an overlong status
    code of the log. *)
Lemma parse_lines_raises (last_log : list string) :
  forall acc e,
    parse_lines acc last_log = Raise e ->
    exists line status_code command,
      In line last_log
      /\ regexp_match line = Some (status_code, command)
      /\ int_max_str_digits < digit_count status_code
      /\ e = ValueError status_code.
Proof.
  induction last_log as [|line rest IH]; intros acc e; cbn [parse_lines];
    [discriminate|].
  assert (Hrest : parse_lines acc rest = Raise e \/
                  (exists x, parse_lines (acc ++ [x])%list rest = Raise e) ->
                  exists l c k, In l (line :: rest)
                    /\ regexp_match l = Some (c, k)
                    /\ int_max_str_digits < digit_count c
                    /\ e = ValueError c).
  { intros [H | [x H]]; apply IH in H;
      destruct H as (l & c & k & Hin & H); exists l, c, k;
      (split; [right; exact Hin | exact H]). }
  destruct (regexp_match line) as [[status_code command]|] eqn:Hm;
    [|intros H; apply Hrest; left; exact H].
  pose proof (int_of_match _ _ _ Hm) as Hint.
  destruct (Z.ltb_spec int_max_str_digits (digit_count status_code)) as [Hlong|_].
  - rewrite Hint. intros [= <-]. exists line, status_code, command.
    split; [left; reflexivity|]. split; [exact Hm|]. split; [exact Hlong|].
    reflexivity.
  - destruct Hint as [n ->]. destruct (n <? 0); intros H; apply Hrest;
      [right; eexists; exact H | left; exact H].
Qed.

Lemma lastlog_entry_functional (line c1 k1 c2 k2 : string) :
  lastlog_entry line c1 k1 -> lastlog_entry line c2 k2 -> c1 = c2 /\ k1 = k2.
Proof.
  intros H1 H2. apply regexp_match_complete in H1, H2.
  rewrite H1 in H2. injection H2 as -> ->. split; reflexivity.
Qed.

Lemma failed_entries_functional (last_log : list string)
  (w1 w2 : list wrong_command) :
  failed_entries last_log w1 -> failed_entries last_log w2 -> w1 = w2.
Proof.
  intros H1. revert w2.
  induction H1 as [| line c k n rest w He Hn Hneg _ IH
                   | line c k n rest w He Hn Hpos _ IH
                   | line rest w Hnone _ IH ]; intros w2 H2.
  - inversion H2. reflexivity.
  - inversion H2 as [| ? c' k' n' ? w' He' Hn' Hneg' Hrest
                     | ? c' k' n' ? w' He' Hn' Hpos' Hrest
                     | ? ? w' Hnone' Hrest ]; subst.
    + destruct (lastlog_entry_functional _ _ _ _ _ He He') as [-> ->].
      f_equal. apply IH. exact Hrest.
    + destruct (lastlog_entry_functional _ _ _ _ _ He He') as [-> ->].
      rewrite Hn in Hn'. injection Hn' as ->. lia.
    + exfalso. exact (Hnone' _ _ He).
  - inversion H2 as [| ? c' k' n' ? w' He' Hn' Hneg' Hrest
                     | ? c' k' n' ? w' He' Hn' Hpos' Hrest
                     | ? ? w' Hnone' Hrest ]; subst.
    + destruct (lastlog_entry_functional _ _ _ _ _ He He') as [-> ->].
      rewrite Hn in Hn'. injection Hn' as ->. lia.
    + apply IH. exact Hrest.
    + exfalso. exact (Hnone' _ _ He).
  - inversion H2 as [| ? c' k' n' ? w' He' Hn' Hneg' Hrest
                     | ? c' k' n' ? w' He' Hn' Hpos' Hrest
                     | ? ? w' Hnone' Hrest ]; subst.
    + exfalso. exact (Hnone _ _ He').
    + exfalso. exact (Hnone _ _ He').
    + apply IH. exact Hrest.
Qed.

(** ** The lastlog parser on any text *)

Section UnicodeParser.

Local Open Scope list_scope.

Variable db : Unicode.database.

Lemma text_span_app (p : N -> bool) (t a b : Unicode.text) :
  Unicode.span p t = (a, b) -> t = a ++ b.
Proof.
  revert a b. induction t as [|c r IH]; intros a b; simpl.
  - intros [= <- <-]. reflexivity.
  - destruct (p c).
    + destruct (Unicode.span p r) as [a' b'] eqn:E. intros [= <- <-].
      simpl. f_equal. apply IH. reflexivity.
    + intros [= <- <-]. reflexivity.
Qed.

Lemma text_span_forallb (p : N -> bool) (t a b : Unicode.text) :
  Unicode.span p t = (a, b) -> forallb p a = true.
Proof.
  revert a b. induction t as [|c r IH]; intros a b; simpl.
  - intros [= <- <-]. reflexivity.
  - destruct (p c) eqn:Hc.
    + destruct (Unicode.span p r) as [a' b'] eqn:E. intros [= <- <-].
      simpl. rewrite Hc. simpl. eapply IH. reflexivity.
    + intros [= <- <-]. reflexivity.
Qed.

Lemma text_span_head (p : N -> bool) (t a b : Unicode.text) :
  Unicode.span p t = (a, b) -> Unicode.head_is p b = false.
Proof.
  revert a b. induction t as [|c r IH]; intros a b; simpl.
  - intros [= <- <-]. reflexivity.
  - destruct (p c) eqn:Hc.
    + destruct (Unicode.span p r) as [a' b'] eqn:E. intros [= <- <-].
      eapply IH. reflexivity.
    + intros [= <- <-]. simpl. exact Hc.
Qed.

Lemma text_span_unique (p : N -> bool) (a b : Unicode.text) :
  forallb p a = true -> Unicode.head_is p b = false ->
  Unicode.span p (a ++ b) = (a, b).
Proof.
  intros Ha Hb. induction a as [|c a IH]; simpl in *.
  - destruct b as [|c b]; simpl in *; [reflexivity|]. rewrite Hb. reflexivity.
  - apply andb_prop in Ha as [Hc Ha]. rewrite Hc, (IH Ha). reflexivity.
Qed.

Lemma text_head_is_eqb (c : N) (t : Unicode.text) :
  Unicode.head_is (N.eqb c) t = true -> t = c :: tl t.
Proof.
  destruct t as [|d r]; simpl; [discriminate|].
  intros H. apply N.eqb_eq in H. subst. reflexivity.
Qed.

Lemma text_digit_not_minus (c : N) :
  Unicode.is_ascii_digit c = true -> N.eqb Unicode.minus c = false.
Proof.
  intros H. destruct (N.eqb_spec Unicode.minus c) as [<-|]; [|reflexivity].
  discriminate H.
Qed.

Lemma text_colon_not_digit (c : N) :
  Unicode.is_digit db c = true -> N.eqb Unicode.colon c = false.
Proof.
  intros H. destruct (N.eqb_spec Unicode.colon c) as [<-|]; [|reflexivity].
  discriminate H.
Qed.

Lemma ascii_digit_is_digit (c : N) :
  Unicode.is_ascii_digit c = true ->
  Unicode.digit_value db c = Some (Z.of_N c - 48)
  /\ Unicode.is_digit db c = true.
Proof.
  intros H. unfold Unicode.is_digit, Unicode.digit_value. rewrite H.
  unfold Unicode.is_ascii_digit, Unicode.in_range in H.
  apply andb_prop in H as [_ H]. apply N.leb_le in H.
  destruct (N.ltb_spec c 256); [split; reflexivity | lia].
Qed.

Lemma text_many_total {R : Type} (p : N -> bool) (t : Unicode.text)
  (groups : list Unicode.text)
  (k : Unicode.text -> Unicode.text -> list Unicode.text -> option R) :
  (forall m rest g, k m rest g <> None) ->
  Unicode.many p t groups k
  = k (fst (Unicode.span p t)) (snd (Unicode.span p t)) groups.
Proof.
  revert k. induction t as [|c t IH]; intros k Hk;
    cbn [Unicode.many Unicode.span].
  - reflexivity.
  - destruct (p c); [|reflexivity].
    rewrite IH by (intros; apply Hk).
    destruct (Unicode.span p t) as [a b]. cbn [fst snd].
    destruct (k (c :: a) b groups) eqn:E; [reflexivity|].
    exfalso. exact (Hk _ _ _ E).
Qed.

Lemma text_many_stop {R : Type} (p : N -> bool) (t : Unicode.text)
  (groups : list Unicode.text)
  (k : Unicode.text -> Unicode.text -> list Unicode.text -> option R) :
  (forall m c rest g, p c = true -> k m (c :: rest) g = None) ->
  Unicode.many p t groups k
  = k (fst (Unicode.span p t)) (snd (Unicode.span p t)) groups.
Proof.
  revert k. induction t as [|c t IH]; intros k Hk;
    cbn [Unicode.many Unicode.span].
  - reflexivity.
  - destruct (p c) eqn:Hc; [|reflexivity].
    rewrite IH by (intros; apply Hk; assumption).
    destruct (Unicode.span p t) as [a b]. cbn [fst snd].
    destruct (k (c :: a) b groups) eqn:E; [reflexivity|].
    apply Hk. exact Hc.
Qed.

Ltac text_longest_runs :=
  match goal with
  | |- context [Unicode.many (Unicode.is_digit db) ?s ?g ?k] =>
      rewrite (text_many_stop (Unicode.is_digit db) s g k);
      [ cbv beta; destruct (Unicode.span (Unicode.is_digit db) s) as [ds r2];
        cbn [fst snd];
        destruct r2 as [|c1 s1]; [reflexivity|]; cbn [Unicode.head_is tl];
        destruct (N.eqb Unicode.colon c1); [|reflexivity];
        destruct s1 as [|c2 s2]; [reflexivity|]; cbn [Unicode.span];
        destruct (Unicode.is_nonword db c2); [|reflexivity]
      | let m := fresh "m" in let c := fresh "c" in
        let rest := fresh "rest" in let g := fresh "g" in
        let Hc := fresh "Hc" in
        intros m c rest g Hc; rewrite (text_colon_not_digit c Hc); reflexivity ]
  end;
  match goal with
  | |- context [Unicode.many (Unicode.is_nonword db) ?s ?g ?k] =>
      rewrite (text_many_total (Unicode.is_nonword db) s g k);
      [ cbv beta
      | intros; rewrite text_many_total by discriminate; discriminate ]
  end;
  match goal with
  | |- context [Unicode.many Unicode.is_dot ?s ?g ?k] =>
      rewrite (text_many_total Unicode.is_dot s g k) by discriminate
  end;
  match goal with
  | |- context [Unicode.span (Unicode.is_nonword db) ?x] =>
      destruct (Unicode.span (Unicode.is_nonword db) x) as [sep r4]
  end;
  cbn [fst snd Unicode.is_empty];
  match goal with
  | |- context [Unicode.span Unicode.is_dot ?x] =>
      destruct (Unicode.span Unicode.is_dot x) as [command r5]
  end;
  reflexivity.

(** On any text, too, the backtracking match of the pattern is the
    one-pass scan. *)
Lemma text_regexp_match_scan (line : Unicode.text) :
  Unicode.regexp_match db line = Unicode.scan_line db line.
Proof.
  unfold Unicode.regexp_match, Unicode.re_match, Unicode.regexp,
    Unicode.scan_line.
  cbn [Unicode.run].
  destruct line as [|c s]; [reflexivity|]. cbn [Unicode.head_is tl].
  destruct (N.eqb_spec Unicode.minus c) as [<-|Hc].
  - change (Unicode.is_ascii_digit Unicode.minus) with false. cbv iota.
    destruct s as [|c0 s0]; [reflexivity|].
    destruct (Unicode.is_ascii_digit c0); [|reflexivity].
    text_longest_runs.
  - destruct (Unicode.is_ascii_digit c); [|reflexivity].
    text_longest_runs.
Qed.

Lemma text_regexp_match_sound (line status_code command : Unicode.text) :
  Unicode.regexp_match db line = Some (status_code, command) ->
  Unicode.lastlog_entry db line status_code command.
Proof.
  rewrite text_regexp_match_scan. unfold Unicode.scan_line.
  destruct (Unicode.head_is (N.eqb Unicode.minus) line) eqn:Hsign.
  - apply text_head_is_eqb in Hsign. destruct (tl line) as [|c r1] eqn:Ht;
      [discriminate|].
    destruct (Unicode.is_ascii_digit c) eqn:Hc; [|discriminate].
    destruct (Unicode.span (Unicode.is_digit db) r1) as [ds r2] eqn:Hds.
    destruct (Unicode.head_is (N.eqb Unicode.colon) r2) eqn:Hcolon;
      [|discriminate].
    destruct (Unicode.span (Unicode.is_nonword db) (tl r2)) as [sep r4] eqn:Hsep.
    destruct (Unicode.is_empty sep) eqn:Hne; [discriminate|].
    destruct (Unicode.span Unicode.is_dot r4) as [cmd rest] eqn:Hcmd.
    intros [= <- <-].
    exists [Unicode.minus], c, ds, sep, rest. repeat split.
    + rewrite Hsign. simpl. do 2 f_equal.
      rewrite (text_span_app _ _ _ _ Hds). f_equal.
      rewrite (text_head_is_eqb _ _ Hcolon). f_equal.
      rewrite (text_span_app _ _ _ _ Hsep). f_equal.
      exact (text_span_app _ _ _ _ Hcmd).
    + right. reflexivity.
    + exact Hc.
    + exact (text_span_forallb _ _ _ _ Hds).
    + intros ->. discriminate.
    + exact (text_span_forallb _ _ _ _ Hsep).
    + rewrite <- (text_span_app _ _ _ _ Hcmd).
      exact (text_span_head _ _ _ _ Hsep).
    + exact (text_span_forallb _ _ _ _ Hcmd).
    + exact (text_span_head _ _ _ _ Hcmd).
  - destruct line as [|c r1]; [discriminate|].
    destruct (Unicode.is_ascii_digit c) eqn:Hc; [|discriminate].
    destruct (Unicode.span (Unicode.is_digit db) r1) as [ds r2] eqn:Hds.
    destruct (Unicode.head_is (N.eqb Unicode.colon) r2) eqn:Hcolon;
      [|discriminate].
    destruct (Unicode.span (Unicode.is_nonword db) (tl r2)) as [sep r4] eqn:Hsep.
    destruct (Unicode.is_empty sep) eqn:Hne; [discriminate|].
    destruct (Unicode.span Unicode.is_dot r4) as [cmd rest] eqn:Hcmd.
    intros [= <- <-].
    exists [], c, ds, sep, rest. repeat split.
    + simpl. f_equal.
      rewrite (text_span_app _ _ _ _ Hds). f_equal.
      rewrite (text_head_is_eqb _ _ Hcolon). f_equal.
      rewrite (text_span_app _ _ _ _ Hsep). f_equal.
      exact (text_span_app _ _ _ _ Hcmd).
    + left. reflexivity.
    + exact Hc.
    + exact (text_span_forallb _ _ _ _ Hds).
    + intros ->. discriminate.
    + exact (text_span_forallb _ _ _ _ Hsep).
    + rewrite <- (text_span_app _ _ _ _ Hcmd).
      exact (text_span_head _ _ _ _ Hsep).
    + exact (text_span_forallb _ _ _ _ Hcmd).
    + exact (text_span_head _ _ _ _ Hcmd).
Qed.

Lemma text_regexp_match_tail (c : N) (ds r : Unicode.text) :
  Unicode.is_ascii_digit c = true ->
  forallb (Unicode.is_digit db) ds = true ->
  forall sep command rest,
    r = ds ++ Unicode.colon :: sep ++ command ++ rest ->
    sep <> [] -> forallb (Unicode.is_nonword db) sep = true ->
    Unicode.head_is (Unicode.is_nonword db) (command ++ rest) = false ->
    forallb Unicode.is_dot command = true ->
    Unicode.head_is Unicode.is_dot rest = false ->
    forall sign,
      match c :: r with
      | c :: r1 =>
          if Unicode.is_ascii_digit c then
            let (ds, r2) := Unicode.span (Unicode.is_digit db) r1 in
            if Unicode.head_is (N.eqb Unicode.colon) r2 then
              let (sep, r4) :=
                Unicode.span (Unicode.is_nonword db) (tl r2) in
              if Unicode.is_empty sep then None
              else
                let (command, _) := Unicode.span Unicode.is_dot r4 in
                Some (sign ++ c :: ds, command)
            else None
          else None
      | [] => None
      end = Some (sign ++ c :: ds, command).
Proof.
  intros Hc Hds sep command rest -> Hsep Hnw Hmax Hdot Hrest sign.
  rewrite Hc.
  rewrite (text_span_unique (Unicode.is_digit db) ds
             (Unicode.colon :: sep ++ command ++ rest) Hds)
    by reflexivity.
  cbn [Unicode.head_is tl].
  change (N.eqb Unicode.colon Unicode.colon) with true. cbv iota.
  rewrite (text_span_unique (Unicode.is_nonword db) sep (command ++ rest)
             Hnw Hmax).
  destruct sep as [|x sep]; [congruence|]. cbn [Unicode.is_empty]. cbv iota.
  rewrite (text_span_unique Unicode.is_dot command rest Hdot Hrest).
  reflexivity.
Qed.

Lemma text_regexp_match_complete (line status_code command : Unicode.text) :
  Unicode.lastlog_entry db line status_code command ->
  Unicode.regexp_match db line = Some (status_code, command).
Proof.
  intros (sign & c & ds & sep & rest & -> & -> & Hsign & Hc & Hds & Hsep & Hnw
          & Hmax & Hdot & Hrest).
  rewrite text_regexp_match_scan. unfold Unicode.scan_line.
  destruct Hsign as [-> | ->].
  - cbn [app]. unfold Unicode.head_is at 1.
    rewrite (text_digit_not_minus c Hc).
    exact (text_regexp_match_tail c ds _ Hc Hds sep command rest eq_refl
             Hsep Hnw Hmax Hdot Hrest []).
  - cbn [app]. unfold Unicode.head_is at 1.
    change (N.eqb Unicode.minus Unicode.minus) with true.
    unfold tl at 1.
    exact (text_regexp_match_tail c ds _ Hc Hds sep command rest eq_refl
             Hsep Hnw Hmax Hdot Hrest [Unicode.minus]).
Qed.

Lemma text_digits_value_total (ds : Unicode.text) (acc : Z) :
  forallb (Unicode.is_digit db) ds = true ->
  exists n, Unicode.digits_value db acc ds = Some n.
Proof.
  revert acc. induction ds as [|c r IH]; intros acc; simpl.
  - intros _. exists acc. reflexivity.
  - intros H. apply andb_prop in H as [Hc Hr].
    unfold Unicode.is_digit in Hc.
    destruct (Unicode.digit_value db c) as [d|]; [|discriminate].
    apply IH. exact Hr.
Qed.

(** [int] on a status code the pattern matched, on any text. *)
Lemma text_int_of_match (line status_code command : Unicode.text) :
  Unicode.regexp_match db line = Some (status_code, command) ->
  if int_max_str_digits <? Unicode.digit_count status_code
  then Unicode.int db status_code = Unicode.Raises_ValueError status_code
  else exists n, Unicode.int db status_code = Unicode.Returns n.
Proof.
  intros H. apply text_regexp_match_sound in H.
  destruct H as (sign & c & ds & sep & rest & _ & -> & Hsign & Hc & Hds & _).
  assert (Hall : forallb (Unicode.is_digit db) (c :: ds) = true).
  { simpl. rewrite (proj2 (ascii_digit_is_digit c Hc)). exact Hds. }
  destruct (text_digits_value_total (c :: ds) 0 Hall) as (n & Hn).
  destruct Hsign as [-> | ->]; cbn [app]; unfold Unicode.int.
  - destruct (int_max_str_digits <? Unicode.digit_count (c :: ds));
      [reflexivity|].
    rewrite N.eqb_sym, (text_digit_not_minus c Hc), Hn. eauto.
  - destruct (int_max_str_digits
              <? Unicode.digit_count (Unicode.minus :: c :: ds));
      [reflexivity|].
    change (N.eqb Unicode.minus Unicode.minus) with true. cbv iota.
    rewrite Hn. eauto.
Qed.

Lemma text_parse_lines_sound (last_log : list Unicode.text) :
  forall acc result,
    Unicode.parse_lines db acc last_log = Unicode.Returns result ->
    exists wrong_commands,
      result = acc ++ wrong_commands
      /\ Unicode.failed_entries db last_log wrong_commands.
Proof.
  induction last_log as [|line rest IH]; intros acc result;
    cbn [Unicode.parse_lines].
  - intros [= <-]. exists []. rewrite app_nil_r.
    split; [reflexivity | constructor].
  - destruct (Unicode.regexp_match db line) as [[status_code command]|] eqn:Hm.
    + pose proof (text_regexp_match_sound _ _ _ Hm) as Hentry.
      destruct (Unicode.int db status_code) as [n|e] eqn:Hn; [|discriminate].
      destruct (n <? 0) eqn:Hneg; intros H.
      * destruct (IH _ _ H) as (wc & -> & Hfe).
        exists ((status_code, command) :: wc). split.
        -- rewrite <- app_assoc. reflexivity.
        -- apply Z.ltb_lt in Hneg. econstructor; eassumption.
      * destruct (IH _ _ H) as (wc & -> & Hfe). exists wc.
        split; [reflexivity|].
        apply Z.ltb_ge in Hneg.
        eapply Unicode.failed_skip_success; eassumption.
    + intros H. destruct (IH _ _ H) as (wc & -> & Hfe). exists wc.
      split; [reflexivity|].
      apply Unicode.failed_skip_other; [|exact Hfe].
      intros status_code command Hentry.
      apply text_regexp_match_complete in Hentry. congruence.
Qed.

Lemma text_parse_lines_complete (last_log : list Unicode.text)
  (wrong_commands : list Unicode.wrong_command) :
  Unicode.failed_entries db last_log wrong_commands ->
  forall acc,
    Unicode.parse_lines db acc last_log
    = Unicode.Returns (acc ++ wrong_commands).
Proof.
  induction 1 as [| line c k n rest w He Hn Hneg _ IH
                  | line c k n rest w He Hn Hpos _ IH
                  | line rest w Hnone _ IH ]; intros acc;
    cbn [Unicode.parse_lines].
  - rewrite app_nil_r. reflexivity.
  - rewrite (text_regexp_match_complete _ _ _ He), Hn.
    apply Z.ltb_lt in Hneg. rewrite Hneg, IH, <- app_assoc. reflexivity.
  - rewrite (text_regexp_match_complete _ _ _ He), Hn.
    apply Z.ltb_ge in Hpos. rewrite Hpos. apply IH.
  - destruct (Unicode.regexp_match db line) as [[c k]|] eqn:Hm; [|apply IH].
    exfalso. exact (Hnone _ _ (text_regexp_match_sound _ _ _ Hm)).
Qed.

Lemma text_short_codes_failed_entries (last_log : list Unicode.text) :
  Unicode.short_codes db last_log -> exists wrong_commands,
    Unicode.failed_entries db last_log wrong_commands.
Proof.
  induction 1 as [|line rest Hline _ [wc IH]]; [exists []; constructor|].
  destruct (Unicode.regexp_match db line) as [[c k]|] eqn:Hm.
  - pose proof (text_regexp_match_sound _ _ _ Hm) as He.
    pose proof (text_int_of_match _ _ _ Hm) as Hint.
    specialize (Hline _ _ He). apply Z.ltb_ge in Hline. rewrite Hline in Hint.
    destruct Hint as [n Hn]. destruct (Z.ltb_spec n 0).
    + eexists. eapply Unicode.failed_cons; eassumption.
    + exists wc. eapply Unicode.failed_skip_success; eassumption.
  - exists wc. apply Unicode.failed_skip_other; [|exact IH].
    intros c k He. apply text_regexp_match_complete in He. congruence.
Qed.

Lemma text_parse_lines_overlong (before : list Unicode.text)
  (line status_code command : Unicode.text) (after : list Unicode.text) :
  Unicode.short_codes db before ->
  Unicode.lastlog_entry db line status_code command ->
  int_max_str_digits < Unicode.digit_count status_code ->
  forall acc,
    Unicode.parse_lines db acc (before ++ line :: after)
    = Unicode.Raises_ValueError status_code.
Proof.
  intros Hshort He Hlong acc.
  destruct (text_short_codes_failed_entries _ Hshort) as [wc Hwc].
  revert acc. induction Hwc as [| l c k n rest w Hl Hn Hneg _ IH
                                | l c k n rest w Hl Hn Hpos _ IH
                                | l rest w Hnone _ IH ]; intros acc.
  - cbn [app Unicode.parse_lines]. apply text_regexp_match_complete in He.
    pose proof (text_int_of_match _ _ _ He) as Hint. rewrite He.
    apply Z.ltb_lt in Hlong. rewrite Hlong in Hint. rewrite Hint. reflexivity.
  - rewrite <- app_comm_cons. cbn [Unicode.parse_lines].
    rewrite (text_regexp_match_complete _ _ _ Hl), Hn.
    inversion Hshort; subst. destruct (n <? 0); apply IH; assumption.
  - rewrite <- app_comm_cons. cbn [Unicode.parse_lines].
    rewrite (text_regexp_match_complete _ _ _ Hl), Hn.
    inversion Hshort; subst. destruct (n <? 0); apply IH; assumption.
  - rewrite <- app_comm_cons. cbn [Unicode.parse_lines].
    inversion Hshort; subst.
    destruct (Unicode.regexp_match db l) as [[c k]|] eqn:Hm;
      [|apply IH; assumption].
    exfalso. exact (Hnone _ _ (text_regexp_match_sound _ _ _ Hm)).
Qed.

(** *** The range U+0000..U+00FF *)

Lemma code_lt_256 (c : ascii) : (Str.code c <? 256)%N = true.
Proof. apply N.ltb_lt. apply N_ascii_bounded. Qed.

Lemma code_eqb (a c : ascii) : N.eqb (Str.code a) (Str.code c) = Ascii.eqb a c.
Proof.
  destruct (Ascii.eqb_spec a c) as [->|Hne].
  - apply N.eqb_refl.
  - apply N.eqb_neq. intros H. apply Hne.
    rewrite <- (ascii_N_embedding a), <- (ascii_N_embedding c).
    unfold Str.code in H. rewrite H. reflexivity.
Qed.

Lemma is_digit_code (c : ascii) :
  Unicode.is_digit db (Str.code c) = Str.is_digit c.
Proof.
  unfold Unicode.is_digit, Unicode.digit_value. rewrite code_lt_256.
  change (Unicode.is_ascii_digit (Str.code c)) with (Str.is_digit c).
  destruct (Str.is_digit c); reflexivity.
Qed.

Lemma is_nonword_code (c : ascii) :
  Unicode.is_nonword db (Str.code c) = Str.is_nonword c.
Proof.
  unfold Unicode.is_nonword, Unicode.is_word. rewrite code_lt_256.
  reflexivity.
Qed.

Lemma of_string_app (a b : string) :
  Unicode.of_string (a ++ b)%string
  = Unicode.of_string a ++ Unicode.of_string b.
Proof.
  induction a as [|c a IH]; [reflexivity|]. simpl. f_equal. exact IH.
Qed.

Lemma of_string_length (s : string) :
  length (Unicode.of_string s) = String.length s.
Proof. induction s as [|c s IH]; simpl; [reflexivity | f_equal; exact IH]. Qed.

Lemma span_code (P : N -> bool) (p : ascii -> bool) (s : string) :
  (forall c, P (Str.code c) = p c) ->
  Unicode.span P (Unicode.of_string s)
  = (Unicode.of_string (fst (Str.span p s)),
     Unicode.of_string (snd (Str.span p s))).
Proof.
  intros H. induction s as [|c s IH]; [reflexivity|].
  cbn [Unicode.of_string Unicode.span Str.span]. rewrite H.
  destruct (p c); [|reflexivity].
  rewrite IH. destruct (Str.span p s) as [a b]. reflexivity.
Qed.

Lemma scan_line_latin1 (line : string) :
  Unicode.scan_line db (Unicode.of_string line)
  = match scan_line line with
    | Some (status_code, command) =>
        Some (Unicode.of_string status_code, Unicode.of_string command)
    | None => None
    end.
Proof.
  unfold Unicode.scan_line, scan_line.
  assert (Htail :
    forall (sign : string) (r0 : string),
      match Unicode.of_string r0 with
      | c :: r1 =>
          if Unicode.is_ascii_digit c then
            let (ds, r2) := Unicode.span (Unicode.is_digit db) r1 in
            if Unicode.head_is (N.eqb Unicode.colon) r2 then
              let (sep, r4) :=
                Unicode.span (Unicode.is_nonword db) (tl r2) in
              if Unicode.is_empty sep then None
              else
                let (command, _) := Unicode.span Unicode.is_dot r4 in
                Some (Unicode.of_string sign ++ c :: ds, command)
            else None
          else None
      | [] => None
      end
      = match
          match r0 with
          | String c r1 =>
              if Str.is_ascii_digit c then
                let (ds, r2) := Str.span Str.is_digit r1 in
                if Str.head_is (Ascii.eqb ":") r2 then
                  let (sep, r4) := Str.span Str.is_nonword (Str.tail r2) in
                  if Str.is_empty sep then None
                  else
                    let (command, _) := Str.span Str.is_dot r4 in
                    Some ((sign ++ String c ds)%string, command)
                else None
              else None
          | EmptyString => None
          end
        with
        | Some (status_code, command) =>
            Some (Unicode.of_string status_code, Unicode.of_string command)
        | None => None
        end).
  { intros sign [|c r1]; [reflexivity|]. cbn [Unicode.of_string].
    change (Unicode.is_ascii_digit (Str.code c)) with (Str.is_ascii_digit c).
    destruct (Str.is_ascii_digit c); [|reflexivity].
    rewrite (span_code _ Str.is_digit r1 is_digit_code).
    destruct (Str.span Str.is_digit r1) as [ds r2]. cbn [fst snd].
    destruct r2 as [|c2 r3]; [reflexivity|].
    cbn [Unicode.of_string Unicode.head_is Str.head_is tl Str.tail].
    unfold Unicode.colon. rewrite code_eqb.
    destruct (Ascii.eqb ":" c2); [|reflexivity].
    rewrite (span_code _ Str.is_nonword r3 is_nonword_code).
    destruct (Str.span Str.is_nonword r3) as [sep r4]. cbn [fst snd].
    destruct sep as [|x sep]; [reflexivity|].
    cbn [Unicode.of_string Unicode.is_empty Str.is_empty].
    rewrite (span_code _ Str.is_dot r4 (fun c => eq_refl)).
    destruct (Str.span Str.is_dot r4) as [command r5]. cbn [fst snd].
    rewrite of_string_app. reflexivity. }
  destruct line as [|c r]; [reflexivity|].
  cbn [Unicode.of_string Unicode.head_is Str.head_is tl Str.tail].
  unfold Unicode.minus at 1. rewrite code_eqb.
  destruct (Ascii.eqb "-" c).
  - exact (Htail "-"%string r).
  - exact (Htail EmptyString (String c r)).
Qed.

Lemma regexp_match_latin1 (line : string) :
  Unicode.regexp_match db (Unicode.of_string line)
  = match regexp_match line with
    | Some (status_code, command) =>
        Some (Unicode.of_string status_code, Unicode.of_string command)
    | None => None
    end.
Proof.
  rewrite text_regexp_match_scan, regexp_match_scan. apply scan_line_latin1.
Qed.

Lemma digits_value_latin1 (s : string) (acc : Z) :
  Unicode.digits_value db acc (Unicode.of_string s) = Str.digits_value acc s.
Proof.
  revert acc. induction s as [|c s IH]; intros acc; [reflexivity|].
  cbn [Unicode.of_string Unicode.digits_value Str.digits_value].
  unfold Unicode.digit_value. rewrite code_lt_256.
  change (Unicode.is_ascii_digit (Str.code c)) with (Str.is_ascii_digit c).
  destruct (Str.is_ascii_digit c); [apply IH | reflexivity].
Qed.

Lemma digit_count_latin1 (s : string) :
  Unicode.digit_count (Unicode.of_string s) = digit_count s.
Proof.
  destruct s as [|c s]; [reflexivity|].
  cbn [Unicode.of_string Unicode.digit_count digit_count].
  unfold Unicode.minus. rewrite N.eqb_sym, code_eqb, Ascii.eqb_sym.
  destruct (Ascii.eqb c "-"); cbn [length]; rewrite of_string_length;
    reflexivity.
Qed.

Lemma int_latin1 (s : string) :
  Unicode.int db (Unicode.of_string s)
  = match int (PyStr s) with
    | Ok n => Unicode.Returns n
    | Raise _ => Unicode.Raises_ValueError (Unicode.of_string s)
    end.
Proof.
  unfold Unicode.int, int. rewrite digit_count_latin1.
  destruct (int_max_str_digits <? digit_count s); [reflexivity|].
  destruct s as [|c s]; [reflexivity|]. cbn [Unicode.of_string].
  unfold Unicode.minus. rewrite N.eqb_sym, code_eqb, Ascii.eqb_sym.
  destruct (Ascii.eqb c "-").
  - destruct s as [|c' s]; [reflexivity|]. cbn [Unicode.of_string].
    change (Str.code c' :: Unicode.of_string s)
      with (Unicode.of_string (String c' s)).
    rewrite digits_value_latin1.
    destruct (Str.digits_value 0 (String c' s)); reflexivity.
  - change (Str.code c :: Unicode.of_string s)
      with (Unicode.of_string (String c s)).
    rewrite digits_value_latin1.
    destruct (Str.digits_value 0 (String c s)); reflexivity.
Qed.

Lemma int_raises_value_error (s : string) (e : exn) :
  int (PyStr s) = Raise e -> e = ValueError s.
Proof.
  unfold int.
  destruct (int_max_str_digits <? digit_count s); [congruence|].
  destruct s as [|c s]; [congruence|].
  destruct (Ascii.eqb c "-").
  - destruct s as [|c' s]; [congruence|].
    destruct (Str.digits_value 0 (String c' s)); congruence.
  - destruct (Str.digits_value 0 (String c s)); congruence.
Qed.

(** On lines of the range U+0000..U+00FF the parser on texts is the
    parser of the engine. *)
Lemma parse_lines_latin1 (last_log : list string) :
  forall acc,
    Unicode.parse_lines db (map Unicode.of_wrong_command acc)
      (map Unicode.of_string last_log)
    = Unicode.of_result (parse_lines acc last_log).
Proof.
  induction last_log as [|line rest IH]; intros acc;
    cbn [map Unicode.parse_lines parse_lines]; [reflexivity|].
  rewrite regexp_match_latin1.
  destruct (regexp_match line) as [[status_code command]|]; [|apply IH].
  rewrite int_latin1.
  destruct (int (PyStr status_code)) as [n|e] eqn:Hn.
  - destruct (n <? 0); [|apply IH].
    rewrite <- IH, map_app. reflexivity.
  - apply int_raises_value_error in Hn. subst e. reflexivity.
Qed.

End UnicodeParser.

(** C3, as stated, fails: on the three lines of the specification's own
    example the parser keeps the status code as the text ["-3"] and not
    as the integer [-3]; the line ["-1:#a"], which has no whitespace
    after the colon, is not ignored, because the pattern asks for
    non-word characters there; and a line whose status code has 4301
    digits is neither parsed nor ignored: the [int] of the code raises
    [ValueError]. *)
Lemma parse_lastlog_announced_counterexample :
  _parse_batch_lastlog
    ["-3:   conf foo bar"; "0: set enable"; "random banner"]
    = Ok [(PyStr "-3", "conf foo bar")]
  /\ announced_parse
       ["-3:   conf foo bar"; "0: set enable"; "random banner"]
     = Ok [(PyInt (-3), "conf foo bar")]
  /\ _parse_batch_lastlog
       ["-3:   conf foo bar"; "0: set enable"; "random banner"]
     <> announced_parse
          ["-3:   conf foo bar"; "0: set enable"; "random banner"]
  /\ _parse_batch_lastlog ["-1:#a"] = Ok [(PyStr "-1", "a")]
  /\ announced_parse ["-1:#a"] = Ok []
  /\ _parse_batch_lastlog ["-1:#a"] <> announced_parse ["-1:#a"]
  /\ _parse_batch_lastlog [overlong_line] = Raise (ValueError overlong_code)
  /\ announced_parse [overlong_line]
     = Ok [(PyInt (- ((10 ^ 4301 - 1) / 9)), "set a 2")]
  /\ _parse_batch_lastlog [overlong_line] <> announced_parse [overlong_line].
Proof.
  assert (H1 : _parse_batch_lastlog [overlong_line]
               = Raise (ValueError overlong_code))
    by (vm_compute; reflexivity).
  assert (H2 : announced_parse [overlong_line]
               = Ok [(PyInt (- ((10 ^ 4301 - 1) / 9)), "set a 2")])
    by (vm_compute; reflexivity).
  split; [reflexivity|]. split; [reflexivity|].
  split; [vm_compute; discriminate|].
  split; [reflexivity|]. split; [reflexivity|].
  split; [vm_compute; discriminate|].
  split; [exact H1|]. split; [exact H2|].
  rewrite H1, H2. discriminate.
Qed.

(** C3, amended: on the example the parser returns exactly
    [[("-3", "conf foo bar")]], the status code being the matched text.
    For every list of lines, of any characters and under any version of
    the character database, what it returns is, in input order, one
    [(status_code, command)] pair for each line that is an optional
    minus, a digit [0] to [9], further decimal digits, a colon and one or
    more non-word characters, followed by the command up to the end of
    the line, and whose code read as an integer is negative; every other
    line is ignored, and that list is the only one it returns.  It does
    return when no such line has a status code of more than 4300 digits;
    at the first line that has one, the [int] of the code raises
    [ValueError] and the parser returns nothing.  A line has that form
    exactly when the pattern matches it with these groups; and on lines
    of the range U+0000..U+00FF this is the parser the engine runs. *)
Theorem parse_batch_lastlog_entries (db : Unicode.database) :
  Unicode._parse_batch_lastlog db
    (map Unicode.of_string
       ["-3:   conf foo bar"; "0: set enable"; "random banner"])
  = Unicode.Returns
      [(Unicode.of_string "-3", Unicode.of_string "conf foo bar")]
  /\ (forall last_log wrong_commands,
        Unicode._parse_batch_lastlog db last_log
        = Unicode.Returns wrong_commands
        <-> Unicode.failed_entries db last_log wrong_commands)
  /\ (forall last_log,
        Unicode.short_codes db last_log ->
        exists wrong_commands,
          Unicode._parse_batch_lastlog db last_log
          = Unicode.Returns wrong_commands)
  /\ (forall before line after status_code command,
        Unicode.short_codes db before ->
        Unicode.lastlog_entry db line status_code command ->
        int_max_str_digits < Unicode.digit_count status_code ->
        Unicode._parse_batch_lastlog db (before ++ line :: after)%list
        = Unicode.Raises_ValueError status_code)
  /\ (forall line status_code command,
        Unicode.regexp_match db line = Some (status_code, command)
        <-> Unicode.lastlog_entry db line status_code command)
  /\ (forall last_log : list string,
        Unicode._parse_batch_lastlog db (map Unicode.of_string last_log)
        = Unicode.of_result (_parse_batch_lastlog last_log))
  /\ _parse_batch_lastlog
       ["-3:   conf foo bar"; "0: set enable"; "random banner"]
     = Ok [(PyStr "-3", "conf foo bar")]
  /\ _parse_batch_lastlog [overlong_line] = Raise (ValueError overlong_code).
Proof.
  split; [vm_compute; reflexivity|]. split; [|split; [|split; [|split]]].
  - intros last_log wc. unfold Unicode._parse_batch_lastlog. split.
    + intros H. destruct (text_parse_lines_sound db _ _ _ H) as (w & -> & Hfe).
      exact Hfe.
    + intros H. exact (text_parse_lines_complete db _ _ H []).
  - intros last_log Hshort.
    destruct (text_short_codes_failed_entries db _ Hshort) as [wc Hwc].
    exists wc. exact (text_parse_lines_complete db _ _ Hwc []).
  - intros before line after status_code command Hshort He Hlong.
    exact (text_parse_lines_overlong db _ _ _ _ _ Hshort He Hlong []).
  - intros line status_code command. split.
    + apply text_regexp_match_sound.
    + apply text_regexp_match_complete.
  - split; [|split].
    + intros last_log. exact (parse_lines_latin1 db last_log []).
    + reflexivity.
    + vm_compute. reflexivity.
Qed.

(** ** The engine *)

Section Properties.

Context {Dev : Type} {channel : CommandChannel Dev}.
Context {Tree : Type} {tree_ops : ConfigTree Tree}.

Abbreviation Session := (FortiOS Dev Tree).
Abbreviation Method := (@M Dev Tree).

(** *** The monad *)

Lemma bind_ext {A B : Type} (m : Method A) (f g : A -> Method B) :
  (forall a s, f a s = g a s) -> forall s, bind m f s = bind m g s.
Proof.
  intros H s. unfold bind. destruct (m s) as [[a|e] s1]; [apply H | reflexivity].
Qed.

Lemma bind_assoc {A B C : Type} (m : Method A) (f : A -> Method B)
  (g : B -> Method C) (s : Session) :
  bind (bind m f) g s = bind m (fun a => bind (f a) g) s.
Proof.
  unfold bind. destruct (m s) as [[a|e] s1]; reflexivity.
Qed.

Lemma bind_ok {A B : Type} (m : Method A) (f : A -> Method B)
  (s s1 : Session) (a : A) :
  m s = (Ok a, s1) -> bind m f s = f a s1.
Proof. intros H. unfold bind. rewrite H. reflexivity. Qed.

Lemma bind_raise {A B : Type} (m : Method A) (f : A -> Method B)
  (s s1 : Session) (e : exn) :
  m s = (Raise e, s1) -> bind m f s = (Raise e, s1).
Proof. intros H. unfold bind. rewrite H. reflexivity. Qed.

(** *** Frames *)

Lemma frame_refl (s : Session) : frame true 0 s s.
Proof.
  split; try reflexivity; auto.
  unfold batch_executions. lia.
Qed.

Lemma frame_trans (b : bool) (k1 k2 : nat) (s1 s2 s3 : Session) :
  frame b k1 s1 s2 -> frame b k2 s2 s3 -> frame b (k1 + k2) s1 s3.
Proof.
  intros [V1 C1 L1 T1 S1 O1 B1] [V2 C2 L2 T2 S2 O2 B2]. split.
  - congruence.
  - congruence.
  - lia.
  - intros r Hr. rewrite T2 by lia. apply T1. exact Hr.
  - intros Hb. destruct (S1 Hb) as [Ho1 Hs1]. destruct (S2 Hb) as [Ho2 Hs2].
    split; [congruence|]. intros r Hr. rewrite Hs2 by lia. apply Hs1. exact Hr.
  - auto.
  - lia.
Qed.

Lemma frame_weaken (b : bool) (k k' : nat) (s s' : Session) :
  frame true k s s' -> (k <= k')%nat -> frame b k' s s'.
Proof.
  intros [V C L T S O B] Hk. split; auto. lia.
Qed.

Lemma frame_more (b : bool) (k k' : nat) (s s' : Session) :
  frame b k s s' -> (k <= k')%nat -> frame b k' s s'.
Proof.
  intros [V C L T S O B] Hk. split; auto. lia.
Qed.

Lemma respects_pure {A : Type} (m : Method A) (b : bool) (k : nat) :
  (forall s, snd (m s) = s) -> respects b k m.
Proof.
  intros H s r s' E. pose proof (H s) as Hs. rewrite E in Hs. simpl in Hs.
  subst s'. apply (frame_weaken b 0); [apply frame_refl | lia].
Qed.

Lemma respects_ret {A : Type} (a : A) (b : bool) (k : nat) :
  respects b k (ret a : Method A).
Proof. apply respects_pure. reflexivity. Qed.

Lemma respects_raise {A : Type} (e : exn) (b : bool) (k : nat) :
  respects b k (raise e : Method A).
Proof. apply respects_pure. reflexivity. Qed.

Lemma respects_gets {A : Type} (f : Session -> A) (b : bool) (k : nat) :
  respects b k (gets f).
Proof. apply respects_pure. reflexivity. Qed.

Lemma respects_lift {A : Type} (r : result A) (b : bool) (k : nat) :
  respects b k (lift r : Method A).
Proof. apply respects_pure. reflexivity. Qed.

Lemma respects_bind {A B : Type} (b : bool) (k1 k2 k : nat)
  (m : Method A) (f : A -> Method B) :
  respects b k1 m -> (forall a, respects b k2 (f a)) ->
  (k1 + k2 <= k)%nat -> respects b k (bind m f).
Proof.
  intros Hm Hf Hk s r s' E. unfold bind in E.
  destruct (m s) as [[a|e] s1] eqn:Em.
  - apply (frame_more b (k1 + k2)); [|exact Hk].
    eapply frame_trans; [eapply Hm; exact Em | eapply Hf; exact E].
  - injection E as <- <-. apply (frame_more b k1); [|lia]. eapply Hm. exact Em.
Qed.

Lemma respects_strict {A : Type} (b : bool) (k k' : nat) (m : Method A) :
  respects true k m -> (k <= k')%nat -> respects b k' m.
Proof.
  intros H Hk s r s' E. eapply frame_weaken; [eapply H; exact E | exact Hk].
Qed.

Lemma respects_when (b c : bool) (k : nat) (m : Method unit) :
  (c = true -> respects b k m) -> respects b k (when c m).
Proof.
  intros H. destruct c; simpl; [apply H; reflexivity | apply respects_ret].
Qed.

(** *** What goes over the session *)

Lemma lastlog_not_batch_start (vd : option string) :
  is_batch_start (lastlog_cmd vd) = false.
Proof. destruct vd; reflexivity. Qed.

Lemma show_not_batch_start (vd : option string) (path : string) :
  is_batch_start (show_command vd path) = false.
Proof.
  destruct vd as [v|]; [|reflexivity].
  unfold show_command. destruct (String.eqb v "global"); reflexivity.
Qed.

Lemma batch_cmd_is_batch_start (vd : option string) (text : string) :
  is_batch_start (batch_cmd vd text) = true.
Proof. destruct vd; reflexivity. Qed.

Lemma batch_executions_sent (s : Session) (d : Dev) (command : string) :
  batch_executions (with_channel d command s)
  = (batch_executions s + if is_batch_start command then 1 else 0)%nat.
Proof.
  unfold batch_executions. simpl. rewrite filter_app, length_app. f_equal.
  rewrite filter_cons, filter_nil.
  case_decide as Hd; destruct (is_batch_start command); simpl; congruence.
Qed.

Lemma execute_command_respects (command : string) (b : bool) (k : nat) :
  ((if is_batch_start command then 1 else 0) <= k)%nat ->
  respects b k (execute_command command).
Proof.
  intros Hk s r s' E. unfold execute_command in E.
  destruct (ssh s) as [d|] eqn:Hssh.
  - destruct (send_command d command) as [answer d'] eqn:Hsend.
    assert (F : frame b k s (with_channel d' command s)).
    { split; try reflexivity; simpl; auto.
      rewrite batch_executions_sent. lia. }
    destruct answer as [output|what].
    + destruct (Str.contains "Command fail" output).
      * unfold bind, exceptions_module, lift in E. simpl in E.
        injection E as <- <-. exact F.
      * injection E as <- <-. exact F.
    + injection E as <- <-. exact F.
  - injection E as <- <-. apply (frame_weaken b 0); [apply frame_refl | lia].
Qed.

Lemma compare_config_pure (other : option ref) (text : bool) (s : Session) :
  exists v, compare_config other text s = (Ok v, s).
Proof.
  unfold compare_config, bind, gets. destruct (negb text); eexists; reflexivity.
Qed.

Lemma compare_config_diff (other : option ref) (s : Session) :
  compare_config other false s
  = (Ok (config_compare
           (deref (store s) (running_config s))
           (deref (store s)
              (match other with
               | None => candidate_config s
               | Some o => o
               end))), s).
Proof. reflexivity. Qed.

Lemma compare_config_respects (other : option ref) (text b : bool) (k : nat) :
  respects b k (compare_config other text : Method string).
Proof.
  apply respects_pure. intros s.
  destruct (compare_config_pure other text s) as [v ->]. reflexivity.
Qed.

Lemma _execute_respects (config_text : option string) (b : bool) :
  respects b 1 (_execute config_text).
Proof.
  apply (respects_strict b 1); [|lia]. unfold _execute.
  apply (respects_bind true 0 1).
  - destruct config_text; [apply respects_ret | apply compare_config_respects].
  - intros text. apply (respects_bind true 0 1); [apply respects_gets | | lia].
    intros vd. apply (respects_bind true 1 0).
    + apply execute_command_respects. rewrite batch_cmd_is_batch_start. lia.
    + intros _. apply (respects_bind true 0 0).
      * apply execute_command_respects. rewrite lastlog_not_batch_start. lia.
      * intros last_log. apply respects_lift.
      * lia.
    + lia.
  - lia.
Qed.

(** *** Reloading the running configuration *)

Lemma loads_into_refl (s : Session) : loads_into s s.
Proof. split; auto. Qed.

Lemma loads_into_trans (s1 s2 s3 : Session) :
  loads_into s1 s2 -> loads_into s2 s3 -> loads_into s1 s3.
Proof.
  intros [V1 C1 O1 R1 L1 T1 P1 B1] [V2 C2 O2 R2 L2 T2 P2 B2].
  split; try congruence; auto.
  intros r Hr. rewrite T2 by congruence. apply T1. exact Hr.
Qed.

Lemma execute_command_loads (command : string) (s : Session)
  (r : result (list string)) (s' : Session) :
  is_batch_start command = false ->
  execute_command command s = (r, s') -> loads_into s s'.
Proof.
  intros Hb E. unfold execute_command in E.
  destruct (ssh s) as [d|] eqn:Hssh.
  - destruct (send_command d command) as [answer d'] eqn:Hsend.
    assert (F : loads_into s (with_channel d' command s)).
    { split; try reflexivity; simpl; auto.
      rewrite batch_executions_sent, Hb. lia. }
    destruct answer as [output|what].
    + destruct (Str.contains "Command fail" output).
      * unfold bind, exceptions_module, lift in E. simpl in E.
        injection E as <- <-. exact F.
      * injection E as <- <-. exact F.
    + injection E as <- <-. exact F.
  - injection E as <- <-. apply loads_into_refl.
Qed.

Lemma update_running_loads (f : FortiConfig Tree -> FortiConfig Tree)
  (s : Session) :
  loads_into s (with_store (alter f (running_config s) (store s)) s).
Proof.
  split; try reflexivity; simpl; auto.
  - apply length_alter.
  - intros r Hr. apply list_lookup_alter_ne. congruence.
Qed.

Lemma load_config_loads (path : string) (s : Session)
  (r : result unit) (s' : Session) :
  load_config path false true None s = (r, s') -> loads_into s s'.
Proof.
  unfold load_config. intros E.
  unfold bind at 1 in E. unfold bind at 1 in E. unfold gets at 1 in E.
  destruct (execute_command (show_command (vdom s) path) s)
    as [[text|e] s1] eqn:Ex.
  - apply execute_command_loads in Ex; [|apply show_not_batch_start].
    simpl in E. unfold bind, gets, update_config, ret in E. simpl in E.
    injection E as <- <-.
    eapply loads_into_trans; [exact Ex|].
    eapply loads_into_trans;
      [exact (update_running_loads (parse_config_output text) s1)|].
    exact (update_running_loads (add_path path)
             (with_store
                (alter (parse_config_output text) (running_config s1) (store s1))
                s1)).
  - apply execute_command_loads in Ex; [|apply show_not_batch_start].
    injection E as <- <-. exact Ex.
Qed.

Lemma for_each_load_loads (paths : list string) :
  forall (s : Session) (r : result unit) (s' : Session),
    for_each paths (fun path => load_config path false true None) s = (r, s') ->
    loads_into s s'.
Proof.
  induction paths as [|path rest IH]; intros s r s' E; simpl in E.
  - injection E as <- <-. apply loads_into_refl.
  - unfold bind in E.
    destruct (load_config path false true None s) as [[[]|e] s1] eqn:El.
    + eapply loads_into_trans; [eapply load_config_loads; exact El|].
      eapply IH. exact E.
    + injection E as <- <-. eapply load_config_loads. exact El.
Qed.

Lemma content_set_name (h : list (FortiConfig Tree)) (r0 r : ref)
  (name : string) :
  content (alter (set_name name) r0 h) r = content h r.
Proof.
  unfold content, deref.
  destruct (decide (r0 = r)) as [->|Hne].
  - rewrite list_lookup_alter_eq. unfold ref in *.
    destruct (h !! r); reflexivity.
  - rewrite list_lookup_alter_ne by exact Hne. reflexivity.
Qed.

Lemma content_lookup (h h' : list (FortiConfig Tree)) (r : ref) :
  h' !! r = h !! r -> content h' r = content h r.
Proof. unfold content, deref. intros ->. reflexivity. Qed.

Lemma _reload_config_snapshot (s : Session) :
  _reload_config true s = _reload_config false (take_snapshot s).
Proof. reflexivity. Qed.

Lemma _reload_config_fresh (s : Session) (r : result unit) (s' : Session) :
  _reload_config false s = (r, s') ->
  vdom s' = vdom s /\ candidate_config s' = candidate_config s
  /\ original_config s' = original_config s
  /\ running_config s' = length (store s)
  /\ length (store s') = S (length (store s))
  /\ (forall r0 : ref, (r0 < length (store s))%nat ->
        store s' !! r0 = store s !! r0)
  /\ (is_Some (ssh s) -> is_Some (ssh s'))
  /\ batch_executions s' = batch_executions s.
Proof.
  intros E. unfold _reload_config in E.
  unfold when, bind, gets, alloc, set_running_config, ret in E.
  cbv beta iota in E.
  apply for_each_load_loads in E.
  destruct E as [V C O R L T P B]. simpl in *.
  repeat split; auto.
  - rewrite L, length_app. simpl. lia.
  - intros r0 Hr0. rewrite T by lia. apply lookup_app_l. lia.
Qed.

Lemma _reload_config_respects (reload_original_config : bool) :
  respects (negb reload_original_config) 0
    (_reload_config reload_original_config).
Proof.
  intros s r s' E. destruct reload_original_config.
  - rewrite _reload_config_snapshot in E. apply _reload_config_fresh in E.
    destruct E as (V & C & O & R & L & T & P & B).
    unfold take_snapshot in *. simpl in *. rewrite length_alter in *.
    split; simpl; auto.
    + lia.
    + intros r0 Hr0. rewrite (content_lookup _ _ _ (T r0 Hr0)).
      apply content_set_name.
    + discriminate.
    + unfold batch_executions in *. simpl in *. lia.
  - apply _reload_config_fresh in E.
    destruct E as (V & C & O & R & L & T & P & B).
    split; simpl; auto.
    + lia.
    + intros r0 Hr0. apply content_lookup. apply T. exact Hr0.
    + lia.
Qed.

(** *** The retry loop *)

Lemma retry_loop_respects (retries : nat) :
  forall (config_text : option string) (wrong_commands : list wrong_command),
    respects true retries (retry_loop retries config_text wrong_commands).
Proof.
  induction retries as [|n IH]; intros config_text wrong_commands;
    cbn [retry_loop].
  - apply respects_ret.
  - apply (respects_bind true 0 (S n)); [apply respects_lift | | lia].
    intros [|].
    + apply (respects_bind true 0 (S n)); [| | lia].
      * destruct config_text;
          [apply respects_ret | apply compare_config_respects].
      * intros text. apply (respects_bind true 1 n); [| | lia].
        -- apply _execute_respects.
        -- intros wc. apply (respects_bind true 0 n); [| | lia].
           ++ apply (_reload_config_respects false).
           ++ intros _. apply IH.
    + eapply respects_strict; [apply IH | lia].
Qed.

Lemma commit_attempts_respects (config_text : option string)
  (reload_original_config : bool) :
  respects (negb reload_original_config) 6
    (commit_attempts config_text reload_original_config).
Proof.
  unfold commit_attempts.
  apply (respects_bind _ 1 5); [apply _execute_respects | | lia].
  intros wc. apply (respects_bind _ 0 5); [| | lia].
  - apply _reload_config_respects.
  - intros _. eapply respects_strict; [apply retry_loop_respects | lia].
Qed.

(** *** Failure handling, rollback and the nesting of [_commit] *)

Lemma commit_failed_forced (rb : Method unit)
  (wrong_commands : list wrong_command) (s : Session) :
  commit_failed rb true wrong_commands s
  = (Raise (NameError "exceptions"), s).
Proof. reflexivity. Qed.

Lemma commit_failed_unforced (rb : Method unit)
  (wrong_commands : list wrong_command) (s : Session) :
  commit_failed rb false wrong_commands s
  = match rb s with
    | (Ok _, s1) => (Raise (NameError "exceptions"), s1)
    | (Raise e, s1) => (Raise e, s1)
    end.
Proof.
  unfold commit_failed. cbn [negb]. unfold bind at 1. unfold bind at 1.
  destruct (rb s) as [[[]|e] s1]; reflexivity.
Qed.

Lemma failure_handling_ext (rb1 rb2 : Method unit) (force : bool)
  (wrong_commands : list wrong_command) :
  (force = false -> forall s, rb1 s = rb2 s) ->
  forall s, failure_handling rb1 force wrong_commands s
            = failure_handling rb2 force wrong_commands s.
Proof.
  intros H s. unfold failure_handling.
  destruct (0 <? Z.of_nat (length wrong_commands)); [|reflexivity].
  cbn [when]. destruct force.
  - rewrite !commit_failed_forced. reflexivity.
  - rewrite !commit_failed_unforced, (H eq_refl). reflexivity.
Qed.

Lemma failure_handling_respects (rb : Method unit) (force : bool) (k : nat)
  (wrong_commands : list wrong_command) :
  (force = false -> respects true k rb) ->
  respects true k (failure_handling rb force wrong_commands).
Proof.
  intros H s r s' E. unfold failure_handling in E.
  destruct (0 <? Z.of_nat (length wrong_commands)).
  - cbn [when] in E. destruct force.
    + rewrite commit_failed_forced in E. injection E as <- <-.
      apply (frame_weaken true 0); [apply frame_refl | lia].
    + rewrite commit_failed_unforced in E.
      destruct (rb s) as [[[]|e] s1] eqn:Er; injection E as <- <-;
        eapply (H eq_refl); exact Er.
  - injection E as <- <-.
    apply (frame_weaken true 0); [apply frame_refl | lia].
Qed.

Lemma rollback_body_respects (k : nat)
  (commit_ : option string -> bool -> bool -> Method unit) :
  (forall text, respects true k (commit_ text true false)) ->
  respects true k (rollback_body commit_).
Proof.
  intros H. unfold rollback_body.
  apply (respects_bind true 0 k); [apply respects_gets | | lia].
  intros original. apply (respects_bind true 0 k); [| | lia].
  - apply compare_config_respects.
  - intros text. apply respects_when. intros _. apply H.
Qed.

Lemma _commit_at_forced_respects (depth : nat) (config_text : option string)
  (reload_original_config : bool) :
  respects (negb reload_original_config) 6
    (_commit_at depth config_text true reload_original_config).
Proof.
  destruct depth as [|d]; cbn [_commit_at]; [apply respects_raise|].
  unfold commit_body.
  apply (respects_bind _ 6 0); [apply commit_attempts_respects | | lia].
  intros wc. apply (respects_strict _ 0); [|lia].
  apply failure_handling_respects. discriminate.
Qed.

Lemma _commit_at_respects (depth : nat) (config_text : option string)
  (force reload_original_config : bool) :
  respects (negb reload_original_config) 12
    (_commit_at depth config_text force reload_original_config).
Proof.
  destruct depth as [|d]; cbn [_commit_at]; [apply respects_raise|].
  unfold commit_body.
  apply (respects_bind _ 6 6); [apply commit_attempts_respects | | lia].
  intros wc. apply (respects_strict _ 6); [|lia].
  apply failure_handling_respects. intros _.
  apply rollback_body_respects. intros text.
  apply (_commit_at_forced_respects d text false).
Qed.

Lemma rollback_respects : respects true 6 (rollback : Method unit).
Proof.
  apply rollback_body_respects. intros text.
  apply (_commit_at_forced_respects 2 text false).
Qed.

(** A forced commit never reaches its rollback, so one level of nesting
    is as good as any other. *)
Lemma _commit_at_forced_depth (d1 d2 : nat) (config_text : option string)
  (reload_original_config : bool) (s : Session) :
  _commit_at (S d1) config_text true reload_original_config s
  = _commit_at (S d2) config_text true reload_original_config s.
Proof.
  cbn [_commit_at]. unfold commit_body. apply bind_ext.
  intros wc s1. apply failure_handling_ext. discriminate.
Qed.

Lemma rollback_body_depth (d1 d2 : nat) (s : Session) :
  rollback_body (_commit_at (S d1)) s = rollback_body (_commit_at (S d2)) s.
Proof.
  unfold rollback_body. apply bind_ext. intros original s1.
  apply bind_ext. intros text s2.
  destruct (0 <? Z.of_nat (String.length text)); [|reflexivity].
  cbn [when]. apply _commit_at_forced_depth.
Qed.

(** Two levels are enough for any commit: deeper nesting changes
    nothing, and the depth is never exhausted. *)
Lemma _commit_at_depth (d : nat) (config_text : option string)
  (force reload_original_config : bool) (s : Session) :
  _commit_at (S (S d)) config_text force reload_original_config s
  = _commit config_text force reload_original_config s.
Proof.
  unfold _commit. cbn [_commit_at]. unfold commit_body. apply bind_ext.
  intros wc s1. apply failure_handling_ext. intros _ s2.
  exact (rollback_body_depth d 0 s2).
Qed.

(** [_commit] as the source writes it: its rollback is [rollback], which
    calls [_commit] again. *)
Lemma _commit_unfold (config_text : option string)
  (force reload_original_config : bool) (s : Session) :
  _commit config_text force reload_original_config s
  = commit_body rollback config_text force reload_original_config s.
Proof.
  unfold _commit at 1. cbn [_commit_at]. unfold commit_body. apply bind_ext.
  intros wc s1. apply failure_handling_ext. intros _ s2.
  exact (rollback_body_depth 0 1 s2).
Qed.

(** *** The constructor *)

(** C10: whatever the arguments, [FortiOS.__init__] raises
    [NameError] for the name [host]: its first statement reads a name that
    is neither a parameter nor a global of the module nor a builtin, so
    the constructor builds no session object. *)
Theorem init_raises_name_error (hostname username_ password_ : string)
  (vdom_ : option string) (device_type_ : string) (timeout_ : Z) :
  (__init__ hostname username_ password_ vdom_ device_type_ timeout_
     : result Session)
  = Raise (NameError "host").
Proof. destruct vdom_; reflexivity. Qed.

(** *** The candidate configuration *)

Lemma deref_alter (f : FortiConfig Tree -> FortiConfig Tree)
  (h : list (FortiConfig Tree)) (r : ref) :
  (r < length h)%nat -> deref (alter f r h) r = f (deref h r).
Proof.
  intros Hr. unfold deref. rewrite list_lookup_alter_eq. unfold ref in *.
  destruct (lookup_lt_is_Some_2 h r Hr) as [c ->]. reflexivity.
Qed.

(** C7: a commit (with its retries and its reloads of the running
    configuration), a rollback and a reload leave the candidate
    configuration as it is: the session still names the same candidate
    object, and its tree and recorded paths are the same before and
    after.  An explicit load into the candidate does change it: the text
    is parsed into its tree and the path is recorded. *)
Theorem candidate_untouched (s : Session) :
  (candidate_config s < length (store s))%nat ->
  (forall config_text force r s',
      commit config_text force s = (r, s') ->
      candidate_config s' = candidate_config s
      /\ content (store s') (candidate_config s')
         = content (store s) (candidate_config s))
  /\ (forall r s',
        rollback s = (r, s') ->
        candidate_config s' = candidate_config s
        /\ content (store s') (candidate_config s')
           = content (store s) (candidate_config s))
  /\ (forall reload_original_config r s',
        _reload_config reload_original_config s = (r, s') ->
        candidate_config s' = candidate_config s
        /\ content (store s') (candidate_config s')
           = content (store s) (candidate_config s))
  /\ (forall path empty_candidate text,
        exists s',
          load_config path true empty_candidate (Some text) s = (Ok tt, s')
          /\ candidate_config s' = candidate_config s
          /\ content (store s') (candidate_config s')
             = (parse (fst (content (store s) (candidate_config s))) text,
                cfg_paths
                  (add_path path (deref (store s) (candidate_config s))))).
Proof.
  intros Hwf. split; [|split; [|split]].
  - intros config_text force r s' E.
    apply (_commit_at_respects 2 config_text force true) in E.
    destruct E as [_ C _ T _ _ _]. rewrite C. split; [reflexivity|].
    apply T. exact Hwf.
  - intros r s' E. apply rollback_respects in E.
    destruct E as [_ C _ T _ _ _]. rewrite C. split; [reflexivity|].
    apply T. exact Hwf.
  - intros b r s' E. apply _reload_config_respects in E.
    destruct E as [_ C _ T _ _ _]. rewrite C. split; [reflexivity|].
    apply T. exact Hwf.
  - intros path empty_candidate text. eexists. split; [|split].
    + unfold load_config, bind, ret, when, gets, update_config.
      rewrite orb_true_r. cbn. reflexivity.
    + reflexivity.
    + cbn [store with_store candidate_config]. unfold content.
      rewrite !deref_alter by (rewrite ?length_alter; exact Hwf).
      reflexivity.
Qed.

(** *** Rollback *)

(** [rollback] as the source writes it: nothing when the diff is empty,
    and otherwise the forced commit of the diff, without a new
    snapshot. *)
Lemma rollback_unfold (s : Session) :
  rollback s
  = if Str.is_empty (rollback_text s) then (Ok tt, s)
    else _commit (Some (rollback_text s)) true false s.
Proof.
  unfold rollback, rollback_body.
  unfold bind at 1. unfold gets at 1.
  unfold bind at 1. rewrite compare_config_diff. fold (rollback_text s).
  destruct (rollback_text s); reflexivity.
Qed.

(** C4, amended: with a snapshot [snap] taken, [rollback] computes the
    diff from the running configuration to the snapshot; when the diff is
    empty it returns with the session as it was (nothing is sent), and
    otherwise it is the commit of that diff with [force] set and without
    reloading the snapshot.  Whatever the outcome, the session names the
    same snapshot afterwards and the snapshot object is unchanged. *)
Theorem rollback_to_snapshot (s : Session) (snap : ref) :
  original_config s = Some snap ->
  let text :=
    config_compare (deref (store s) (running_config s))
                   (deref (store s) snap) in
  (text = EmptyString -> rollback s = (Ok tt, s))
  /\ (text <> EmptyString ->
      rollback s = _commit (Some text) true false s)
  /\ (forall r s',
        rollback s = (r, s') ->
        original_config s' = Some snap
        /\ ((snap < length (store s))%nat ->
            store s' !! snap = store s !! snap)).
Proof.
  intros Hsnap text. split; [|split].
  - intros Hempty. unfold rollback, rollback_body.
    unfold bind at 1. unfold gets at 1. rewrite Hsnap.
    unfold bind at 1. rewrite compare_config_diff. fold text.
    rewrite Hempty. reflexivity.
  - intros Hne. unfold rollback, rollback_body.
    unfold bind at 1. unfold gets at 1. rewrite Hsnap.
    unfold bind at 1. rewrite compare_config_diff. fold text.
    destruct text; [congruence | reflexivity].
  - intros r s' E. apply rollback_respects in E.
    destruct E as [_ _ _ _ S _ _]. destruct (S eq_refl) as [O T].
    split; [congruence|]. intros Hwf. apply T. exact Hwf.
Qed.

(** *** Failures that are not retried *)

Lemma find_retryable_none (wrong_commands : list wrong_command) :
  Forall (fun w => exists n, int (fst w) = Ok n /\ n <> -3 /\ n <> -23)
    wrong_commands ->
  find_retryable wrong_commands = Ok false.
Proof.
  induction 1 as [|w rest (n & Hn & H3 & H23) _ IH]; cbn [find_retryable];
    [reflexivity|].
  rewrite Hn. unfold retry_codes. cbn [existsb].
  destruct (Z.eqb_spec n (-3)); [contradiction|].
  destruct (Z.eqb_spec n (-23)); [contradiction|]. exact IH.
Qed.

Lemma retry_loop_idle (retries : nat) (config_text : option string)
  (wrong_commands : list wrong_command) (s : Session) :
  find_retryable wrong_commands = Ok false ->
  retry_loop retries config_text wrong_commands s = (Ok wrong_commands, s).
Proof.
  intros H. induction retries as [|n IH]; cbn [retry_loop]; [reflexivity|].
  unfold bind, lift. rewrite H. exact IH.
Qed.

Lemma failure_handling_nonempty (rb : Method unit) (force : bool)
  (wrong_commands : list wrong_command) (s : Session) :
  wrong_commands <> [] ->
  failure_handling rb force wrong_commands s
  = commit_failed rb force wrong_commands s.
Proof.
  intros H. unfold failure_handling.
  destruct wrong_commands; [congruence | reflexivity].
Qed.

(** C5: when the failures of the first attempt all have codes outside
    [{-3, -23}], the retry loop returns the same failures with the
    session as it was, so it sends nothing; and the commit is the reload
    followed at once by the failure handling: forced, it raises; not
    forced, it rolls back first (nothing when the rollback has no text
    to push, otherwise the forced commit of that text, whose exception
    it lets through) and then raises.  What it raises is [NameError] for
    the name [exceptions], which the module does not bind. *)
Theorem non_retryable_short_circuit (s s1 : Session)
  (config_text : option string) (force reload_original_config : bool)
  (wrong_commands : list wrong_command) :
  _execute config_text s = (Ok wrong_commands, s1) ->
  wrong_commands <> [] ->
  Forall (fun w => exists n, int (fst w) = Ok n /\ n <> -3 /\ n <> -23)
    wrong_commands ->
  (forall s2, retry_loop 5 config_text wrong_commands s2
              = (Ok wrong_commands, s2))
  /\ commit_attempts config_text reload_original_config s
     = bind (_reload_config reload_original_config)
         (fun _ => ret wrong_commands) s1
  /\ _commit config_text force reload_original_config s
     = match _reload_config reload_original_config s1 with
       | (Raise e, s2) => (Raise e, s2)
       | (Ok _, s2) =>
           if force || Str.is_empty (rollback_text s2)
           then (Raise (NameError "exceptions"), s2)
           else
             match _commit (Some (rollback_text s2)) true false s2 with
             | (Ok _, s3) => (Raise (NameError "exceptions"), s3)
             | (Raise e, s3) => (Raise e, s3)
             end
       end.
Proof.
  intros Hex Hne Hcodes. apply find_retryable_none in Hcodes.
  split; [|split].
  - intros s2. apply retry_loop_idle. exact Hcodes.
  - unfold commit_attempts. rewrite (bind_ok _ _ _ _ _ Hex).
    apply bind_ext. intros _ s2. apply retry_loop_idle. exact Hcodes.
  - rewrite _commit_unfold. unfold commit_body, commit_attempts.
    rewrite bind_assoc, (bind_ok _ _ _ _ _ Hex), bind_assoc.
    unfold bind at 1.
    destruct (_reload_config reload_original_config s1) as [[[]|e] s2];
      [|reflexivity].
    rewrite (bind_ok _ _ _ _ _
               (retry_loop_idle 5 config_text wrong_commands s2 Hcodes)).
    rewrite failure_handling_nonempty by exact Hne.
    destruct force; [apply commit_failed_forced|].
    rewrite commit_failed_unforced, rollback_unfold. cbn [orb].
    destruct (Str.is_empty (rollback_text s2)); [reflexivity|].
    destruct (_commit (Some (rollback_text s2)) true false s2)
      as [[[]|e] s3]; reflexivity.
Qed.

(** *** The retry bound *)

(** Whatever the device does, the attempts of one [_commit] send at most
    six batch scripts: the first attempt and five retries. *)
Lemma commit_attempts_at_most_six (config_text : option string)
  (reload_original_config : bool) (s : Session)
  (r : result (list wrong_command)) (s' : Session) :
  commit_attempts config_text reload_original_config s = (r, s') ->
  (batch_executions s' <= batch_executions s + 6)%nat.
Proof.
  intros E. apply commit_attempts_respects in E.
  destruct E as [_ _ _ _ _ _ [_ B]]. exact B.
Qed.

Section DeviceInvariant.

(** A property [inv] of the state of the device that every command
    keeps, and under which the device answers every command, and never
    with [Command fail]. *)
Variable inv : Dev -> Prop.
Hypothesis inv_step :
  forall d command, inv d -> inv (snd (send_command d command)).
Hypothesis quiet : quiet_on inv.

Lemma execute_command_on (command : string) (s : Session) :
  connected inv s ->
  exists d output d',
    ssh s = Some d
    /\ send_command d command = (Output output, d')
    /\ execute_command command s
       = (Ok (Str.splitlines output), with_channel d' command s)
    /\ connected inv (with_channel d' command s).
Proof.
  intros (d & Hd & Hinv).
  destruct (quiet d command Hinv) as (output & d' & Hsend & Hfail).
  exists d, output, d'. split; [exact Hd|]. split; [exact Hsend|]. split.
  - unfold execute_command. rewrite Hd, Hsend, Hfail. reflexivity.
  - exists d'. split; [reflexivity|].
    pose proof (inv_step d command Hinv) as H. rewrite Hsend in H. exact H.
Qed.

Lemma load_config_on (path : string) (s : Session) :
  connected inv s ->
  exists s',
    load_config path false true None s = (Ok tt, s') /\ connected inv s'.
Proof.
  intros Hopen.
  destruct (execute_command_on (show_command (vdom s) path) s Hopen)
    as (d & output & d' & _ & _ & Hex & Hopen').
  unfold load_config.
  unfold bind at 1. unfold bind at 1. unfold gets at 1. rewrite Hex.
  eexists. split; [reflexivity | exact Hopen'].
Qed.

Lemma for_each_load_on (paths : list string) :
  forall s : Session,
    connected inv s ->
    exists s',
      for_each paths (fun path => load_config path false true None) s
      = (Ok tt, s')
      /\ connected inv s'.
Proof.
  induction paths as [|path rest IH]; intros s Hopen; cbn [for_each].
  - exists s. split; [reflexivity | exact Hopen].
  - destruct (load_config_on path s Hopen) as (s1 & H1 & Hopen1).
    rewrite (bind_ok _ _ _ _ _ H1). apply IH. exact Hopen1.
Qed.

Lemma _reload_config_on (reload_original_config : bool) (s : Session) :
  connected inv s ->
  exists s',
    _reload_config reload_original_config s = (Ok tt, s')
    /\ connected inv s' /\ vdom s' = vdom s
    /\ batch_executions s' = batch_executions s.
Proof.
  intros Hopen.
  assert (H : exists s', _reload_config reload_original_config s = (Ok tt, s')
                         /\ connected inv s').
  { destruct reload_original_config.
    - rewrite _reload_config_snapshot.
      unfold _reload_config, when, bind, gets, alloc, set_running_config, ret.
      cbv beta iota. apply for_each_load_on. exact Hopen.
    - unfold _reload_config, when, bind, gets, alloc, set_running_config, ret.
      cbv beta iota. apply for_each_load_on. exact Hopen. }
  destruct H as (s' & H & Hopen'). exists s'. split; [exact H|].
  split; [exact Hopen'|].
  apply _reload_config_respects in H. destruct H as [V _ _ _ _ _ B].
  split; [exact V | lia].
Qed.

Variable code : Z.
Hypothesis one_failure : lastlog_on inv code.

Lemma _execute_on (config_text : option string) (s : Session) :
  connected inv s ->
  exists status_code command s',
    _execute config_text s = (Ok [(PyStr status_code, command)], s')
    /\ int (PyStr status_code) = Ok code
    /\ connected inv s'
    /\ batch_executions s' = S (batch_executions s).
Proof.
  intros Hopen. unfold _execute.
  assert (Ht : exists text,
             match config_text with
             | Some text => ret text
             | None => compare_config None false
             end s = (Ok text, s)).
  { destruct config_text;
        [eexists; reflexivity | apply compare_config_pure]. }
  destruct Ht as [text Ht]. rewrite (bind_ok _ _ _ _ _ Ht).
  unfold bind at 1. unfold gets at 1.
  destruct (execute_command_on (batch_cmd (vdom s) text) s Hopen)
    as (d & out1 & d1 & _ & _ & H1 & Hopen1).
  rewrite (bind_ok _ _ _ _ _ H1).
  set (s1 := with_channel d1 (batch_cmd (vdom s) text) s) in *.
  destruct (execute_command_on (lastlog_cmd (vdom s)) s1 Hopen1)
    as (d1' & out2 & d2 & Hd1 & Hsend & H2 & Hopen2).
  rewrite (bind_ok _ _ _ _ _ H2).
  assert (Hinv1 : inv d1').
  { destruct Hopen1 as (x & Hx & Hinvx). rewrite Hd1 in Hx.
    injection Hx as <-. exact Hinvx. }
  destruct (one_failure d1' (vdom s) out2 d2 Hinv1 Hsend)
    as (status_code & command & Hparse & Hint).
  exists status_code, command. eexists. split; [|split; [|split]].
  - unfold lift. rewrite Hparse. reflexivity.
  - exact Hint.
  - exact Hopen2.
  - rewrite batch_executions_sent, lastlog_not_batch_start.
    subst s1. rewrite batch_executions_sent, batch_cmd_is_batch_start. lia.
Qed.

Hypothesis retryable : existsb (Z.eqb code) retry_codes = true.

Lemma retry_loop_on (retries : nat) :
  forall (config_text : option string) (status_code command : string)
         (s : Session),
    connected inv s ->
    int (PyStr status_code) = Ok code ->
    exists status_code' command' s',
      retry_loop retries config_text [(PyStr status_code, command)] s
      = (Ok [(PyStr status_code', command')], s')
      /\ int (PyStr status_code') = Ok code
      /\ connected inv s'
      /\ batch_executions s' = (batch_executions s + retries)%nat.
Proof.
  induction retries as [|n IH];
    intros config_text status_code command s Hopen Hint; cbn [retry_loop].
  - exists status_code, command, s. repeat split; auto.
  - assert (Hfind : find_retryable [(PyStr status_code, command)] = Ok true).
    { cbn [find_retryable fst]. rewrite Hint, retryable. reflexivity. }
    unfold bind at 1. unfold lift at 1. rewrite Hfind.
    assert (Ht : exists text,
               match config_text with
               | Some text => ret text
               | None => compare_config None false
               end s = (Ok text, s)).
    { destruct config_text;
        [eexists; reflexivity | apply compare_config_pure]. }
    destruct Ht as [text Ht]. rewrite (bind_ok _ _ _ _ _ Ht).
    destruct (_execute_on (Some text) s Hopen)
      as (c1 & k1 & s1 & He & Hint1 & Hopen1 & Hb1).
    rewrite (bind_ok _ _ _ _ _ He).
    destruct (_reload_config_on false s1 Hopen1)
      as (s2 & Hr & Hopen2 & _ & Hb2).
    rewrite (bind_ok _ _ _ _ _ Hr).
    destruct (IH (Some text) c1 k1 s2 Hopen2 Hint1)
      as (c' & k' & s' & Hl & Hint' & Hopen' & Hb').
    exists c', k', s'. split; [exact Hl|]. split; [exact Hint'|].
    split; [exact Hopen'|]. lia.
Qed.

Lemma commit_attempts_on (config_text : option string)
  (reload_original_config : bool) (s : Session) :
  connected inv s ->
  exists status_code command s',
    commit_attempts config_text reload_original_config s
    = (Ok [(PyStr status_code, command)], s')
    /\ int (PyStr status_code) = Ok code
    /\ connected inv s'
    /\ batch_executions s' = (batch_executions s + 6)%nat.
Proof.
  intros Hopen. unfold commit_attempts.
  destruct (_execute_on config_text s Hopen)
    as (c1 & k1 & s1 & He & Hint1 & Hopen1 & Hb1).
  rewrite (bind_ok _ _ _ _ _ He).
  destruct (_reload_config_on reload_original_config s1 Hopen1)
    as (s2 & Hr & Hopen2 & _ & Hb2).
  rewrite (bind_ok _ _ _ _ _ Hr).
  destruct (retry_loop_on 5 config_text c1 k1 s2 Hopen2 Hint1)
    as (c' & k' & s' & Hl & Hint' & Hopen' & Hb').
  exists c', k', s'. split; [exact Hl|]. split; [exact Hint'|].
  split; [exact Hopen' | lia].
Qed.

End DeviceInvariant.

Lemma connected_always (s : Session) :
  connected (fun _ => True) s <-> is_Some (ssh s).
Proof.
  split; [intros (d & Hd & _); exists d; exact Hd
         | intros [d Hd]; exists d; split; [exact Hd | exact I]].
Qed.

Section QuietDevice.

Hypothesis quiet : quiet_device.

Lemma execute_command_quiet (command : string) (s : Session) :
  is_Some (ssh s) ->
  exists d output d',
    ssh s = Some d
    /\ send_command d command = (Output output, d')
    /\ execute_command command s
       = (Ok (Str.splitlines output), with_channel d' command s).
Proof.
  intros Hopen. apply connected_always in Hopen.
  destruct (execute_command_on (fun _ => True) (fun _ _ _ => I)
              (fun d command _ => quiet d command) command s Hopen)
    as (d & output & d' & Hd & Hsend & Hex & _).
  exists d, output, d'. split; [exact Hd|]. split; [exact Hsend | exact Hex].
Qed.

Lemma _reload_config_quiet (reload_original_config : bool) (s : Session) :
  is_Some (ssh s) ->
  exists s',
    _reload_config reload_original_config s = (Ok tt, s')
    /\ is_Some (ssh s') /\ vdom s' = vdom s
    /\ batch_executions s' = batch_executions s.
Proof.
  intros Hopen. apply connected_always in Hopen.
  destruct (_reload_config_on (fun _ => True) (fun _ _ _ => I)
              (fun d command _ => quiet d command)
              reload_original_config s Hopen)
    as (s' & H & Hopen' & V & B).
  exists s'. split; [exact H|]. split; [apply connected_always; exact Hopen'|].
  split; [exact V | exact B].
Qed.

End QuietDevice.

(** C1: when the device, in every state the commands of the session
    can bring it to, answers every command and gives a batch lastlog
    with exactly one failing entry, with status code [-3], the attempts
    of a commit are the first batch execution and exactly five
    retries, six batch scripts in all; they end with one [-3] failure, and
    the commit then goes on with the failure handling.  Forced, it raises
    with the session as the attempts left it.  Not forced, it rolls back
    first: nothing when the rollback has no text to push, and otherwise
    the forced commit of that text, which on this device makes six batch
    executions of its own and fails in turn.  In each case the commit
    ends with [NameError] for the name [exceptions], which the module
    does not bind.  On any device the attempts send at most six batch
    scripts. *)
Theorem retry_bound (s : Session) (config_text : option string)
  (force reload_original_config : bool) (d0 : Dev) :
  ssh s = Some d0 ->
  quiet_on (reachable d0) -> lastlog_on (reachable d0) (-3) ->
  (forall r s',
      commit_attempts config_text reload_original_config s = (r, s') ->
      (batch_executions s' <= batch_executions s + 6)%nat)
  /\ exists status_code command s',
       commit_attempts config_text reload_original_config s
       = (Ok [(PyStr status_code, command)], s')
       /\ int (PyStr status_code) = Ok (-3)
       /\ batch_executions s' = (batch_executions s + 6)%nat
       /\ exists s'',
            _commit config_text force reload_original_config s
            = (Raise (NameError "exceptions"), s'')
            /\ if force || Str.is_empty (rollback_text s')
               then s'' = s'
               else
                 exists status_code' command',
                   commit_attempts (Some (rollback_text s')) false s'
                   = (Ok [(PyStr status_code', command')], s'')
                   /\ int (PyStr status_code') = Ok (-3)
                   /\ batch_executions s''
                      = (batch_executions s' + 6)%nat.
Proof.
  intros Hd Hquiet Hlog.
  assert (Hopen : connected (reachable d0) s)
    by (exists d0; split; [exact Hd | constructor]).
  split.
  - intros r s'. apply commit_attempts_at_most_six.
  - destruct (commit_attempts_on (reachable d0) (reachable_step d0) Hquiet
                (-3) Hlog eq_refl config_text reload_original_config s Hopen)
      as (c & k & s' & Ha & Hint & Hopen' & Hb).
    exists c, k, s'. split; [exact Ha|]. split; [exact Hint|].
    split; [exact Hb|].
    rewrite _commit_unfold. unfold commit_body.
    rewrite (bind_ok _ _ _ _ _ Ha).
    rewrite failure_handling_nonempty by discriminate.
    destruct force.
    + exists s'. split; [apply commit_failed_forced | reflexivity].
    + rewrite commit_failed_unforced, rollback_unfold. cbn [orb].
      destruct (Str.is_empty (rollback_text s')).
      * exists s'. split; reflexivity.
      * destruct (commit_attempts_on (reachable d0) (reachable_step d0)
                    Hquiet (-3) Hlog eq_refl
                    (Some (rollback_text s')) false s' Hopen')
          as (c2 & k2 & s'' & Ha2 & Hint2 & _ & Hb2).
        exists s''. split.
        -- rewrite _commit_unfold. unfold commit_body.
           rewrite (bind_ok _ _ _ _ _ Ha2).
           rewrite failure_handling_nonempty by discriminate.
           rewrite commit_failed_forced. reflexivity.
        -- exists c2, k2. split; [exact Ha2|]. split; [exact Hint2 | exact Hb2].
Qed.

(** *** What the engine does where the specification says otherwise *)

(** X18: when failures remain, [_commit] reads the name [exceptions] to
    build its error, and the module binds no such name: a forced commit ends
    with [NameError] and the session as the attempts left it; an unforced
    one runs the rollback first, and ends with the rollback's own
    exception if it raises one. *)
Lemma _commit_failure (s s1 : Session) (config_text : option string)
  (force reload_original_config : bool)
  (wrong_commands : list wrong_command) :
  commit_attempts config_text reload_original_config s
  = (Ok wrong_commands, s1) ->
  wrong_commands <> [] ->
  _commit config_text force reload_original_config s
  = if force then (Raise (NameError "exceptions"), s1)
    else match rollback s1 with
         | (Ok _, s2) => (Raise (NameError "exceptions"), s2)
         | (Raise e, s2) => (Raise e, s2)
         end.
Proof.
  intros Ha Hne. rewrite _commit_unfold. unfold commit_body.
  rewrite (bind_ok _ _ _ _ _ Ha), failure_handling_nonempty by exact Hne.
  destruct force; [apply commit_failed_forced | apply commit_failed_unforced].
Qed.

(** The scope of a batch script is chosen by looking for the text
    [global] inside the name of the vdom: no vdom gives the bare script,
    a name without that text gives the script that enters the vdom, and
    any name holding that text gives the script of the vdom [global]. *)
Lemma batch_cmd_scopes (config_text : string) :
  batch_cmd None config_text
  = "execute batch start" ++ Str.nl ++ config_text
    ++ Str.nl ++ "execute batch end" ++ Str.nl
  /\ batch_cmd (Some "global") config_text
     = "conf global" ++ Str.nl ++ "    execute batch start" ++ Str.nl
       ++ config_text ++ Str.nl ++ "execute batch end" ++ Str.nl
  /\ (forall v, Str.contains "global" v = false ->
        batch_cmd (Some v) config_text
        = "conf global" ++ Str.nl ++ "    execute batch start" ++ Str.nl
          ++ "conf vdom" ++ Str.nl ++ "  edit " ++ v ++ Str.nl
          ++ config_text ++ Str.nl ++ "execute batch end" ++ Str.nl)
  /\ (forall v, Str.contains "global" v = true ->
        batch_cmd (Some v) config_text
        = batch_cmd (Some "global") config_text).
Proof.
  split; [reflexivity|]. split; [reflexivity|]. split.
  - intros v Hv. unfold batch_cmd, batch_config_vdom. rewrite Hv.
    cbn [negb batch_pre]. simpl. rewrite !append_assoc. reflexivity.
  - intros v Hv. unfold batch_cmd, batch_config_vdom. rewrite Hv.
    reflexivity.
Qed.

(** X19: what one call of [_execute] sends over an open session on a
    quiet device: the batch script, then the lastlog query under the same
    prefix, and nothing else. *)
Lemma _execute_sends (config_text : string) (s : Session) :
  quiet_device -> is_Some (ssh s) ->
  sent (snd (_execute (Some config_text) s))
  = (sent s ++ [batch_cmd (vdom s) config_text; lastlog_cmd (vdom s)])%list.
Proof.
  intros Hquiet Hopen. unfold _execute.
  unfold bind at 1. unfold ret at 1. unfold bind at 1. unfold gets at 1.
  destruct (execute_command_quiet Hquiet (batch_cmd (vdom s) config_text) s Hopen)
    as (d & out1 & d1 & _ & _ & H1).
  rewrite (bind_ok _ _ _ _ _ H1).
  set (s1 := with_channel d1 (batch_cmd (vdom s) config_text) s) in *.
  assert (Hopen1 : is_Some (ssh s1)) by (eexists; reflexivity).
  destruct (execute_command_quiet Hquiet (lastlog_cmd (vdom s)) s1 Hopen1)
    as (d1' & out2 & d2 & _ & _ & H2).
  unfold bind. rewrite H2. unfold lift. cbn [snd sent with_channel].
  subst s1. cbn [sent with_channel]. rewrite <- app_assoc. reflexivity.
Qed.

(** After its first retry the loop holds the text of that retry: the
    later retries send it again and compute no new diff. *)
Lemma retry_loop_pins_text (retries : nat) (text : string)
  (wrong_commands : list wrong_command) (s : Session) :
  find_retryable wrong_commands = Ok true ->
  retry_loop (S retries) (Some text) wrong_commands s
  = bind (_execute (Some text))
      (fun wrong_commands' =>
         bind (_reload_config false)
           (fun _ => retry_loop retries (Some text) wrong_commands')) s.
Proof.
  intros H. cbn [retry_loop]. unfold bind at 1. unfold lift at 1.
  rewrite H. reflexivity.
Qed.

End Properties.

(** ** The engine on the scripted devices *)

Lemma stubborn_quiet (answer : string) :
  Str.contains "Command fail" answer = false ->
  @quiet_device unit (stubborn_channel answer).
Proof.
  intros Hanswer d command. unfold send_command, stubborn_channel, stubborn_send.
  destruct (String.eqb command "execute batch lastlog"
            || String.eqb command
                 ("conf global" ++ Str.nl ++ "    execute batch lastlog")).
  - exists answer, d. split; [reflexivity | exact Hanswer].
  - exists EmptyString, d. split; reflexivity.
Defined.

Lemma stubborn_quiet_on (answer : string) (inv : unit -> Prop) :
  Str.contains "Command fail" answer = false ->
  @quiet_on unit (stubborn_channel answer) inv.
Proof. intros Hanswer d command _. apply stubborn_quiet. exact Hanswer. Defined.

Lemma stubborn_lastlog (inv : unit -> Prop) :
  @lastlog_on unit (stubborn_channel "-3: set a 2") inv (-3).
Proof.
  intros d vd output d' _ H. exists "-3", "set a 2".
  destruct vd; vm_compute in H; injection H as <- _; split; reflexivity.
Defined.

(** The retry bound at work: the stubborn device gets six batch scripts,
    and the commit ends with [NameError]. *)
Lemma retry_bound_witness :
  ssh stubborn_session = Some tt
  /\ @quiet_on unit (stubborn_channel "-3: set a 2")
       (@reachable unit (stubborn_channel "-3: set a 2") tt)
  /\ @lastlog_on unit (stubborn_channel "-3: set a 2")
       (@reachable unit (stubborn_channel "-3: set a 2") tt) (-3)
  /\ fst (@_commit unit (stubborn_channel "-3: set a 2") _ _
            None false true stubborn_session)
     = Raise (NameError "exceptions")
  /\ exists status_code command s',
       @commit_attempts unit (stubborn_channel "-3: set a 2") _ _
         None true stubborn_session
       = (Ok [(PyStr status_code, command)], s')
       /\ @batch_executions unit (list string) s'
          = (@batch_executions unit (list string) stubborn_session + 6)%nat.
Proof.
  pose proof (stubborn_quiet_on "-3: set a 2"
                (@reachable unit (stubborn_channel "-3: set a 2") tt)
                eq_refl) as Hq.
  pose proof (stubborn_lastlog
                (@reachable unit (stubborn_channel "-3: set a 2") tt)) as Hl.
  assert (Ho : ssh stubborn_session = Some tt) by reflexivity.
  split; [exact Ho|]. split; [exact Hq|]. split; [exact Hl|].
  destruct (@retry_bound unit (stubborn_channel "-3: set a 2") _ _
              stubborn_session None false true tt Ho Hq Hl)
    as [_ (c & k & s' & Ha & _ & Hb & s'' & Hc & _)].
  split; [rewrite Hc; reflexivity|].
  exists c, k, s'. split; [exact Ha | exact Hb].
Defined.

(** Rolling back after the failed commit of scenario C. *)
Lemma rollback_to_snapshot_witness :
  original_config after_failed_commit = Some 0%nat
  /\ rollback after_failed_commit
     = _commit (Some "replace [set a 3] by [set a 1]") true false
         after_failed_commit
  /\ original_config (snd (rollback after_failed_commit)) = Some 0%nat.
Proof.
  assert (H : original_config after_failed_commit = Some 0%nat)
    by reflexivity.
  split; [exact H|].
  destruct (rollback_to_snapshot after_failed_commit 0%nat H)
    as (_ & Hne & Hkeep).
  split.
  - apply Hne. vm_compute. discriminate.
  - exact (proj1 (Hkeep _ _ (surjective_pairing _))).
Defined.

(** C4, as stated, fails: scenario C before any commit has no snapshot,
    so there is no diff from the running configuration to a snapshot;
    yet a rollback does not go without device interaction: it takes the
    diff from the running configuration to the candidate and pushes it
    as a forced commit. *)
Lemma rollback_no_snapshot_counterexample :
  original_config scenario_C = None
  /\ announced_rollback_text scenario_C = None
  /\ rollback_text scenario_C = "replace [set a 1] by [set a 2]"
  /\ rollback_text scenario_C
     = config_compare (deref (store scenario_C) (running_config scenario_C))
         (deref (store scenario_C) (candidate_config scenario_C))
  /\ rollback scenario_C
     = _commit (Some "replace [set a 1] by [set a 2]") true false scenario_C
  /\ sent (snd (rollback scenario_C))
     = [ batch_cmd None "replace [set a 1] by [set a 2]";
         lastlog_cmd None; "show system" ].
Proof.
  split; [reflexivity|]. split; [reflexivity|]. split; [reflexivity|].
  split; [reflexivity|]. split; [reflexivity|]. vm_compute. reflexivity.
Qed.

(** Scenario C: the code [-5] is not retried; the commit rolls back
    with one more batch script and raises. *)
Lemma non_retryable_short_circuit_witness :
  _execute None scenario_C
  = (Ok [(PyStr "-5", "set a 2")], snd (_execute None scenario_C))
  /\ [(PyStr "-5", "set a 2")] <> ([] : list wrong_command)
  /\ Forall (fun w : wrong_command =>
               exists n, int (fst w) = Ok n /\ n <> -3 /\ n <> -23)
       [(PyStr "-5", "set a 2")]
  /\ fst (_commit None false true scenario_C)
     = Raise (NameError "exceptions")
  /\ batch_executions (snd (_commit None false true scenario_C)) = 2%nat.
Proof.
  assert (H1 : _execute None scenario_C
               = (Ok [(PyStr "-5", "set a 2")], snd (_execute None scenario_C)))
    by reflexivity.
  assert (H2 : [(PyStr "-5", "set a 2")] <> ([] : list wrong_command))
    by discriminate.
  assert (H3 : Forall (fun w : wrong_command =>
                         exists n, int (fst w) = Ok n /\ n <> -3 /\ n <> -23)
                 [(PyStr "-5", "set a 2")]).
  { constructor; [|constructor]. exists (-5).
    split; [reflexivity|]. split; discriminate. }
  split; [exact H1|]. split; [exact H2|]. split; [exact H3|].
  destruct (non_retryable_short_circuit scenario_C _ None false true
              _ H1 H2 H3) as (_ & _ & H).
  rewrite H. split; vm_compute; reflexivity.
Defined.

(** Scenario C: the candidate is the same after the commit. *)
Lemma candidate_untouched_witness :
  (candidate_config scenario_C < length (store scenario_C))%nat
  /\ candidate_config (snd (commit None false scenario_C))
     = candidate_config scenario_C
  /\ content (store (snd (commit None false scenario_C)))
       (candidate_config (snd (commit None false scenario_C)))
     = content (store scenario_C) (candidate_config scenario_C).
Proof.
  assert (H : (candidate_config scenario_C < length (store scenario_C))%nat)
    by (simpl; lia).
  split; [exact H|].
  exact (proj1 (candidate_untouched scenario_C H) None false _ _
           (surjective_pairing _)).
Defined.

(** C2, on the code: in scenario C, without [force], the engine rolls
    back (the second batch script restores [set a 1]) and then raises
    [NameError] for the name [exceptions], which the module never
    imports; no [FailedCommit] carrying [[("-5", "set a 2")]] reaches the
    caller. *)
Theorem scenario_C_unforced :
  fst (commit None false scenario_C) = Raise (NameError "exceptions")
  /\ fst (commit None false scenario_C)
     <> Raise (FailedCommit [(PyStr "-5", "set a 2")])
  /\ sent (snd (commit None false scenario_C))
     = [ batch_cmd None "replace [set a 1] by [set a 2]";
         lastlog_cmd None;
         show_command None "system";
         batch_cmd None "replace [set a 3] by [set a 1]";
         lastlog_cmd None;
         show_command None "system" ].
Proof.
  split; [reflexivity|]. split; [|reflexivity].
  vm_compute. discriminate.
Qed.

(** C6, on the code: in scenario C with [force], the engine sends nothing
    after the reload (no rollback) and raises [NameError] for the name
    [exceptions] instead of the commit-failure error. *)
Theorem scenario_C_forced :
  fst (commit None true scenario_C) = Raise (NameError "exceptions")
  /\ fst (commit None true scenario_C)
     <> Raise (FailedCommit [(PyStr "-5", "set a 2")])
  /\ sent (snd (commit None true scenario_C))
     = [ batch_cmd None "replace [set a 1] by [set a 2]";
         lastlog_cmd None;
         show_command None "system" ].
Proof.
  split; [reflexivity|]. split; [|reflexivity].
  vm_compute. discriminate.
Qed.

(** C8, on the code: for the vdom [global-dmz] the batch script is the
    one of the global scope, without the lines that enter the vdom, while
    the read command of [load_config] does enter it. *)
Theorem batch_script_vdom_named_like_global :
  sent (snd (_execute (Some "set a 2") scenario_named_vdom))
  = [ batch_cmd (Some "global") "set a 2"; lastlog_cmd (Some "global-dmz") ]
  /\ batch_cmd (Some "global-dmz") "set a 2"
     <> announced_batch_script (Some "global-dmz") "set a 2"
  /\ announced_batch_script (Some "global-dmz") "set a 2"
     = "conf global" ++ Str.nl ++ "    execute batch start" ++ Str.nl
       ++ "conf vdom" ++ Str.nl ++ "  edit global-dmz" ++ Str.nl
       ++ "set a 2" ++ Str.nl ++ "execute batch end" ++ Str.nl
  /\ show_command (Some "global-dmz") "system"
     = "conf vdom" ++ Str.nl ++ "edit global-dmz" ++ Str.nl
       ++ "show system" ++ Str.nl ++ "end".
Proof.
  split; [reflexivity|]. split; [|split; reflexivity].
  vm_compute. discriminate.
Qed.

(** C9, on the code: with no text given, the first retry computes the
    diff of the reloaded running configuration, and the second retry
    sends that same text again although the running configuration, and
    so the diff, has changed in between. *)
Theorem later_retries_reuse_text :
  sent (snd (commit None false scenario_two_retries))
  = [ batch_cmd None "replace [set a 1] by [set a 2]";
      lastlog_cmd None; show_command None "system";
      batch_cmd None "replace [set a 3] by [set a 2]";
      lastlog_cmd None; show_command None "system";
      batch_cmd None "replace [set a 3] by [set a 2]";
      lastlog_cmd None; show_command None "system" ]
  /\ sent after_first_retry
     = [ batch_cmd None "replace [set a 1] by [set a 2]";
         lastlog_cmd None; show_command None "system";
         batch_cmd None "replace [set a 3] by [set a 2]";
         lastlog_cmd None; show_command None "system" ]
  /\ fst (compare_config None false after_first_retry)
     = Ok "replace [set a 4] by [set a 2]".
Proof. repeat split; reflexivity. Qed.

(** * Further properties *)

(** ** Lines *)

Lemma append_nil_r (a : string) : a ++ EmptyString = a.
Proof. induction a as [|x a IH]; simpl; [reflexivity | f_equal; exact IH]. Qed.

Lemma forallb_append (p : ascii -> bool) (a b : string) :
  Str.forallb p (a ++ b) = Str.forallb p a && Str.forallb p b.
Proof.
  induction a as [|x a IH]; simpl; [reflexivity|].
  rewrite IH, andb_assoc. reflexivity.
Qed.

Lemma is_empty_append (a b : string) :
  Str.is_empty (a ++ b) = Str.is_empty a && Str.is_empty b.
Proof. destruct a; reflexivity. Qed.

Lemma splitlines_from_no_linebreak (n : nat) :
  forall (s cur : string),
    (String.length s <= n)%nat ->
    no_linebreak cur = true ->
    Forall (fun line => no_linebreak line = true) (Str.splitlines_from cur s).
Proof.
  induction n as [|n IH]; intros s cur Hn Hcur.
  - destruct s; [|simpl in Hn; lia]. simpl.
    destruct (Str.is_empty cur); repeat constructor. exact Hcur.
  - destruct s as [|c r]; simpl.
    + destruct (Str.is_empty cur); repeat constructor. exact Hcur.
    + simpl in Hn. destruct (Str.is_linebreak c) eqn:Hc.
      * destruct r as [|d r'].
        -- repeat constructor. exact Hcur.
        -- simpl in Hn.
           destruct (Str.is_CR c && Str.is_LF d); constructor;
             try exact Hcur; apply IH; simpl; try lia; reflexivity.
      * apply IH; [lia|]. unfold no_linebreak in *.
        rewrite forallb_append, Hcur. simpl. rewrite Hc. reflexivity.
Qed.

Lemma splitlines_no_linebreak (s : string) :
  Forall (fun line => no_linebreak line = true) (Str.splitlines s).
Proof.
  apply (splitlines_from_no_linebreak (String.length s)); [lia | reflexivity].
Qed.

Lemma splitlines_from_line (l : string) :
  forall (cur rest : string),
    no_linebreak l = true ->
    Str.splitlines_from cur (l ++ String Str.LF rest)
    = (cur ++ l) :: Str.splitlines_from EmptyString rest.
Proof.
  induction l as [|c l IH]; intros cur rest Hl.
  - rewrite append_nil_r. simpl. destruct rest; reflexivity.
  - unfold no_linebreak in Hl. simpl in Hl. apply andb_prop in Hl as [Hc Hl].
    apply negb_true_iff in Hc. simpl. rewrite Hc.
    rewrite (IH _ _ Hl), append_assoc. reflexivity.
Qed.

Lemma splitlines_from_last (l : string) :
  forall cur : string,
    no_linebreak l = true ->
    Str.splitlines_from cur l
    = if Str.is_empty (cur ++ l) then [] else [cur ++ l].
Proof.
  induction l as [|c l IH]; intros cur Hl.
  - rewrite append_nil_r. reflexivity.
  - unfold no_linebreak in Hl. simpl in Hl. apply andb_prop in Hl as [Hc Hl].
    apply negb_true_iff in Hc. simpl. rewrite Hc.
    rewrite (IH _ Hl), append_assoc. reflexivity.
Qed.

(** Joining lines that are not empty and hold no line boundary, and
    splitting the text again, gives the lines back. *)
Lemma splitlines_join_lines (lines : list string) :
  Forall (fun l => Str.is_empty l = false /\ no_linebreak l = true) lines ->
  Str.splitlines (Str.join_lines lines) = lines.
Proof.
  induction 1 as [|x rest [Hx Hlb] Hrest IH]; [reflexivity|].
  destruct rest as [|y rest].
  - simpl. unfold Str.splitlines. rewrite (splitlines_from_last x _ Hlb).
    simpl. rewrite Hx. reflexivity.
  - change (Str.join_lines (x :: y :: rest))
      with (x ++ String Str.LF (Str.join_lines (y :: rest))).
    unfold Str.splitlines. rewrite (splitlines_from_line x _ _ Hlb).
    simpl append. f_equal. exact IH.
Qed.

(** ** [setup.py] *)

Lemma filter_id {A : Type} (f : A -> bool) (l : list A) :
  Forall (fun x => f x = true) l -> List.filter f l = l.
Proof.
  induction 1 as [|x l Hx _ IH]; simpl; [reflexivity|].
  rewrite Hx, IH. reflexivity.
Qed.

Lemma keep_requirement_not_empty (r : string) :
  keep_requirement r = true -> Str.is_empty r = false.
Proof. destruct r; [discriminate | reflexivity]. Qed.

(** X15: every requirement [setup.py] keeps is a line of the file that is
    not empty and starts neither with [#] nor with [git+]; the lines are
    kept in the order of the file; and writing the kept requirements one
    per line and reading them again gives the same list. *)
Theorem reqs_round_trip (contents : string) :
  Forall (fun r =>
            r <> EmptyString
            /\ Str.starts_with "#" r = false
            /\ Str.starts_with "git+" r = false
            /\ no_linebreak r = true)
    (reqs contents)
  /\ sublist (reqs contents) (Str.splitlines contents)
  /\ reqs (Str.join_lines (reqs contents)) = reqs contents.
Proof.
  assert (Hkeep : Forall (fun r => keep_requirement r = true
                                   /\ no_linebreak r = true)
                    (reqs contents)).
  { unfold reqs. pose proof (splitlines_no_linebreak contents) as H.
    induction H as [|x l Hx _ IH]; simpl; [constructor|].
    destruct (keep_requirement x) eqn:Hk; [constructor; auto | exact IH]. }
  split; [|split].
  - eapply Forall_impl; [exact Hkeep|]. intros r [Hk Hlb].
    unfold keep_requirement in Hk. apply andb_prop in Hk as [Hlen Hpre].
    apply negb_true_iff, orb_false_iff in Hpre as [Hhash Hgit].
    repeat split; auto. intros ->. discriminate.
  - unfold reqs. induction (Str.splitlines contents) as [|x l IH]; simpl.
    + constructor.
    + destruct (keep_requirement x); constructor; exact IH.
  - unfold reqs at 1. rewrite splitlines_join_lines.
    + apply filter_id. eapply Forall_impl; [exact Hkeep|].
      intros r [Hk _]. exact Hk.
    + eapply Forall_impl; [exact Hkeep|]. intros r [Hk Hlb].
      split; [apply keep_requirement_not_empty; exact Hk | exact Hlb].
Qed.

(** ** More on the lastlog parser *)

Lemma parse_lines_shift (last_log : list string) :
  forall acc,
    parse_lines acc last_log
    = match parse_lines [] last_log with
      | Ok wrong_commands => Ok (acc ++ wrong_commands)%list
      | Raise e => Raise e
      end.
Proof.
  induction last_log as [|line rest IH]; intros acc; cbn [parse_lines].
  - rewrite app_nil_r. reflexivity.
  - destruct (regexp_match line) as [[status_code command]|]; [|apply IH].
    destruct (int (PyStr status_code)) as [n|e]; [|reflexivity].
    destruct (n <? 0); [|apply IH].
    cbn [app]. rewrite (IH (acc ++ _)%list), (IH (_ :: _)).
    destruct (parse_lines [] rest) as [w|e]; [|reflexivity].
    rewrite <- app_assoc. reflexivity.
Qed.

Lemma parse_lines_app (l1 l2 : list string) :
  forall acc,
    parse_lines acc (l1 ++ l2)%list
    = match parse_lines acc l1 with
      | Ok a => parse_lines a l2
      | Raise e => Raise e
      end.
Proof.
  induction l1 as [|line rest IH]; intros acc; [reflexivity|].
  rewrite <- app_comm_cons. cbn [parse_lines].
  destruct (regexp_match line) as [[status_code command]|]; [|apply IH].
  destruct (int (PyStr status_code)) as [n|e]; [|reflexivity].
  destruct (n <? 0); apply IH.
Qed.

Lemma failed_entries_negative (last_log : list string)
  (wrong_commands : list wrong_command) :
  failed_entries last_log wrong_commands ->
  Forall (fun w => exists n, int (fst w) = Ok n /\ n < 0) wrong_commands
  /\ (length wrong_commands <= length last_log)%nat.
Proof.
  induction 1 as [| line c k n rest w He Hn Hneg _ [IH IHlen]
                  | line c k n rest w He Hn Hpos _ [IH IHlen]
                  | line rest w Hnone _ [IH IHlen] ]; simpl.
  - split; [constructor | lia].
  - split; [|lia]. constructor; [|exact IH]. exists n. split; assumption.
  - split; [exact IH | lia].
  - split; [exact IH | lia].
Qed.

(** X10: the parser reads each line on its own: it returns on two logs
    put end to end exactly when it returns on each, with the failures of
    the first followed by those of the second, and otherwise raises what
    the first of the two to fail raises; and a log never yields more
    failures than it has lines. *)
Theorem parse_batch_lastlog_app (l1 l2 : list string) :
  _parse_batch_lastlog (l1 ++ l2)%list
  = match _parse_batch_lastlog l1 with
    | Ok w1 =>
        match _parse_batch_lastlog l2 with
        | Ok w2 => Ok (w1 ++ w2)%list
        | Raise e => Raise e
        end
    | Raise e => Raise e
    end
  /\ (forall w1,
        _parse_batch_lastlog l1 = Ok w1 -> (length w1 <= length l1)%nat).
Proof.
  unfold _parse_batch_lastlog. split.
  - rewrite parse_lines_app.
    destruct (parse_lines [] l1) as [w1|e]; [|reflexivity].
    apply parse_lines_shift.
  - intros w1 H. destruct (parse_lines_sound _ _ _ H) as (w & -> & Hfe).
    apply (failed_entries_negative _ _ Hfe).
Qed.

Lemma find_retryable_total (wrong_commands : list wrong_command) :
  Forall (fun w => exists n, int (fst w) = Ok n /\ n < 0) wrong_commands ->
  exists b,
    find_retryable wrong_commands = Ok b
    /\ (b = true <->
        Exists (fun w => int (fst w) = Ok (-3) \/ int (fst w) = Ok (-23))
          wrong_commands).
Proof.
  induction 1 as [|w rest (n & Hn & _) _ (b & Hb & Hiff)];
    cbn [find_retryable].
  - exists false. split; [reflexivity|]. split; [discriminate|].
    intros H. inversion H.
  - rewrite Hn. unfold retry_codes. cbn [existsb].
    destruct (Z.eqb_spec n (-3)) as [->|H3].
    + exists true. split; [reflexivity|]. split; [|reflexivity].
      intros _. left. left. exact Hn.
    + destruct (Z.eqb_spec n (-23)) as [->|H23].
      * exists true. split; [reflexivity|]. split; [|reflexivity].
        intros _. left. right. exact Hn.
      * exists b. split; [exact Hb|]. rewrite Hiff. split.
        -- intros H. right. exact H.
        -- intros H. inversion H as [? ? [Hw|Hw]|]; subst;
             [congruence | congruence | assumption].
Qed.

(** X9: whatever the log, when the parser returns, every entry it
    returns has a status code that [int] reads as a negative number, so
    the scan of the retry loop over these entries never fails; and the
    scan asks for a retry exactly when at least one entry has code [-3]
    or [-23], whatever the codes of the other entries.  When the parser
    does not return, it raises the [ValueError] of a status code of the
    log that has more digits than [int] converts. *)
Theorem retry_scan_on_parsed_log (last_log : list string) :
  match _parse_batch_lastlog last_log with
  | Ok wrong_commands =>
      Forall (fun w => exists n, int (fst w) = Ok n /\ n < 0) wrong_commands
      /\ exists retry,
           find_retryable wrong_commands = Ok retry
           /\ (retry = true <->
               Exists (fun w => int (fst w) = Ok (-3) \/ int (fst w) = Ok (-23))
                 wrong_commands)
  | Raise e =>
      exists line status_code command,
        In line last_log
        /\ regexp_match line = Some (status_code, command)
        /\ int_max_str_digits < digit_count status_code
        /\ e = ValueError status_code
  end.
Proof.
  unfold _parse_batch_lastlog.
  destruct (parse_lines [] last_log) as [wc|e] eqn:Hp.
  - destruct (parse_lines_sound _ _ _ Hp) as (w & -> & Hfe). cbn [app].
    destruct (failed_entries_negative _ _ Hfe) as [Hneg _].
    split; [exact Hneg|]. apply find_retryable_total. exact Hneg.
  - exact (parse_lines_raises _ _ _ Hp).
Qed.

Lemma no_linebreak_head_dot (s : string) :
  no_linebreak s = true -> Str.head_is Str.is_dot s = false ->
  s = EmptyString.
Proof.
  destruct s as [|c s]; [reflexivity|]. unfold no_linebreak. simpl.
  intros H Hdot. apply andb_prop in H as [Hc _].
  unfold Str.is_dot in Hdot. apply negb_false_iff in Hdot.
  unfold Str.is_linebreak, Str.in_range in Hc.
  apply N.eqb_eq in Hdot. rewrite Hdot in Hc. discriminate Hc.
Qed.

(** X11: the lines [execute_command] returns hold no line boundary; and
    on such a line the command of a lastlog entry is everything after
    the separator: the line is the status code, the colon, a run of
    non-word characters and the command, with nothing left over. *)
Theorem lastlog_command_is_rest_of_line :
  (forall output : string,
      Forall (fun line => no_linebreak line = true) (Str.splitlines output))
  /\ (forall line status_code command,
        no_linebreak line = true ->
        regexp_match line = Some (status_code, command) ->
        exists sep,
          line = status_code ++ String ":" (sep ++ command)
          /\ sep <> EmptyString
          /\ Str.forallb Str.is_nonword sep = true
          /\ Str.head_is Str.is_nonword command = false).
Proof.
  split; [exact splitlines_no_linebreak|].
  intros line status_code command Hlb Hm.
  apply regexp_match_sound in Hm.
  destruct Hm as (sign & ds & sep & rest & -> & -> & _ & _ & _ & Hsep & Hnw
                  & Hmax & _ & Hrest).
  unfold no_linebreak in Hlb.
  rewrite !forallb_append in Hlb. simpl in Hlb. rewrite !forallb_append in Hlb.
  repeat (apply andb_prop in Hlb as [? Hlb] || apply andb_prop in Hlb as [Hlb ?]).
  assert (Hr : rest = EmptyString).
  { apply no_linebreak_head_dot; [|exact Hrest].
    repeat match goal with
           | H : _ && _ = true |- _ => apply andb_prop in H as [? ?]
           end; assumption. }
  subst rest. rewrite append_nil_r in *.
  exists sep. rewrite append_assoc. repeat split; auto.
Qed.

(** ** More on the engine *)

Section FurtherProperties.

Context {Dev : Type} {channel : CommandChannel Dev}.
Context {Tree : Type} {tree_ops : ConfigTree Tree}.

Abbreviation Session := (FortiOS Dev Tree).
Abbreviation Method := (@M Dev Tree).

(** *** [execute_command] *)

Lemma same_configs_refl (s : Session) : same_configs s s.
Proof. repeat split. Qed.

Lemma same_configs_trans (s1 s2 s3 : Session) :
  same_configs s1 s2 -> same_configs s2 s3 -> same_configs s1 s3.
Proof.
  intros (V1 & O1 & R1 & C1 & S1) (V2 & O2 & R2 & C2 & S2).
  repeat split; congruence.
Qed.

(** What [execute_command] answers, case by case. *)
Lemma execute_command_cases (command : string) (s : Session) :
  match ssh s with
  | None =>
      execute_command command s = (Raise (AttributeError "send_command"), s)
  | Some d =>
      execute_command command s
      = (match fst (send_command d command) with
         | Broken what => Raise (ChannelError what)
         | Output output =>
             if Str.contains "Command fail" output
             then Raise (NameError "exceptions")
             else Ok (Str.splitlines output)
         end,
         with_channel (snd (send_command d command)) command s)
  end.
Proof.
  unfold execute_command. destruct (ssh s) as [d|]; [|reflexivity].
  destruct (send_command d command) as [[output|what] d']; cbn [fst snd];
    [|reflexivity].
  destruct (Str.contains "Command fail" output); reflexivity.
Qed.

Lemma execute_command_same_configs (command : string) (s : Session)
  (r : result (list string)) (s' : Session) :
  execute_command command s = (r, s') -> same_configs s s'.
Proof.
  intros E. pose proof (execute_command_cases command s) as H.
  destruct (ssh s) as [d|]; rewrite H in E; injection E as <- <-;
    repeat split.
Qed.

(** X1: [execute_command] never raises [CommandExecutionException]: when
    the reply holds the text [Command fail] it raises [NameError] for the
    name [exceptions], which the module does not bind; the command has
    gone over the session all the same.  Its other outcomes are the lines
    of the reply; the failure of the transport, which it lets through
    with the command counted as sent; and [AttributeError] on a session
    that was never opened, in which case nothing is sent. *)
Theorem execute_command_outcomes (command : string) (s : Session) :
  (forall msg,
      fst (execute_command command s)
      <> Raise (CommandExecutionException msg))
  /\ (forall d output d',
        ssh s = Some d ->
        send_command d command = (Output output, d') ->
        Str.contains "Command fail" output = true ->
        execute_command command s
        = (Raise (NameError "exceptions"), with_channel d' command s))
  /\ (forall d output d',
        ssh s = Some d ->
        send_command d command = (Output output, d') ->
        Str.contains "Command fail" output = false ->
        execute_command command s
        = (Ok (Str.splitlines output), with_channel d' command s))
  /\ (forall d what d',
        ssh s = Some d ->
        send_command d command = (Broken what, d') ->
        execute_command command s
        = (Raise (ChannelError what), with_channel d' command s))
  /\ (ssh s = None ->
      execute_command command s
      = (Raise (AttributeError "send_command"), s)).
Proof.
  pose proof (execute_command_cases command s) as H.
  split; [|split; [|split; [|split]]].
  - intros msg. destruct (ssh s) as [d|]; rewrite H; cbn [fst];
      [|discriminate].
    destruct (fst (send_command d command)) as [output|what]; [|discriminate].
    destruct (Str.contains "Command fail" output); discriminate.
  - intros d output d' Hd Hsend Hfail. rewrite Hd in H.
    rewrite H, Hsend. cbn [fst snd]. rewrite Hfail. reflexivity.
  - intros d output d' Hd Hsend Hfail. rewrite Hd in H.
    rewrite H, Hsend. cbn [fst snd]. rewrite Hfail. reflexivity.
  - intros d what d' Hd Hsend. rewrite Hd in H.
    rewrite H, Hsend. reflexivity.
  - intros Hd. rewrite Hd in H. exact H.
Qed.

(** *** A session that was never opened *)

Lemma _execute_closed (config_text : option string) (s : Session) :
  ssh s = None ->
  _execute config_text s = (Raise (AttributeError "send_command"), s).
Proof.
  intros Hd. unfold _execute.
  assert (Ht : exists text,
             match config_text with
             | Some text => ret text
             | None => compare_config None false
             end s = (Ok text, s)).
  { destruct config_text;
      [eexists; reflexivity | apply compare_config_pure]. }
  destruct Ht as [text Ht]. rewrite (bind_ok _ _ _ _ _ Ht).
  unfold bind at 1. unfold gets at 1. apply bind_raise.
  pose proof (execute_command_cases (batch_cmd (vdom s) text) s) as H.
  rewrite Hd in H. exact H.
Qed.

(** X2: on a session that was never opened (its [ssh] is [None]) a
    commit, a load from the device and a rollback that has something to
    undo all raise [AttributeError] and leave the session as it was:
    nothing is sent, no snapshot is taken and no configuration changes;
    a rollback with nothing to undo returns normally. *)
Theorem closed_session_raises (s : Session) :
  ssh s = None ->
  (forall config_text force,
      commit config_text force s
      = (Raise (AttributeError "send_command"), s))
  /\ (forall path in_candidate empty_candidate,
        load_config path in_candidate empty_candidate None s
        = (Raise (AttributeError "send_command"), s))
  /\ rollback s
     = if (0 <? Z.of_nat
                  (String.length
                     (config_compare
                        (deref (store s) (running_config s))
                        (deref (store s)
                           (match original_config s with
                            | Some o => o
                            | None => candidate_config s
                            end)))))
       then (Raise (AttributeError "send_command"), s)
       else (Ok tt, s).
Proof.
  intros Hd. split; [|split].
  - intros config_text force. unfold commit. rewrite _commit_unfold.
    unfold commit_body, commit_attempts. rewrite bind_assoc.
    apply bind_raise. apply _execute_closed. exact Hd.
  - intros path in_candidate empty_candidate. unfold load_config.
    apply bind_raise. unfold bind at 1. unfold gets at 1.
    pose proof (execute_command_cases (show_command (vdom s) path) s) as H.
    rewrite Hd in H. exact H.
  - unfold rollback, rollback_body.
    unfold bind at 1. unfold gets at 1.
    unfold bind at 1. rewrite compare_config_diff.
    destruct (0 <? Z.of_nat (String.length _)); [|reflexivity].
    cbn [when]. rewrite _commit_unfold.
    unfold commit_body, commit_attempts. rewrite bind_assoc.
    apply bind_raise. apply _execute_closed. exact Hd.
Qed.

(** *** [load_config] *)

Lemma deref_alter_ne (f : FortiConfig Tree -> FortiConfig Tree)
  (h : list (FortiConfig Tree)) (r r' : ref) :
  r <> r' -> deref (alter f r h) r' = deref h r'.
Proof.
  intros Hne. unfold deref. rewrite list_lookup_alter_ne by exact Hne.
  reflexivity.
Qed.

(** X3: loading a text touches the device not at all, and which objects
    it fills depends on the two flags as follows: the running
    configuration unless [in_candidate]; the candidate when
    [in_candidate] or when [empty_candidate] is off, so with both flags
    set the candidate is filled all the same.  An object that is filled
    has the text parsed into its tree and the path recorded; every other
    object of the store stays as it is. *)
Theorem load_config_targets (s : Session) (path : string)
  (in_candidate empty_candidate : bool) (text : list string) :
  running_config s <> candidate_config s ->
  (running_config s < length (store s))%nat ->
  (candidate_config s < length (store s))%nat ->
  exists s',
    load_config path in_candidate empty_candidate (Some text) s = (Ok tt, s')
    /\ ssh s' = ssh s /\ sent s' = sent s
    /\ running_config s' = running_config s
    /\ candidate_config s' = candidate_config s
    /\ original_config s' = original_config s
    /\ deref (store s') (running_config s)
       = (if in_candidate then deref (store s) (running_config s)
          else loaded path text (deref (store s) (running_config s)))
    /\ deref (store s') (candidate_config s)
       = (if negb empty_candidate || in_candidate
          then loaded path text (deref (store s) (candidate_config s))
          else deref (store s) (candidate_config s))
    /\ (forall r : ref,
          r <> running_config s -> r <> candidate_config s ->
          store s' !! r = store s !! r).
Proof.
  intros Hne Hr Hc.
  destruct in_candidate, empty_candidate; eexists;
    (split; [reflexivity|]); cbn;
    repeat split; unfold loaded;
    try (intros r Hr1 Hr2;
         rewrite ?list_lookup_alter_ne by congruence; reflexivity);
    rewrite ?deref_alter, ?deref_alter_ne, ?deref_alter, ?deref_alter_ne,
      ?deref_alter, ?deref_alter_ne
      by (rewrite ?length_alter; (assumption || congruence));
    reflexivity.
Qed.

(** X4: a load from the device sends exactly one command, whatever the
    reply: [show <path>] without a vdom, the same between [conf global]
    and [end] for the vdom [global], and between [conf vdom], [edit <v>]
    and [end] for any other vdom [v]. *)
Theorem load_config_sends (s : Session) (d : Dev) (path : string)
  (in_candidate empty_candidate : bool) :
  ssh s = Some d ->
  sent (snd (load_config path in_candidate empty_candidate None s))
  = (sent s ++ [show_command (vdom s) path])%list
  /\ show_command None path = "show " ++ path
  /\ show_command (Some "global") path
     = "conf global" ++ Str.nl ++ "show " ++ path ++ Str.nl ++ "end"
  /\ (forall v, v <> "global" ->
        show_command (Some v) path
        = "conf vdom" ++ Str.nl ++ "edit " ++ v ++ Str.nl
          ++ "show " ++ path ++ Str.nl ++ "end").
Proof.
  intros Hd. split; [|split; [reflexivity|split; [reflexivity|]]].
  - unfold load_config. unfold bind at 1. unfold bind at 1. unfold gets at 1.
    pose proof (execute_command_cases (show_command (vdom s) path) s) as H.
    rewrite Hd in H. rewrite H.
    destruct (fst (send_command d (show_command (vdom s) path)))
      as [output|what]; [|reflexivity].
    destruct (Str.contains "Command fail" output); [reflexivity|].
    destruct in_candidate, empty_candidate; reflexivity.
  - intros v Hv. unfold show_command.
    apply String.eqb_neq in Hv. rewrite Hv. reflexivity.
Qed.

(** *** [_reload_config] *)

Lemma reload_snapshot_facts (s : Session) (r : result unit) (s' : Session) :
  (running_config s < length (store s))%nat ->
  _reload_config true s = (r, s') ->
  original_config s' = Some (running_config s)
  /\ deref (store s') (running_config s)
     = set_name "original" (deref (store s) (running_config s))
  /\ running_config s' = length (store s)
  /\ length (store s') = S (length (store s)).
Proof.
  intros Hr E. rewrite _reload_config_snapshot in E.
  apply _reload_config_fresh in E.
  destruct E as (_ & _ & O & R & L & T & _ & _).
  unfold take_snapshot in *. cbn in O, R, L, T. rewrite length_alter in *.
  split; [exact O|]. split; [|split; [exact R | exact L]].
  unfold deref at 1. rewrite (T _ Hr).
  fold (deref (alter (set_name "original") (running_config s) (store s))
          (running_config s)).
  apply deref_alter. exact Hr.
Qed.

(** X5: a reload that is asked for the snapshot takes it before it reads
    anything, so whether the reads succeed or not: the session then names
    the object that was the running configuration as its original
    configuration, this object has kept its tree and paths and is now
    called [original], and the running configuration is a new object,
    stored where no reference pointed before. *)
Theorem reload_takes_snapshot (s : Session) (r : result unit) (s' : Session) :
  (running_config s < length (store s))%nat ->
  _reload_config true s = (r, s') ->
  original_config s' = Some (running_config s)
  /\ deref (store s') (running_config s)
     = set_name "original" (deref (store s) (running_config s))
  /\ running_config s' = length (store s)
  /\ length (store s') = S (length (store s)).
Proof.
  apply reload_snapshot_facts.
Qed.

Lemma load_config_quiet_sent (path : string) (s : Session) :
  quiet_device -> is_Some (ssh s) ->
  exists s',
    load_config path false true None s = (Ok tt, s')
    /\ sent s' = (sent s ++ [show_command (vdom s) path])%list
    /\ vdom s' = vdom s /\ is_Some (ssh s').
Proof.
  intros Hquiet Hopen.
  destruct (execute_command_quiet Hquiet (show_command (vdom s) path) s Hopen)
    as (d & output & d' & _ & _ & Hex).
  unfold load_config.
  unfold bind at 1. unfold bind at 1. unfold gets at 1. rewrite Hex.
  eexists. split; [reflexivity|]. cbn. split; [reflexivity|].
  split; [reflexivity | eexists; reflexivity].
Qed.

Lemma for_each_load_quiet_sent (paths : list string) :
  quiet_device ->
  forall s : Session,
    is_Some (ssh s) ->
    exists s',
      for_each paths (fun path => load_config path false true None) s
      = (Ok tt, s')
      /\ sent s' = (sent s ++ map (show_command (vdom s)) paths)%list.
Proof.
  intros Hquiet. induction paths as [|path rest IH]; intros s Hopen;
    cbn [for_each map].
  - exists s. split; [reflexivity|]. rewrite app_nil_r. reflexivity.
  - destruct (load_config_quiet_sent path s Hquiet Hopen)
      as (s1 & H1 & Hsent1 & Hv1 & Hopen1).
    rewrite (bind_ok _ _ _ _ _ H1).
    destruct (IH s1 Hopen1) as (s' & H' & Hsent').
    exists s'. split; [exact H'|].
    rewrite Hsent', Hsent1, Hv1, <- app_assoc. reflexivity.
Qed.

(** X6: on a device that answers every command, a reload over an open
    session returns normally after reading each path recorded for the
    running configuration once, in the order they were recorded, and
    sending nothing else. *)
Theorem reload_reads_recorded_paths (s : Session)
  (reload_original_config : bool) :
  quiet_device -> is_Some (ssh s) ->
  exists s',
    _reload_config reload_original_config s = (Ok tt, s')
    /\ sent s'
       = (sent s
          ++ map (show_command (vdom s))
               (cfg_paths (deref (store s) (running_config s))))%list.
Proof.
  intros Hquiet Hopen. destruct reload_original_config.
  - rewrite _reload_config_snapshot.
    unfold _reload_config, when, bind, gets, alloc, set_running_config, ret.
    cbv beta iota.
    match goal with
    | |- exists s', for_each ?p ?f ?s0 = _ /\ _ =>
        destruct (for_each_load_quiet_sent p Hquiet s0 Hopen)
          as (s' & H' & Hsent')
    end.
    exists s'. split; [exact H'|]. rewrite Hsent'. cbn.
    pose proof (content_set_name (store s) (running_config s)
                  (running_config s) "original") as Hc.
    unfold content in Hc. injection Hc as _ Hp. rewrite Hp. reflexivity.
  - unfold _reload_config, when, bind, gets, alloc, set_running_config, ret.
    cbv beta iota.
    match goal with
    | |- exists s', for_each ?p ?f ?s0 = _ /\ _ =>
        destruct (for_each_load_quiet_sent p Hquiet s0 Hopen)
          as (s' & H' & Hsent')
    end.
    exists s'. split; [exact H'|]. rewrite Hsent'. reflexivity.
Qed.

(** *** Commits that succeed *)

Lemma retry_loop_empty (retries : nat) (config_text : option string)
  (s : Session) :
  retry_loop retries config_text [] s = (Ok [], s).
Proof. apply retry_loop_idle. reflexivity. Qed.

(** X7: when the first attempt reports no failure, a commit is that
    attempt followed by the reload and nothing more, whatever [force]:
    no retry, no rollback, and it returns normally unless the reload
    itself raises. *)
Theorem commit_success (s s1 : Session) (config_text : option string)
  (force reload_original_config : bool) :
  _execute config_text s = (Ok [], s1) ->
  _commit config_text force reload_original_config s
  = _reload_config reload_original_config s1.
Proof.
  intros He. rewrite _commit_unfold. unfold commit_body, commit_attempts.
  rewrite bind_assoc, (bind_ok _ _ _ _ _ He), bind_assoc.
  unfold bind at 1.
  destruct (_reload_config reload_original_config s1) as [[[]|e] s2];
    [|reflexivity].
  rewrite (bind_ok _ _ _ _ _ (retry_loop_empty 5 config_text s2)).
  reflexivity.
Qed.

Lemma _execute_ok_batches (config_text : option string) (s s1 : Session)
  (wrong_commands : list wrong_command) :
  _execute config_text s = (Ok wrong_commands, s1) ->
  batch_executions s1 = S (batch_executions s).
Proof.
  unfold _execute. intros E.
  assert (Ht : exists text,
             match config_text with
             | Some text => ret text
             | None => compare_config None false
             end s = (Ok text, s)).
  { destruct config_text;
      [eexists; reflexivity | apply compare_config_pure]. }
  destruct Ht as [text Ht]. rewrite (bind_ok _ _ _ _ _ Ht) in E.
  unfold bind at 1 in E. unfold gets at 1 in E.
  unfold bind at 1 in E.
  pose proof (execute_command_cases (batch_cmd (vdom s) text) s) as H1.
  destruct (execute_command (batch_cmd (vdom s) text) s) as [[l1|e1] sa] eqn:E1;
    [|discriminate].
  destruct (ssh s) as [d|]; [|discriminate].
  injection H1 as _ Hsa.
  unfold bind at 1 in E.
  pose proof (execute_command_cases (lastlog_cmd (vdom s)) sa) as H2.
  destruct (execute_command (lastlog_cmd (vdom s)) sa) as [[l2|e2] sb] eqn:E2;
    [|discriminate].
  assert (Hopen : ssh sa = Some (snd (send_command d (batch_cmd (vdom s) text)))).
  { rewrite Hsa. reflexivity. }
  rewrite Hopen in H2. injection H2 as _ Hsb.
  unfold lift in E. injection E as _ <-.
  rewrite Hsb, batch_executions_sent, lastlog_not_batch_start.
  rewrite Hsa, batch_executions_sent, batch_cmd_is_batch_start. lia.
Qed.

(** X8: when the first attempt leaves a retryable failure and the retry
    reports none, the commit returns normally after exactly two batch
    executions: the loop stops retrying as soon as an attempt succeeds,
    and nothing is rolled back.  The retry sends the caller's text, or
    else the diff computed after the reload. *)
Theorem retry_then_success (s s1 s2 s3 s4 : Session)
  (config_text : option string) (force reload_original_config : bool)
  (wrong_commands : list wrong_command) :
  _execute config_text s = (Ok wrong_commands, s1) ->
  find_retryable wrong_commands = Ok true ->
  _reload_config reload_original_config s1 = (Ok tt, s2) ->
  _execute (Some (retry_text config_text s2)) s2 = (Ok [], s3) ->
  _reload_config false s3 = (Ok tt, s4) ->
  _commit config_text force reload_original_config s = (Ok tt, s4)
  /\ batch_executions s4 = (batch_executions s + 2)%nat.
Proof.
  intros He Hfind Hr He2 Hr2. split.
  - rewrite _commit_unfold. unfold commit_body, commit_attempts.
    rewrite bind_assoc, (bind_ok _ _ _ _ _ He), bind_assoc.
    rewrite (bind_ok _ _ _ _ _ Hr).
    change (retry_loop 5) with (retry_loop (S 4)). cbn [retry_loop].
    rewrite bind_assoc. unfold bind at 1. unfold lift at 1. rewrite Hfind.
    rewrite bind_assoc.
    assert (Ht : match config_text with
                 | Some text => ret text
                 | None => compare_config None false
                 end s2 = (Ok (retry_text config_text s2), s2)).
    { destruct config_text; reflexivity. }
    rewrite (bind_ok _ _ _ _ _ Ht), bind_assoc, (bind_ok _ _ _ _ _ He2).
    rewrite bind_assoc, (bind_ok _ _ _ _ _ Hr2).
    rewrite (bind_ok _ _ _ _ _
               (retry_loop_empty 4 (Some (retry_text config_text s2)) s4)).
    reflexivity.
  - apply _execute_ok_batches in He, He2.
    apply _reload_config_respects in Hr, Hr2.
    destruct Hr as [_ _ _ _ _ _ B1]. destruct Hr2 as [_ _ _ _ _ _ B2]. lia.
Qed.

(** *** Rollback without a snapshot *)

(** X12: on a session that has no snapshot yet ([original_config] is
    [None]) a rollback does not fail: [compare_config] falls back to the
    candidate, so the rollback pushes the diff from the running
    configuration to the candidate as a forced commit, and does nothing
    when that diff is empty. *)
Theorem rollback_without_snapshot (s : Session) :
  original_config s = None ->
  let text :=
    config_compare (deref (store s) (running_config s))
                   (deref (store s) (candidate_config s)) in
  (text = EmptyString -> rollback s = (Ok tt, s))
  /\ (text <> EmptyString ->
      rollback s = _commit (Some text) true false s).
Proof.
  intros Hnone text. split.
  - intros Hempty. unfold rollback, rollback_body.
    unfold bind at 1. unfold gets at 1. rewrite Hnone.
    unfold bind at 1. rewrite compare_config_diff. fold text.
    rewrite Hempty. reflexivity.
  - intros Hne. unfold rollback, rollback_body.
    unfold bind at 1. unfold gets at 1. rewrite Hnone.
    unfold bind at 1. rewrite compare_config_diff. fold text.
    destruct text; [congruence | reflexivity].
Qed.

(** *** The snapshot of a commit *)

Lemma _execute_same_configs (config_text : option string) (s : Session)
  (r : result (list wrong_command)) (s1 : Session) :
  _execute config_text s = (r, s1) -> same_configs s s1.
Proof.
  unfold _execute. intros E.
  assert (Ht : exists text,
             match config_text with
             | Some text => ret text
             | None => compare_config None false
             end s = (Ok text, s)).
  { destruct config_text;
      [eexists; reflexivity | apply compare_config_pure]. }
  destruct Ht as [text Ht]. rewrite (bind_ok _ _ _ _ _ Ht) in E.
  unfold bind at 1 in E. unfold gets at 1 in E. unfold bind at 1 in E.
  destruct (execute_command (batch_cmd (vdom s) text) s) as [[l1|e1] sa] eqn:E1.
  - apply execute_command_same_configs in E1. unfold bind at 1 in E.
    destruct (execute_command (lastlog_cmd (vdom s)) sa) as [[l2|e2] sb] eqn:E2.
    + apply execute_command_same_configs in E2. unfold lift in E.
      injection E as _ <-. eapply same_configs_trans; eassumption.
    + apply execute_command_same_configs in E2. injection E as _ <-.
      eapply same_configs_trans; eassumption.
  - apply execute_command_same_configs in E1. injection E as _ <-. exact E1.
Qed.

(** X13: in a commit whose first batch got through, the snapshot is the
    running configuration as it was before the commit, and it stays so
    through the retries and the rollback: at the end, whatever the
    outcome, [original_config] names the object that was running before,
    with the tree and paths it had, renamed [original].  When the first
    batch raises instead, the commit raises the same and no snapshot is
    taken. *)
Theorem commit_snapshot (s : Session) (config_text : option string)
  (force : bool) :
  (running_config s < length (store s))%nat ->
  (forall wrong_commands s1 r s',
      _execute config_text s = (Ok wrong_commands, s1) ->
      commit config_text force s = (r, s') ->
      original_config s' = Some (running_config s)
      /\ deref (store s') (running_config s)
         = set_name "original" (deref (store s) (running_config s)))
  /\ (forall e s1,
        _execute config_text s = (Raise e, s1) ->
        commit config_text force s = (Raise e, s1)
        /\ original_config s1 = original_config s
        /\ store s1 = store s).
Proof.
  intros Hvalid. split.
  - intros wc s1 r s' He E.
    pose proof (_execute_same_configs _ _ _ _ He) as (_ & _ & R1 & _ & S1).
    unfold commit in E. rewrite _commit_unfold in E.
    unfold commit_body, commit_attempts in E.
    rewrite bind_assoc, (bind_ok _ _ _ _ _ He), bind_assoc in E.
    unfold bind at 1 in E.
    destruct (_reload_config true s1) as [[[]|e] s2] eqn:Er.
    + apply reload_snapshot_facts in Er; [|rewrite R1, S1; exact Hvalid].
      destruct Er as (O2 & D2 & _ & L2).
      assert (F : frame true 11 s2 s').
      { revert E. apply (respects_bind true 5 6); [| |lia].
        - apply retry_loop_respects.
        - intros wc'. apply failure_handling_respects. intros _.
          apply rollback_respects. }
      destruct F as [_ _ _ _ S _ _]. destruct (S eq_refl) as [O T].
      rewrite R1, S1 in *. split; [congruence|].
      rewrite <- D2. unfold deref. rewrite T by lia. reflexivity.
    + injection E as _ <-.
      apply reload_snapshot_facts in Er; [|rewrite R1, S1; exact Hvalid].
      destruct Er as (O2 & D2 & _). rewrite R1, S1 in *. split; assumption.
  - intros e s1 He.
    pose proof (_execute_same_configs _ _ _ _ He) as (_ & O1 & _ & _ & S1).
    split; [|split; assumption].
    unfold commit. rewrite _commit_unfold. unfold commit_body, commit_attempts.
    rewrite bind_assoc. apply bind_raise. exact He.
Qed.

(** *** The budget of a commit *)

(** X14: whatever the device answers, a commit sends at most twelve
    batch scripts, six for its own attempts and six for the rollback; a
    forced commit and a rollback on its own send at most six; and none
    of them changes the scope or closes an open session. *)
Theorem commit_batch_budget (s : Session) (config_text : option string)
  (force : bool) :
  (batch_executions (snd (commit config_text force s))
   <= batch_executions s + 12)%nat
  /\ (batch_executions (snd (commit config_text true s))
      <= batch_executions s + 6)%nat
  /\ (batch_executions (snd (rollback s)) <= batch_executions s + 6)%nat
  /\ vdom (snd (commit config_text force s)) = vdom s
  /\ (is_Some (ssh s) -> is_Some (ssh (snd (commit config_text force s)))).
Proof.
  pose proof (_commit_at_respects 2 config_text force true s _ _
                (surjective_pairing _)) as [V _ _ _ _ O [_ B]].
  pose proof (_commit_at_forced_respects 2 config_text true s _ _
                (surjective_pairing _)) as [_ _ _ _ _ _ [_ B6]].
  pose proof (rollback_respects s _ _ (surjective_pairing _))
    as [_ _ _ _ _ _ [_ Br]].
  repeat split; assumption.
Qed.

(** *** A text given by the caller *)

Lemma sends_only_refl (text : string) (s : Session) : sends_only text s s.
Proof.
  split; [reflexivity|]. exists []. rewrite app_nil_r.
  split; [reflexivity | constructor].
Qed.

Lemma sends_only_trans (text : string) (s1 s2 s3 : Session) :
  sends_only text s1 s2 -> sends_only text s2 s3 -> sends_only text s1 s3.
Proof.
  intros (V1 & n1 & S1 & F1) (V2 & n2 & S2 & F2).
  split; [congruence|]. exists (n1 ++ n2)%list. split.
  - rewrite S2, S1, app_assoc. reflexivity.
  - rewrite V1 in F2. apply Forall_app. split; assumption.
Qed.

Lemma execute_command_sends_only (text command : string) (s : Session)
  (r : result (list string)) (s' : Session) :
  script_of (vdom s) text command ->
  execute_command command s = (r, s') -> sends_only text s s'.
Proof.
  intros Hc E. pose proof (execute_command_cases command s) as H.
  destruct (ssh s) as [d|]; rewrite H in E; injection E as _ <-.
  - split; [reflexivity|]. exists [command]. split; [reflexivity|].
    constructor; [exact Hc | constructor].
  - apply sends_only_refl.
Qed.

Lemma show_script_of (vd vd' : option string) (text path : string) :
  script_of vd text (show_command vd' path).
Proof.
  unfold script_of. rewrite show_not_batch_start. discriminate.
Qed.

Lemma read_sends_only (text path : string) (s : Session)
  (r : result unit) (s' : Session) :
  load_config path false true None s = (r, s') -> sends_only text s s'.
Proof.
  unfold load_config. intros E.
  unfold bind at 1 in E. unfold bind at 1 in E. unfold gets at 1 in E.
  destruct (execute_command (show_command (vdom s) path) s)
    as [[lines|e] s1] eqn:Ex.
  - apply (execute_command_sends_only text) in Ex; [|apply show_script_of].
    cbn in E. injection E as _ <-.
    eapply sends_only_trans; [exact Ex|]. exact (sends_only_refl text s1).
  - apply (execute_command_sends_only text) in Ex; [|apply show_script_of].
    injection E as _ <-. exact Ex.
Qed.

Lemma for_each_load_sends_only (text : string) (paths : list string) :
  forall (s : Session) (r : result unit) (s' : Session),
    for_each paths (fun path => load_config path false true None) s = (r, s') ->
    sends_only text s s'.
Proof.
  induction paths as [|path rest IH]; intros s r s' E; cbn [for_each] in E.
  - injection E as _ <-. apply sends_only_refl.
  - unfold bind in E.
    destruct (load_config path false true None s) as [[[]|e] s1] eqn:El.
    + eapply sends_only_trans;
        [eapply read_sends_only; exact El | eapply IH; exact E].
    + injection E as _ <-. eapply read_sends_only. exact El.
Qed.

Lemma _reread_sends_only (text : string) (b : bool) (s : Session)
  (r : result unit) (s' : Session) :
  _reload_config b s = (r, s') -> sends_only text s s'.
Proof.
  intros E. destruct b.
  - rewrite _reload_config_snapshot in E.
    unfold _reload_config, when, bind, gets, alloc, set_running_config, ret in E.
    cbv beta iota in E. apply (for_each_load_sends_only text) in E. exact E.
  - unfold _reload_config, when, bind, gets, alloc, set_running_config, ret in E.
    cbv beta iota in E. apply (for_each_load_sends_only text) in E. exact E.
Qed.

Lemma batch_sends_only (text : string) (s : Session)
  (r : result (list wrong_command)) (s' : Session) :
  _execute (Some text) s = (r, s') -> sends_only text s s'.
Proof.
  unfold _execute. intros E.
  unfold bind at 1 in E. unfold ret at 1 in E.
  unfold bind at 1 in E. unfold gets at 1 in E. unfold bind at 1 in E.
  destruct (execute_command (batch_cmd (vdom s) text) s) as [[l1|e1] sa] eqn:E1.
  - apply (execute_command_sends_only text) in E1; [|intros _; reflexivity].
    unfold bind at 1 in E.
    destruct (execute_command (lastlog_cmd (vdom s)) sa) as [[l2|e2] sb] eqn:E2;
      (apply (execute_command_sends_only text) in E2;
       [| unfold script_of; rewrite lastlog_not_batch_start; discriminate]);
      [unfold lift in E|]; injection E as _ <-;
      eapply sends_only_trans; eassumption.
  - apply (execute_command_sends_only text) in E1; [|intros _; reflexivity].
    injection E as _ <-. exact E1.
Qed.

Lemma retry_loop_sends_only (text : string) (retries : nat) :
  forall (wrong_commands : list wrong_command) (s : Session)
         (r : result (list wrong_command)) (s' : Session),
    retry_loop retries (Some text) wrong_commands s = (r, s') ->
    sends_only text s s'.
Proof.
  induction retries as [|n IH]; intros wc s r s' E; cbn [retry_loop] in E.
  - injection E as _ <-. apply sends_only_refl.
  - unfold bind at 1 in E. unfold lift at 1 in E.
    destruct (find_retryable wc) as [[|]|e].
    + unfold bind at 1 in E. unfold ret at 1 in E. unfold bind at 1 in E.
      destruct (_execute (Some text) s) as [[wc'|e1] s1] eqn:E1.
      * apply batch_sends_only in E1. unfold bind at 1 in E.
        destruct (_reload_config false s1) as [[[]|e2] s2] eqn:E2.
        -- apply (_reread_sends_only text) in E2. apply IH in E.
           eapply sends_only_trans; [exact E1|].
           eapply sends_only_trans; eassumption.
        -- apply (_reread_sends_only text) in E2.
           injection E as _ <-. eapply sends_only_trans; eassumption.
      * apply batch_sends_only in E1. injection E as _ <-. exact E1.
    + eapply IH. exact E.
    + injection E as _ <-. apply sends_only_refl.
Qed.

(** X16: when the caller gives the text, the first attempt and every
    retry send that same text: whatever the device answers, each batch
    script that goes out during the attempts of the commit is the one
    framing the caller's text under the scope of the session. *)
Theorem explicit_text_is_pinned (s : Session) (text : string)
  (reload_original_config : bool) :
  exists new,
    sent (snd (commit_attempts (Some text) reload_original_config s))
    = (sent s ++ new)%list
    /\ Forall (fun command =>
                 is_batch_start command = true ->
                 command = batch_cmd (vdom s) text) new.
Proof.
  assert (H : sends_only text s
                (snd (commit_attempts (Some text) reload_original_config s))).
  { unfold commit_attempts. unfold bind at 1.
    destruct (_execute (Some text) s) as [[wc|e] s1] eqn:E1.
    - apply batch_sends_only in E1.
      eapply sends_only_trans; [exact E1|]. unfold bind at 1.
      destruct (_reload_config reload_original_config s1) as [[[]|e2] s2] eqn:E2.
      + apply (_reread_sends_only text) in E2.
        eapply sends_only_trans; [exact E2|].
        eapply retry_loop_sends_only. apply surjective_pairing.
      + apply (_reread_sends_only text) in E2. exact E2.
    - apply batch_sends_only in E1. exact E1. }
  destruct H as (_ & new & Hs & Hf). exists new. split; assumption.
Qed.

End FurtherProperties.

(** ** The exceptions of the engine *)

Section Exceptions.

Context {Dev : Type} {channel : CommandChannel Dev}.
Context {Tree : Type} {tree_ops : ConfigTree Tree}.

Abbreviation Method := (@M Dev Tree).

Lemma returns_bind {A B : Type} (m : Method A) (f : A -> Method B)
  (Q : A -> Prop) (R : B -> Prop) :
  returns_or_fails m Q ->
  (forall a, Q a -> returns_or_fails (f a) R) ->
  returns_or_fails (bind m f) R.
Proof.
  intros Hm Hf s. unfold bind. specialize (Hm s).
  destruct (m s) as [[a|e] s1]; cbn [fst] in *; [|exact Hm].
  apply (Hf a Hm s1).
Qed.

Lemma returns_ret {A : Type} (a : A) (Q : A -> Prop) :
  Q a -> returns_or_fails (ret a : Method A) Q.
Proof. intros H s. exact H. Qed.

Lemma returns_pure {A : Type} (m : Method A) (Q : A -> Prop) :
  (forall s, exists a, fst (m s) = Ok a /\ Q a) -> returns_or_fails m Q.
Proof. intros H s. destruct (H s) as (a & -> & Ha). exact Ha. Qed.

Lemma returns_weaken {A : Type} (m : Method A) (Q R : A -> Prop) :
  returns_or_fails m Q -> (forall a, Q a -> R a) -> returns_or_fails m R.
Proof.
  intros H HQ s. specialize (H s). destruct (fst (m s)); [apply HQ|]; exact H.
Qed.

Lemma execute_command_returns (command : string) :
  returns_or_fails (execute_command command : Method (list string))
    (fun _ => True).
Proof.
  intros s. pose proof (execute_command_cases command s) as H.
  destruct (ssh s) as [d|]; rewrite H; cbn [fst].
  - destruct (fst (send_command d command)) as [output|what].
    + destruct (Str.contains "Command fail" output); [left; reflexivity | exact I].
    + right. right. left. eexists. reflexivity.
  - right. left. reflexivity.
Qed.

Lemma load_config_returns (path : string) :
  returns_or_fails (load_config path false true None) (fun _ => True).
Proof.
  unfold load_config.
  apply (returns_bind _ _ (fun _ => True)).
  - apply (returns_bind _ _ (fun _ => True)); [intros s; exact I|].
    intros vd _. apply execute_command_returns.
  - intros text _ s. exact I.
Qed.

Lemma for_each_load_returns (paths : list string) :
  returns_or_fails
    (for_each paths (fun path => load_config path false true None))
    (fun _ => True).
Proof.
  induction paths as [|path rest IH]; cbn [for_each].
  - intros s. exact I.
  - apply (returns_bind _ _ (fun _ => True));
      [apply load_config_returns | intros _ _; exact IH].
Qed.

Lemma _reload_config_returns (b : bool) :
  returns_or_fails (_reload_config b) (fun _ => True).
Proof.
  unfold _reload_config.
  apply (returns_bind _ _ (fun _ => True)).
  { destruct b; intros s; exact I. }
  intros _ _. apply (returns_bind _ _ (fun _ => True)); [intros s; exact I|].
  intros running _.
  apply (returns_bind _ _ (fun _ => True)); [intros s; exact I|].
  intros h _. apply (returns_bind _ _ (fun _ => True)); [intros s; exact I|].
  intros vd _. apply (returns_bind _ _ (fun _ => True)); [intros s; exact I|].
  intros fresh _.
  apply (returns_bind _ _ (fun _ => True)); [intros s; exact I|].
  intros _ _. apply for_each_load_returns.
Qed.

Lemma text_returns (config_text : option string) :
  returns_or_fails
    (match config_text with
     | Some text => ret text
     | None => compare_config None false
     end : Method string)
    (fun _ => True).
Proof. destruct config_text; intros st; exact I. Qed.

Lemma _execute_returns (config_text : option string) :
  returns_or_fails (_execute config_text) readable.
Proof.
  unfold _execute.
  apply (returns_bind _ _ (fun _ => True)); [apply text_returns|].
  intros text _. apply (returns_bind _ _ (fun _ => True)); [intros s; exact I|].
  intros vd _.
  apply (returns_bind _ _ (fun _ => True)); [apply execute_command_returns|].
  intros _ _.
  apply (returns_bind _ _ (fun _ => True)); [apply execute_command_returns|].
  intros last_log _ s. unfold lift. cbn [fst]. unfold _parse_batch_lastlog.
  destruct (parse_lines [] last_log) as [wc|e] eqn:Hp.
  - destruct (parse_lines_sound _ _ _ Hp) as (w & -> & Hfe).
    apply (failed_entries_negative _ _ Hfe).
  - destruct (parse_lines_raises _ _ _ Hp) as (l & c & k & _ & _ & Hlong & ->).
    right. right. right. exists c. split; [reflexivity | exact Hlong].
Qed.

Lemma retry_loop_returns (retries : nat) :
  forall (config_text : option string) (wrong_commands : list wrong_command),
    readable wrong_commands ->
    returns_or_fails (retry_loop retries config_text wrong_commands) readable.
Proof.
  induction retries as [|n IH]; intros config_text wc Hwc; cbn [retry_loop].
  - intros s. exact Hwc.
  - destruct (find_retryable_total wc Hwc) as (b & Hb & _).
    apply (returns_bind _ _ (fun r => r = b)).
    { intros s. unfold lift. cbn [fst]. rewrite Hb. reflexivity. }
    intros r ->. destruct b; [|apply IH; exact Hwc].
    apply (returns_bind _ _ (fun _ => True)); [apply text_returns|].
    intros text _.
    apply (returns_bind _ _ readable); [apply _execute_returns|].
    intros wc' Hwc'.
    apply (returns_bind _ _ (fun _ => True)); [apply _reload_config_returns|].
    intros _ _. apply IH. exact Hwc'.
Qed.

Lemma commit_attempts_returns (config_text : option string) (b : bool) :
  returns_or_fails (commit_attempts config_text b) readable.
Proof.
  unfold commit_attempts.
  apply (returns_bind _ _ readable); [apply _execute_returns|].
  intros wc Hwc.
  apply (returns_bind _ _ (fun _ => True)); [apply _reload_config_returns|].
  intros _ _. apply retry_loop_returns. exact Hwc.
Qed.

Lemma failure_handling_returns (rb : Method unit) (force : bool)
  (wrong_commands : list wrong_command) :
  (force = false -> returns_or_fails rb (fun _ => True)) ->
  returns_or_fails (failure_handling rb force wrong_commands)
    (fun _ => wrong_commands = []).
Proof.
  intros Hrb s. unfold failure_handling.
  destruct wrong_commands as [|w rest]; [reflexivity|].
  cbn [length when]. change (0 <? Z.of_nat (S (length rest))) with true.
  cbn [when]. destruct force.
  - rewrite commit_failed_forced. left. reflexivity.
  - rewrite commit_failed_unforced. specialize (Hrb eq_refl s).
    destruct (rb s) as [[[]|e] s1]; cbn [fst] in *;
      [left; reflexivity | exact Hrb].
Qed.

Lemma _commit_forced_returns (depth : nat) (config_text : option string)
  (b : bool) :
  returns_or_fails (_commit_at (S depth) config_text true b) (fun _ => True).
Proof.
  cbn [_commit_at]. unfold commit_body.
  apply (returns_bind _ _ readable); [apply commit_attempts_returns|].
  intros wc _. eapply returns_weaken.
  - apply failure_handling_returns. discriminate.
  - intros _ _. exact I.
Qed.

Lemma rollback_body_returns (depth : nat) :
  returns_or_fails (rollback_body (_commit_at (S depth)) : Method unit)
    (fun _ => True).
Proof.
  unfold rollback_body.
  apply (returns_bind _ _ (fun _ => True)); [intros s; exact I|].
  intros original _.
  apply (returns_bind _ _ (fun _ => True)).
  { intros s. destruct (compare_config_pure original false s) as [v ->].
    exact I. }
  intros text _. destruct (0 <? Z.of_nat (String.length text)); cbn [when].
  - apply _commit_forced_returns.
  - intros s. exact I.
Qed.

(** X20: whatever the device does, a commit either returns normally or
    raises [NameError] for the name [exceptions], [AttributeError] for a
    session never opened, what the transport raised, or the [ValueError]
    of [int] on a status code of more than 4300 digits; so it never
    raises [FailedCommit] nor [CommandExecutionException], the nesting
    of [_commit] and [rollback] never runs out of depth, and reading a
    status code fails on no other code.  The same holds for a
    rollback. *)
Theorem commit_exceptions (s : FortiOS Dev Tree)
  (config_text : option string) (force : bool) :
  match fst (commit config_text force s) with
  | Ok _ => True
  | Raise e => expected_failure e
  end
  /\ match fst (rollback s) with
     | Ok _ => True
     | Raise e => expected_failure e
     end
  /\ (forall wrong_commands msg,
        fst (commit config_text force s) <> Raise (FailedCommit wrong_commands)
        /\ fst (commit config_text force s)
           <> Raise (CommandExecutionException msg)
        /\ fst (commit config_text force s) <> Raise RecursionError)
  /\ (forall text,
        fst (commit config_text force s) = Raise (ValueError text) ->
        int_max_str_digits < digit_count text).
Proof.
  assert (Hc : match fst (commit config_text force s) with
               | Ok _ => True
               | Raise e => expected_failure e
               end).
  { unfold commit, _commit. cbn [_commit_at]. unfold commit_body.
    refine (returns_bind _ _ readable (fun _ => True) _ _ s);
      [apply commit_attempts_returns|].
    intros wc _. eapply returns_weaken.
    - apply failure_handling_returns. intros _.
      exact (rollback_body_returns 0).
    - intros _ _. exact I. }
  split; [exact Hc|]. split; [|split].
  - apply (rollback_body_returns 1 s).
  - intros wc msg.
    destruct (fst (commit config_text force s)) as [[]|e];
      [repeat split; discriminate|].
    destruct Hc as [->|[->|[[what ->]|(c & -> & _)]]];
      repeat split; discriminate.
  - intros text E. rewrite E in Hc.
    destruct Hc as [H|[H|[[what H]|(c & H & Hlong)]]]; try discriminate H.
    injection H as ->. exact Hlong.
Qed.

End Exceptions.

(** ** The further properties on the scripted devices *)

Lemma closed_session_raises_witness :
  ssh closed_session = None
  /\ commit None false closed_session
     = (Raise (AttributeError "send_command"), closed_session).
Proof.
  assert (H : ssh closed_session = None) by reflexivity.
  split; [exact H|].
  exact (proj1 (closed_session_raises closed_session H) None false).
Defined.

Lemma load_config_targets_witness :
  running_config scenario_C <> candidate_config scenario_C
  /\ (running_config scenario_C < length (store scenario_C))%nat
  /\ (candidate_config scenario_C < length (store scenario_C))%nat
  /\ exists s',
       load_config "router bgp" true true (Some ["set as 65000"]) scenario_C
       = (Ok tt, s')
       /\ deref (store s') (candidate_config scenario_C)
          = loaded "router bgp" ["set as 65000"]
              (deref (store scenario_C) (candidate_config scenario_C))
       /\ deref (store s') (running_config scenario_C)
          = deref (store scenario_C) (running_config scenario_C).
Proof.
  assert (H1 : running_config scenario_C <> candidate_config scenario_C)
    by discriminate.
  assert (H2 : (running_config scenario_C < length (store scenario_C))%nat)
    by (simpl; lia).
  assert (H3 : (candidate_config scenario_C < length (store scenario_C))%nat)
    by (simpl; lia).
  split; [exact H1|]. split; [exact H2|]. split; [exact H3|].
  destruct (load_config_targets scenario_C "router bgp" true true
              ["set as 65000"] H1 H2 H3)
    as (s' & Hl & _ & _ & _ & _ & _ & Hr & Hc & _).
  exists s'. split; [exact Hl|]. split; [exact Hc | exact Hr].
Defined.

Lemma load_config_sends_witness :
  ssh scenario_named_vdom
  = Some {| lastlogs := ["0: set a 2"]; shows := [] |}
  /\ sent (snd (load_config "system" false true None scenario_named_vdom))
     = [ "conf vdom" ++ Str.nl ++ "edit global-dmz" ++ Str.nl
         ++ "show system" ++ Str.nl ++ "end" ].
Proof.
  assert (H : ssh scenario_named_vdom
              = Some {| lastlogs := ["0: set a 2"]; shows := [] |})
    by reflexivity.
  split; [exact H|].
  exact (proj1 (load_config_sends scenario_named_vdom _ "system" false true H)).
Defined.

Lemma reload_takes_snapshot_witness :
  (running_config scenario_C < length (store scenario_C))%nat
  /\ _reload_config true scenario_C
     = (fst (_reload_config true scenario_C),
        snd (_reload_config true scenario_C))
  /\ original_config (snd (_reload_config true scenario_C)) = Some 0%nat
  /\ running_config (snd (_reload_config true scenario_C)) = 2%nat.
Proof.
  assert (H : (running_config scenario_C < length (store scenario_C))%nat)
    by (simpl; lia).
  split; [exact H|]. split; [apply surjective_pairing|].
  destruct (reload_takes_snapshot scenario_C _ _ H (surjective_pairing _))
    as (O & _ & R & _).
  split; [exact O | exact R].
Defined.

Lemma reload_reads_recorded_paths_witness :
  @quiet_device unit (stubborn_channel "-3: set a 2")
  /\ is_Some (ssh stubborn_session)
  /\ exists s',
       @_reload_config unit (stubborn_channel "-3: set a 2") _ _ true
         stubborn_session = (Ok tt, s')
       /\ sent s'
          = [ "conf vdom" ++ Str.nl ++ "edit root" ++ Str.nl
              ++ "show system" ++ Str.nl ++ "end" ].
Proof.
  pose proof (stubborn_quiet "-3: set a 2" eq_refl) as Hq.
  assert (Ho : is_Some (ssh stubborn_session)) by (exists tt; reflexivity).
  split; [exact Hq|]. split; [exact Ho|].
  exact (@reload_reads_recorded_paths unit (stubborn_channel "-3: set a 2")
           _ _ stubborn_session true Hq Ho).
Defined.

Lemma commit_success_witness :
  _execute None scenario_A = (Ok [], snd (_execute None scenario_A))
  /\ _commit None false true scenario_A
     = _reload_config true (snd (_execute None scenario_A))
  /\ fst (commit None false scenario_A) = Ok tt.
Proof.
  assert (H : _execute None scenario_A
              = (Ok [], snd (_execute None scenario_A))) by reflexivity.
  split; [exact H|].
  pose proof (commit_success scenario_A _ None false true H) as Hc.
  split; [exact Hc|]. unfold commit. rewrite Hc. reflexivity.
Defined.

Lemma retry_then_success_witness :
  let s1 := snd (_execute None scenario_B) in
  let s2 := snd (_reload_config true s1) in
  let s3 := snd (_execute (Some (retry_text None s2)) s2) in
  let s4 := snd (_reload_config false s3) in
  _execute None scenario_B = (Ok [(PyStr "-3", "set a 2")], s1)
  /\ find_retryable [(PyStr "-3", "set a 2")] = Ok true
  /\ _reload_config true s1 = (Ok tt, s2)
  /\ _execute (Some (retry_text None s2)) s2 = (Ok [], s3)
  /\ _reload_config false s3 = (Ok tt, s4)
  /\ _commit None false true scenario_B = (Ok tt, s4)
  /\ batch_executions s4 = (batch_executions scenario_B + 2)%nat.
Proof.
  intros s1 s2 s3 s4.
  assert (H1 : _execute None scenario_B = (Ok [(PyStr "-3", "set a 2")], s1))
    by (vm_compute; reflexivity).
  assert (H2 : find_retryable [(PyStr "-3", "set a 2")] = Ok true)
    by (vm_compute; reflexivity).
  assert (H3 : _reload_config true s1 = (Ok tt, s2)) by (vm_compute; reflexivity).
  assert (H4 : _execute (Some (retry_text None s2)) s2 = (Ok [], s3))
    by (vm_compute; reflexivity).
  assert (H5 : _reload_config false s3 = (Ok tt, s4)) by (vm_compute; reflexivity).
  split; [exact H1|]. split; [exact H2|]. split; [exact H3|].
  split; [exact H4|]. split; [exact H5|].
  exact (retry_then_success scenario_B s1 s2 s3 s4 None false true _
           H1 H2 H3 H4 H5).
Defined.

Lemma rollback_without_snapshot_witness :
  original_config scenario_C = None
  /\ rollback scenario_C
     = _commit (Some "replace [set a 1] by [set a 2]") true false scenario_C.
Proof.
  assert (H : original_config scenario_C = None) by reflexivity.
  split; [exact H|].
  destruct (rollback_without_snapshot scenario_C H) as [_ Hne].
  apply Hne. vm_compute. discriminate.
Defined.

Lemma commit_snapshot_witness :
  (running_config scenario_C < length (store scenario_C))%nat
  /\ original_config (snd (commit None false scenario_C))
     = Some (running_config scenario_C)
  /\ deref (store (snd (commit None false scenario_C)))
       (running_config scenario_C)
     = set_name "original"
         (deref (store scenario_C) (running_config scenario_C)).
Proof.
  assert (H : (running_config scenario_C < length (store scenario_C))%nat)
    by (simpl; lia).
  split; [exact H|].
  assert (He : _execute None scenario_C
               = (Ok [(PyStr "-5", "set a 2")], snd (_execute None scenario_C)))
    by reflexivity.
  exact (proj1 (commit_snapshot scenario_C None false H) _ _ _ _ He
           (surjective_pairing _)).
Defined.

Lemma _commit_failure_witness :
  commit_attempts None true scenario_C
  = (Ok [(PyStr "-5", "set a 2")], snd (commit_attempts None true scenario_C))
  /\ [(PyStr "-5", "set a 2")] <> ([] : list wrong_command)
  /\ _commit None true true scenario_C
     = (Raise (NameError "exceptions"),
        snd (commit_attempts None true scenario_C)).
Proof.
  assert (H1 : commit_attempts None true scenario_C
               = (Ok [(PyStr "-5", "set a 2")],
                  snd (commit_attempts None true scenario_C)))
    by (vm_compute; reflexivity).
  assert (H2 : [(PyStr "-5", "set a 2")] <> ([] : list wrong_command))
    by discriminate.
  split; [exact H1|]. split; [exact H2|].
  exact (_commit_failure scenario_C _ None true true _ H1 H2).
Defined.

Lemma _execute_sends_witness :
  @quiet_device unit (stubborn_channel "-3: set a 2")
  /\ is_Some (ssh stubborn_session)
  /\ sent (snd (@_execute unit (stubborn_channel "-3: set a 2") _ _
                  (Some "set a 2") stubborn_session))
     = [ batch_cmd (Some "root") "set a 2"; lastlog_cmd (Some "root") ].
Proof.
  pose proof (stubborn_quiet "-3: set a 2" eq_refl) as Hq.
  assert (Ho : is_Some (ssh stubborn_session)) by (exists tt; reflexivity).
  split; [exact Hq|]. split; [exact Ho|].
  exact (@_execute_sends unit (stubborn_channel "-3: set a 2") _ _
           "set a 2" stubborn_session Hq Ho).
Defined.
